(** * Skillio trust-and-safety core: a shallow embedding of
    [complete_platform.py] and the properties of its rate limiter, CSRF
    token store, input validator and moderation / claim handlers.

  Conventions of the embedding.
  - [time.time()] readings are passed in explicitly, as exact integral
    clock ticks of one second ([Z]); every place where the Python code
    reads the clock takes one reading as an argument.
  - Python dictionaries are [gmap]s, Python lists are [list]s.
  - Values produced by [uuid.uuid4()] and [hashlib.sha256] are supplied
    by the caller of the embedded function. *)

From Stdlib Require Import ZArith Lia List Ascii String Bool.
From stdpp Require Import base decidable option list gmap strings fin_maps sorting pretty.

Local Open Scope Z_scope.

(* ===================================================================== *)
(** * Part I: the program                                                 *)
(* ===================================================================== *)

(** ** class RateLimiter *)
Module RateLimiter.

(** [self.requests], [self.cleanup_interval], [self.last_cleanup]. *)
Record t := Build {
  requests : gmap string (list Z);
  cleanup_interval : Z;
  last_cleanup : Z
}.

(** [__init__]: empty dictionary, a sweep every 300 seconds, and the clock
    reading [now] taken at construction. *)
Definition init (now : Z) : t :=
  {| requests := ∅; cleanup_interval := 300; last_cleanup := now |}.

(** The body of the [for ip in list(self.requests.keys())] loop for one
    bucket: keep the timestamps above [cutoff], and delete the key when
    nothing is left. *)
Definition sweep_bucket (cutoff : Z) (l : list Z) : option (list Z) :=
  match filter (λ ts, ts > cutoff) l with
  | [] => None
  | l' => Some l'
  end.

(** [cleanup_old_requests(self)], with [now] the reading of the clock. *)
Definition cleanup_old_requests (self : t) (now : Z) : t :=
  if decide (now - last_cleanup self > cleanup_interval self) then
    let cutoff := now - 3600 in
    {| requests := omap (sweep_bucket cutoff) (requests self);
       cleanup_interval := cleanup_interval self;
       last_cleanup := now |}
  else self.

(** [is_rate_limited(self, ip, max_requests, window_seconds)].  The clock is
    read twice: [now_sweep] inside [cleanup_old_requests] and [now] in the
    body.  The result is the returned pair and the limiter afterwards. *)
Definition is_rate_limited (self : t) (ip : string)
    (max_requests window_seconds : Z) (now_sweep now : Z) : (bool * Z) * t :=
  let self := cleanup_old_requests self now_sweep in
  let window_start := now - window_seconds in
  (* if ip not in self.requests: self.requests[ip] = [] *)
  let reqs :=
    match requests self !! ip with
    | Some _ => requests self
    | None => <[ip := []]> (requests self)
    end in
  let bucket := default [] (reqs !! ip) in
  let recent_requests := filter (λ ts, ts > window_start) bucket in
  let n := Z.of_nat (length recent_requests) in
  if decide (n >= max_requests) then
    ((true, max_requests - n),
     {| requests := reqs;
        cleanup_interval := cleanup_interval self;
        last_cleanup := last_cleanup self |})
  else
    ((false, max_requests - n - 1),
     {| requests := <[ip := recent_requests ++ [now]]> reqs;
        cleanup_interval := cleanup_interval self;
        last_cleanup := last_cleanup self |}).

(** The timestamps recorded for a key; a missing key has none. *)
Definition bucket (self : t) (ip : string) : list Z :=
  default [] (requests self !! ip).

(** One call of [is_rate_limited] together with its two clock readings. *)
Record call := Call {
  c_ip : string;
  c_max : Z;
  c_window : Z;
  c_sweep : Z;
  c_now : Z
}.

Definition step (self : t) (c : call) : (bool * Z) * t :=
  is_rate_limited self (c_ip c) (c_max c) (c_window c) (c_sweep c) (c_now c).

(** A sequence of calls on one limiter; the outcome of every call is
    logged next to the call. *)
Fixpoint run (self : t) (cs : list call) : list (call * (bool * Z)) * t :=
  match cs with
  | [] => ([], self)
  | c :: cs' =>
      let '(r, self') := step self c in
      let '(log, self'') := run self' cs' in
      ((c, r) :: log, self'')
  end.

(** The instants of the calls for [ip] that were let through. *)
Fixpoint granted (ip : string) (log : list (call * (bool * Z))) : list Z :=
  match log with
  | [] => []
  | (c, (limited, _)) :: log' =>
      if decide (c_ip c = ip ∧ limited = false)
      then c_now c :: granted ip log'
      else granted ip log'
  end.

(** The clock never runs backwards: readings are non-decreasing along the
    sequence of calls, starting from [t0]. *)
Fixpoint monotone (t0 : Z) (cs : list call) : Prop :=
  match cs with
  | [] => True
  | c :: cs' => t0 <= c_sweep c ∧ c_sweep c <= c_now c ∧ monotone (c_now c) cs'
  end.

(** Number of instants of [l] in the half-open interval [(a, a + w]]. *)
Definition in_window (a w : Z) (l : list Z) : nat :=
  length (filter (λ ts, a < ts ∧ ts <= a + w) l).

End RateLimiter.

(** ** class CSRFProtection *)
Module CSRFProtection.

(** The class attribute [tokens]: [{user_id: {token: timestamp}}]. *)
Abbreviation store := (gmap string (gmap string Z)).

(** [generate_token(user_id)].  [token] is the SHA-256 hex digest computed
    on the first line, [now] the clock reading. *)
Definition generate_token (tokens : store) (user_id token : string) (now : Z)
    : string * store :=
  let tokens :=
    match tokens !! user_id with
    | Some d => <[user_id := filter (λ kv, now - kv.2 < 3600) d]> tokens
    | None => <[user_id := ∅]> tokens
    end in
  let d := default ∅ (tokens !! user_id) in
  (token, <[user_id := <[token := now]> d]> tokens).

(** [validate_token(user_id, token)], with [now] the clock reading taken
    when the age of the token is checked. *)
Definition validate_token (tokens : store) (user_id token : string) (now : Z)
    : bool * store :=
  if decide (user_id = "" ∨ token = "")%string then (false, tokens)
  else
    match tokens !! user_id with
    | None => (false, tokens)
    | Some d =>
        match d !! token with
        | None => (false, tokens)
        | Some token_time =>
            if decide (now - token_time > 3600)
            then (false, <[user_id := delete token d]> tokens)
            else (true, <[user_id := delete token d]> tokens)
        end
    end.

(** Whether [user_id] currently holds [token]. *)
Definition holds (tokens : store) (user_id token : string) : bool :=
  match tokens !! user_id with
  | Some d => bool_decide (is_Some (d !! token))
  | None => false
  end.

End CSRFProtection.

(** ** Python text and the [re] module

  A Python [str] is modelled as a Coq [string] whose characters are the
  code points U+0000..U+00FF; the character tables below ([str.lower],
  [str.isspace], [\s], [\d], [\w]) are Python's for that range. *)
Module Re.

Definition ord (c : ascii) : N := N_of_ascii c.

Definition between (lo hi : N) (c : ascii) : bool :=
  ((lo <=? ord c) && (ord c <=? hi))%N.

Definition same (d : ascii) (c : ascii) : bool := Ascii.eqb c d.

(** [str.isspace] and the class [\s]. *)
Definition isspace (c : ascii) : bool :=
  between 9 13 c || between 28 32 c || (ord c =? 133)%N || (ord c =? 160)%N.

(** The class [\d]: decimal digits. *)
Definition isdecimal (c : ascii) : bool := between 48 57 c.

(** [str.isalnum]: letters, digits and numeric characters. *)
Definition isalnum (c : ascii) : bool :=
  between 48 57 c || between 65 90 c || between 97 122 c ||
  (ord c =? 170)%N || between 178 179 c || (ord c =? 181)%N ||
  between 185 186 c || between 188 190 c ||
  between 192 214 c || between 216 246 c || between 248 255 c.

(** The class [\w]. *)
Definition isword (c : ascii) : bool := isalnum c || same "_" c.

(** [.] without DOTALL: anything but a newline. *)
Definition dot (c : ascii) : bool := negb (same "010" c).

(** [str.lower] on one character. *)
Definition lower_char (c : ascii) : ascii :=
  if between 65 90 c || (between 192 222 c && negb (ord c =? 215)%N)
  then ascii_of_N (ord c + 32)
  else c.

Definition lower (s : list ascii) : list ascii := map lower_char s.

(** Regular expressions, as far as the patterns of the program need them. *)
Inductive re : Type :=
| Eps                       (* the empty pattern *)
| Cls (p : ascii → bool)    (* one character of a class *)
| Cat (r1 r2 : re)          (* r1r2 *)
| Alt (r1 r2 : re)          (* r1|r2 *)
| Star (r : re)             (* r* *)
| WordB                     (* the assertion \b *)
| Again (n : nat).          (* (.)\1{n,} : a character other than newline,
                               then at least n more copies of it *)

(** [s] starts with [n] copies of [c]: the rest of [s]. *)
Fixpoint eat (n : nat) (c : ascii) (s : list ascii) : option (list ascii) :=
  match n with
  | O => Some s
  | S n' =>
      match s with
      | d :: s' => if Ascii.eqb d c then eat n' c s' else None
      | [] => None
      end
  end.

Definition at_boundary (prev : option ascii) (s : list ascii) : bool :=
  xorb (from_option isword false prev) (from_option isword false (head s)).

(** Backtracking matcher in continuation-passing style: [matches r prev s k]
    holds when some match of [r] at the start of [s] ([prev] being the
    character just before) leaves a rest accepted by [k].  An iteration of
    [r*] has to consume a character, so [length s] iterations are enough. *)
Fixpoint matches (r : re) (prev : option ascii) (s : list ascii)
    (k : option ascii → list ascii → bool) {struct r} : bool :=
  match r with
  | Eps => k prev s
  | Cls p =>
      match s with
      | c :: s' => p c && k (Some c) s'
      | [] => false
      end
  | Cat r1 r2 => matches r1 prev s (λ prev' s', matches r2 prev' s' k)
  | Alt r1 r2 => matches r1 prev s k || matches r2 prev s k
  | Star r1 =>
      (fix loop (fuel : nat) (prev : option ascii) (s : list ascii) : bool :=
         k prev s ||
         match fuel with
         | O => false
         | S fuel' =>
             matches r1 prev s
               (λ prev' s', (length s' <? length s)%nat && loop fuel' prev' s')
         end) (length s) prev s
  | WordB => at_boundary prev s && k prev s
  | Again n =>
      match s with
      | c :: s' =>
          dot c &&
          match eat n c s' with
          | Some s'' =>
              (fix more (s : list ascii) : bool :=
                 k (Some c) s ||
                 match s with
                 | d :: t => Ascii.eqb d c && more t
                 | [] => false
                 end) s''
          | None => false
          end
      | [] => false
      end
  end.

(** [re.search(r, s)] as a truth value: a match starts somewhere in [s]. *)
Fixpoint search_from (r : re) (prev : option ascii) (s : list ascii) : bool :=
  matches r prev s (λ _ _, true) ||
  match s with
  | c :: s' => search_from r (Some c) s'
  | [] => false
  end.

Definition search (r : re) (s : list ascii) : bool := search_from r None s.

(** Pattern syntax. *)
Definition chr (c : ascii) : re := Cls (same c).
Definition lit (s : string) : re :=
  fold_right (λ c r, Cat (chr c) r) Eps (list_ascii_of_string s).
Fixpoint alts (rs : list re) : re :=
  match rs with
  | [] => Cls (λ _, false)
  | [r] => r
  | r :: rs' => Alt r (alts rs')
  end.
Definition cats (rs : list re) : re := fold_right Cat Eps rs.
Definition plus (r : re) : re := Cat r (Star r).
Definition opt (r : re) : re := Alt r Eps.
Fixpoint at_least (n : nat) (r : re) : re :=
  match n with
  | O => Star r
  | S n' => Cat r (at_least n' r)
  end.
Definition words (ws : list string) : re := alts (map lit ws).

End Re.

(** ** class SecurityValidator *)
Module SecurityValidator.
Import Re.

Definition quote : re := Cls (λ c, same "'" c || same "034" c).
Definition ws : re := Star (Cls isspace).

(** The list [sql_patterns]. *)
Definition sql_patterns : list re :=
  [ (* \b(union|select|insert|update|delete|drop|create|alter)\b.*\b(from|into|table|database)\b *)
    cats [WordB;
          words ["union"; "select"; "insert"; "update"; "delete"; "drop";
                 "create"; "alter"]%string;
          WordB; Star (Cls dot); WordB;
          words ["from"; "into"; "table"; "database"]%string; WordB];
    (* [\'\"]\s*(or|and)\s*[\'\"]\s*=\s*[\'\"]\s*[\'\"]\s* *)
    cats [quote; ws; words ["or"; "and"]%string; ws; quote; ws; chr "=";
          ws; quote; ws; quote; ws];
    (* [\'\"]\s*(or|and)\s+\d+\s*=\s*\d+\s*[\'\"]\s* *)
    cats [quote; ws; words ["or"; "and"]%string; plus (Cls isspace);
          plus (Cls isdecimal); ws; chr "="; ws; plus (Cls isdecimal); ws;
          quote; ws];
    (* ;\s*(drop|delete|truncate|insert|update) *)
    cats [chr ";"; ws;
          words ["drop"; "delete"; "truncate"; "insert"; "update"]%string];
    (* (exec|execute|sp_|xp_) *)
    words ["exec"; "execute"; "sp_"; "xp_"]%string;
    (* <script[^>]*>.*</script> *)
    cats [lit "<script"; Star (Cls (λ c, negb (same ">" c))); chr ">";
          Star (Cls dot); lit "</script>"] ].

(** [check_sql_injection(text)] on the characters of [text]. *)
Definition check_sql_injection_chars (text : list ascii) : bool :=
  match text with
  | [] => false
  | _ => let text_lower := lower text in
         existsb (λ pattern, search pattern text_lower) sql_patterns
  end.

Definition check_sql_injection (text : string) : bool :=
  check_sql_injection_chars (list_ascii_of_string text).

(** The list [spam_indicators]. *)
Definition spam_indicators : list re :=
  [ (* http[s]?://.*\.tk/ *)
    cats [lit "http"; opt (chr "s"); lit "://"; Star (Cls dot); lit ".tk/"];
    (* http[s]?://.*\.ml/ *)
    cats [lit "http"; opt (chr "s"); lit "://"; Star (Cls dot); lit ".ml/"];
    (* (buy|purchase|sale).*(viagra|cialis|cheap) *)
    cats [words ["buy"; "purchase"; "sale"]%string; Star (Cls dot);
          words ["viagra"; "cialis"; "cheap"]%string];
    (* (win|winner|won).*(money|prize|lottery) *)
    cats [words ["win"; "winner"; "won"]%string; Star (Cls dot);
          words ["money"; "prize"; "lottery"]%string];
    (* [a-zA-Z]{50,} *)
    at_least 50 (Cls (λ c, between 97 122 c || between 65 90 c));
    (* (.)\1{10,} *)
    Again 10 ].

(** [detect_spam_patterns(text)]. *)
Definition detect_spam_patterns (text : string) : bool :=
  match list_ascii_of_string text with
  | [] => false
  | chars => let text_lower := lower chars in
             existsb (λ pattern, search pattern text_lower) spam_indicators
  end.

(** The generator in [sanitize_input]: characters with [ord(char) >= 32]
    or one of newline, carriage return, tab. *)
Definition printable (c : ascii) : bool :=
  (32 <=? ord c)%N || same "010" c || same "013" c || same "009" c.

(** [s] without its first [>] and everything before it, if it has one. *)
Fixpoint after_gt (s : list ascii) : option (list ascii) :=
  match s with
  | [] => None
  | c :: s' => if same ">" c then Some s' else after_gt s'
  end.

(** The pattern [<[^>]*>] of the tag removal. *)
Definition tag_pattern : re :=
  cats [chr "<"; Star (Cls (λ c, negb (same ">" c))); chr ">"].

(** [re.sub(r'<[^>]*>', '', text)], scanning from the left.  [pending]
    holds, in reverse, the characters read since a [<] not yet closed:
    the leftmost match starting at that [<] ends at the first [>] after
    it, and when no [>] follows, nothing from there on matches. *)
Fixpoint sub_tags (pending : option (list ascii)) (s : list ascii) : list ascii :=
  match s with
  | [] => match pending with Some p => rev p | None => [] end
  | c :: s' =>
      match pending with
      | None => if same "<" c then sub_tags (Some [c]) s' else c :: sub_tags None s'
      | Some p => if same ">" c then sub_tags None s' else sub_tags (Some (c :: p)) s'
      end
  end.

Definition strip_tags (s : list ascii) : list ascii := sub_tags None s.

(** [str.lstrip], [str.rstrip] and [str.strip] without arguments. *)
Fixpoint lstrip (s : list ascii) : list ascii :=
  match s with
  | c :: s' => if isspace c then lstrip s' else s
  | [] => []
  end.

Fixpoint rstrip (s : list ascii) : list ascii :=
  match s with
  | [] => []
  | c :: s' =>
      match rstrip s' with
      | [] => if isspace c then [] else [c]
      | r => c :: r
      end
  end.

Definition strip (s : list ascii) : list ascii := rstrip (lstrip s).

(** The slice [text[:n]]: a negative [n] counts from the end. *)
Definition slice_to (n : Z) (s : list ascii) : list ascii :=
  if decide (0 <= n) then take (Z.to_nat n) s
  else take (length s - Z.to_nat (- n)) s.

(** [sanitize_input(text, max_length)] on the characters of [text]. *)
Definition sanitize_chars (text : list ascii) (max_length : Z) : list ascii :=
  match text with
  | [] => []
  | _ =>
      if check_sql_injection_chars text then []
      else
        let text := List.filter printable text in
        let text := strip_tags text in
        strip (slice_to max_length text)
  end.

Definition sanitize_input (text : string) (max_length : Z) : string :=
  string_of_list_ascii (sanitize_chars (list_ascii_of_string text) max_length).

(** [str.strip] on a [str]. *)
Definition str_strip (text : string) : string :=
  string_of_list_ascii (strip (list_ascii_of_string text)).

End SecurityValidator.

(** ** The SQLite database [activities.db] *)
Module Db.

(** A value stored in a column. *)
Inductive value : Type :=
| Null
| Text (s : string)
| Int (z : Z).

#[global] Instance value_eq_dec : EqDecision value.
Proof. solve_decision. Defined.

(** A row as [cursor.fetchone()] returns it for [SELECT *]: the values in the
    order of the columns of the table. *)
Abbreviation row := (list value).

(** A table read through [SELECT *]: its columns, in order, and its rows. *)
Record table := Table {
  columns : list string;
  rows : list row
}.

(** The rows of [schools], with the columns the program reads or writes.
    The table is created outside the source file. *)
Record school := School {
  s_id : value;
  s_name : value;
  s_description : value;
  s_city : value;
  s_address : value;
  s_phone : value;
  s_email : value;
  s_verified : value;
  s_created_by : value
}.

(** The rows of [activities], likewise. *)
Record activity := Activity {
  a_id : value;
  a_school_id : value;
  a_title : value;
  a_description : value;
  a_category : value;
  a_age_min : value;
  a_age_max : value;
  a_active : value;
  a_verified : value;
  a_created_by : value;
  a_source : value
}.

(** The rows of [user_agency_claims]: [id TEXT PRIMARY KEY],
    [user_id TEXT NOT NULL], [agency_id TEXT NOT NULL], [status TEXT]. *)
Record claim := Claim {
  cl_id : string;
  cl_user_id : string;
  cl_agency_id : string;
  cl_status : string
}.

(** The database.  [submitted_activities] is [None] until the table has been
    created; [user_agency_claims] is created empty by every function that
    uses it, so a missing table and an empty one are not told apart. *)
Record t := Build {
  submitted_activities : option table;
  schools : list school;
  activities : list activity;
  user_agency_claims : list claim
}.

(** Exceptions the handlers can meet. *)
Inductive exn : Type :=
| IndexError          (* tuple index out of range *)
| OperationalError    (* no such table, no such column *)
| IntegrityError      (* UNIQUE constraint failed *)
| AttributeError      (* the object has no such method *)
| ValueError.         (* [json.loads] cannot decode the body *)

(** Position of a column in a table. *)
Fixpoint col_index (name : string) (cols : list string) : option nat :=
  match cols with
  | [] => None
  | c :: cols' =>
      if decide (c = name) then Some O else S <$> col_index name cols'
  end.

(** The value of column [name] in row [r]. *)
Definition field (cols : list string) (name : string) (r : row) : option value :=
  i ← col_index name cols; r !! i.

(** The columns of
    [CREATE TABLE IF NOT EXISTS submitted_activities (...)]. *)
Definition submitted_columns : list string :=
  ["id"; "submitted_by"; "activity_name"; "school_name"; "category"; "city";
   "description"; "status"; "created_at"]%string.

Definition create_submitted_if_not_exists (tb : option table) : table :=
  match tb with
  | Some tb => tb
  | None => Table submitted_columns []
  end.

(** The value a column takes when an [INSERT] does not name it: the declared
    defaults of [status] and [created_at], [NULL] otherwise. *)
Definition default_value (now : Z) (col : string) : value :=
  if decide (col = "status"%string) then Text "pending"
  else if decide (col = "created_at"%string) then Int now
  else Null.

(** [INSERT INTO submitted_activities (c1, ..., cn) VALUES (v1, ..., vn)]:
    every named column has to exist, and [id] is the primary key. *)
Definition insert_submitted (tb : table) (named : list (string * value))
    (now : Z) : exn + table :=
  if decide (Forall (λ cv, cv.1 ∈ columns tb) named) then
    let new_row :=
      map (λ col, match list_find (λ cv, cv.1 = col) named with
                  | Some (_, (_, v)) => v
                  | None => default_value now col
                  end) (columns tb) in
    let id := field (columns tb) "id" new_row in
    if decide (Exists (λ r, field (columns tb) "id" r = id) (rows tb))
    then inl IntegrityError
    else inr (Table (columns tb) (rows tb ++ [new_row]))
  else inl OperationalError.

(** [SELECT * FROM submitted_activities WHERE id = ? AND status = 'pending']
    followed by [fetchone()]. *)
Definition select_pending (tb : table) (submission_id : string) : option row :=
  snd <$> list_find
    (λ r, field (columns tb) "id" r = Some (Text submission_id) ∧
          field (columns tb) "status" r = Some (Text "pending"))
    (rows tb).

(** [UPDATE submitted_activities SET status = ? WHERE id = ?]. *)
Definition update_status (tb : table) (submission_id new_status : string) : table :=
  Table (columns tb)
    (map (λ r,
       if decide (field (columns tb) "id" r = Some (Text submission_id)) then
         match col_index "status" (columns tb) with
         | Some i => <[i := Text new_status]> r
         | None => r
         end
       else r) (rows tb)).

(** [x or ''] on a value read from a row. *)
Definition or_empty (v : value) : value :=
  match v with
  | Null => Text ""
  | Text s => if decide (s = ""%string) then Text "" else v
  | Int z => if decide (z = 0) then Text "" else v
  end.

(** The order of [ORDER BY] on values: [NULL] first, then numbers, then
    text compared byte by byte. *)
Definition value_le (x y : value) : Prop :=
  match x, y with
  | Null, _ => True
  | Int _, Null => False
  | Int a, Int b => a <= b
  | Int _, Text _ => True
  | Text a, Text b => String.leb a b = true
  | Text _, _ => False
  end.

#[global] Instance value_le_dec x y : Decision (value_le x y).
Proof. destruct x, y; simpl; apply _. Defined.

End Db.

(** ** class SkillioHandler *)
Module SkillioHandler.
Import Db SecurityValidator.

(** The dictionary returned by [get_current_user]. *)
Record user := User {
  u_id : string;
  u_email : string;
  u_role : string
}.

(** The texts of the JSON messages, named by what they say. *)
Inductive message : Type :=
| FieldRequired (field : string)
| InappropriateField (field : string)
| InappropriateDescription
| SubmissionReceived
| SaveError (e : exn)
| MissingParameters
| InvalidAction
| SubmissionNotFound
| SubmissionApproved
| SubmissionRejected
| SystemError (e : exn)
| MissingAgencyId
| AgencyNotFound
| AlreadyClaimed
| ClaimSent (agency_name : value)
| ClaimError (e : exn).

(** What is sent back.  [Json code true m] is
    [send_json_response({'success': True, 'message': m}, code)] and
    [Json code false m] is [send_json_response({'error': m}, code)]. *)
Inductive response : Type :=
| Redirect (location : string)      (* 302 *)
| Forbidden                         (* 403, an HTML page *)
| TooManyRequests (retry_after : Z) (* 429 with Retry-After *)
| Json (status_code : Z) (success : bool) (m : message).

(** The global [rate_limiter] and the database. *)
Record world := World {
  limiter : RateLimiter.t;
  db : Db.t
}.

(** [require_role(allowed_roles)]: the user, or the response already sent. *)
Definition require_role (current : option user) (allowed_roles : list string)
    : response + user :=
  match current with
  | None => inl (Redirect "/login")
  | Some u => if decide (u_role u ∈ allowed_roles) then inr u else inl Forbidden
  end.

(** [check_rate_limit(endpoint_name, max_requests, window_seconds)]:
    [None] when the request may proceed. *)
Definition check_rate_limit (l : RateLimiter.t) (client_ip endpoint_name : string)
    (max_requests window_seconds : Z) (now_sweep now : Z)
    : option response * RateLimiter.t :=
  let '(is_limited, _, l') :=
    RateLimiter.is_rate_limited l
      (String.append client_ip (String.append ":" endpoint_name))
      max_requests window_seconds now_sweep now in
  if is_limited then (Some (TooManyRequests window_seconds), l') else (None, l').

(** A value of the decoded JSON body, as far as the handler can tell values
    apart: a string, or a value of another type (null, a boolean, a number,
    an array, an object), of which the code only uses its truth value
    ([if not text]) and the text that [str()] makes of it. *)
Inductive json : Type :=
| JString (s : string)
| JOther (truthy : bool) (rendered : string).

(** The request body: [Malformed] makes [json.loads] raise, [NotObject]
    decodes to a value that has no [get] method. *)
Inductive body : Type :=
| Malformed
| NotObject
| Object (fields : gmap string json).

(** [SecurityValidator.sanitize_input(text, max_length)] on a value that
    need not be a string: [if not text: return ""], then [text = str(text)]. *)
Definition sanitize_json (text : json) (max_length : Z) : string :=
  match text with
  | JString s => sanitize_input s max_length
  | JOther truthy rendered =>
      if truthy then sanitize_input rendered max_length else ""%string
  end.

Definition required_fields : list string :=
  ["activity_name"; "school_name"; "category"; "city"]%string.

(** The loop over [required_fields] in [handle_activity_submission];
    [data.get(field, '').strip()] raises [AttributeError] on a value that is
    not a string, which the handler's [except Exception] answers. *)
Fixpoint sanitize_required (data : gmap string json) (fields : list string)
    (sanitized_data : gmap string string) : response + gmap string string :=
  match fields with
  | [] => inr sanitized_data
  | field :: fields' =>
      match default (JString "") (data !! field) with
      | JOther _ _ => inl (Json 200 false (SaveError AttributeError))
      | JString s =>
          let value := sanitize_input (str_strip s) 200 in
          if decide (value = ""%string) then inl (Json 200 false (FieldRequired field))
          else if detect_spam_patterns value
               then inl (Json 400 false (InappropriateField field))
               else sanitize_required data fields' (<[field := value]> sanitized_data)
      end
  end.

(** [handle_activity_submission]: [current] is what [get_current_user]
    returns, [data] the request body, [activity_id] the fresh uuid.  The
    [Content-Length] header is taken to be present and right. *)
Definition handle_activity_submission (w : world) (current : option user)
    (client_ip : string) (data : body)
    (now_sweep now : Z) (activity_id : string) : response * world :=
  match require_role current ["parent"%string] with
  | inl r => (r, w)
  | inr u =>
      match check_rate_limit (limiter w) client_ip
              (String.append "submit_activity_" (u_id u)) 3 3600 now_sweep now with
      | (Some r, l') => (r, World l' (db w))
      | (None, l') =>
          match data with
          | Malformed => (Json 200 false (SaveError ValueError), World l' (db w))
          | NotObject => (Json 200 false (SaveError AttributeError), World l' (db w))
          | Object data =>
          match sanitize_required data required_fields ∅ with
          | inl r => (r, World l' (db w))
          | inr sanitized_data =>
              let description :=
                sanitize_json (default (JString "") (data !! "description"%string)) 2000 in
              if bool_decide (description ≠ ""%string) && detect_spam_patterns description
              then (Json 400 false InappropriateDescription, World l' (db w))
              else
                let get k := Text (default ""%string (sanitized_data !! k)) in
                let tb := create_submitted_if_not_exists (submitted_activities (db w)) in
                let created :=
                  Db.Build (Some tb) (schools (db w)) (activities (db w))
                    (user_agency_claims (db w)) in
                match insert_submitted tb
                        [("id", Text activity_id); ("submitted_by", Text (u_id u));
                         ("activity_name", get "activity_name");
                         ("school_name", get "school_name");
                         ("category", get "category"); ("city", get "city");
                         ("description", Text description)]%string now with
                | inl e => (Json 200 false (SaveError e), World l' created)
                | inr tb' =>
                    (Json 200 true SubmissionReceived,
                     World l' (Db.Build (Some tb') (schools (db w)) (activities (db w))
                                 (user_agency_claims (db w))))
                end
          end
          end
      end
  end.

(** The [approve] branch of [handle_moderate_submission]: the two INSERTs
    and the UPDATE, or the exception raised on the way. *)
Definition approve (d : Db.t) (tb : table) (submission : row)
    (submission_id : string) (reviewer : user)
    (school_id activity_id : string) : exn + Db.t :=
  match submission !! 3%nat, submission !! 9%nat, submission !! 5%nat with
  | Some name, Some descr, Some city =>
      let new_school :=
        School (Text school_id) name (or_empty descr) city Null Null Null
               (Int 1) (Text (u_id reviewer)) in
      match submission !! 2%nat, submission !! 4%nat with
      | Some title, Some category =>
          let new_activity :=
            Activity (Text activity_id) (Text school_id) title (or_empty descr)
                     category (Int 3) (Int 18) (Int 1) (Int 1)
                     (Text (u_id reviewer)) (Text "parent") in
          inr (Db.Build (Some (update_status tb submission_id "approved"))
                 (schools d ++ [new_school]) (activities d ++ [new_activity])
                 (user_agency_claims d))
      | _, _ => inl IndexError
      end
  | _, _, _ => inl IndexError
  end.

(** [handle_moderate_submission].  Nothing is committed when an exception
    is raised. *)
Definition handle_moderate_submission (d : Db.t) (current : option user)
    (data : gmap string string) (school_id activity_id : string)
    : response * Db.t :=
  match require_role current ["admin"%string] with
  | inl r => (r, d)
  | inr u =>
      let submission_id := default ""%string (data !! "submission_id"%string) in
      let action := default ""%string (data !! "action"%string) in
      if decide (submission_id = "" ∨ action = "")%string
      then (Json 400 false MissingParameters, d)
      else if decide (action ∉ ["approve"; "reject"]%string)
      then (Json 400 false InvalidAction, d)
      else
        match submitted_activities d with
        | None => (Json 500 false (SystemError OperationalError), d)
        | Some tb =>
            match select_pending tb submission_id with
            | None => (Json 404 false SubmissionNotFound, d)
            | Some submission =>
                if decide (action = "approve"%string) then
                  match approve d tb submission submission_id u school_id activity_id with
                  | inl e => (Json 500 false (SystemError e), d)
                  | inr d' => (Json 200 true SubmissionApproved, d')
                  end
                else
                  (Json 200 true SubmissionRejected,
                   Db.Build (Some (update_status tb submission_id "rejected"))
                     (schools d) (activities d) (user_agency_claims d))
            end
        end
  end.

(** The claim of [user_id] on [agency_id] is pending. *)
Definition is_pending (user_id agency_id : string) (c : claim) : Prop :=
  cl_user_id c = user_id ∧ cl_agency_id c = agency_id ∧ cl_status c = "pending"%string.

#[global] Instance is_pending_dec u a c : Decision (is_pending u a c).
Proof. unfold is_pending. apply _. Defined.

(** [handle_agency_claim]; [claim_id] is the fresh uuid. *)
Definition handle_agency_claim (d : Db.t) (current : option user)
    (data : gmap string string) (claim_id : string) : response * Db.t :=
  match require_role current ["school"%string] with
  | inl r => (r, d)
  | inr u =>
      let agency_id := default ""%string (data !! "agency_id"%string) in
      if decide (agency_id = ""%string) then (Json 400 false MissingAgencyId, d)
      else
        match list_find (λ s, s_id s = Text agency_id) (schools d) with
        | None => (Json 404 false AgencyNotFound, d)
        | Some (_, agency) =>
            if decide (Exists (is_pending (u_id u) agency_id) (user_agency_claims d))
            then (Json 400 false AlreadyClaimed, d)
            else if decide (Exists (λ c, cl_id c = claim_id) (user_agency_claims d))
            then (Json 500 false (ClaimError IntegrityError), d)
            else
              (Json 200 true (ClaimSent (s_name agency)),
               Db.Build (submitted_activities d) (schools d) (activities d)
                 (user_agency_claims d ++
                    [Claim claim_id (u_id u) agency_id "pending"]))
        end
  end.

(** The second query of [serve_agency_management_page]:
    [SELECT ... FROM schools WHERE created_by != ? AND id NOT IN
     (SELECT agency_id FROM user_agency_claims WHERE user_id = ?)
     ORDER BY name LIMIT 10].
    A comparison with [NULL] is not true, so a row whose [created_by] or
    [id] is [NULL] is not selected; both columns hold text otherwise. *)
Definition claimable (user_id : string) (claims : list claim) (s : school) : Prop :=
  (∃ o, s_created_by s = Text o ∧ o ≠ user_id) ∧
  (∃ i, s_id s = Text i ∧
        Forall (λ c, cl_user_id c = user_id → cl_agency_id c ≠ i) claims).

#[global] Instance claimable_dec u cs s : Decision (claimable u cs s).
Proof.
  unfold claimable.
  destruct (s_created_by s) as [|o|z], (s_id s) as [|i|z'];
    try (right; intros [[? [? ?]] [? [? ?]]]; discriminate).
  destruct (decide (o ≠ u)) as [Ho|Ho];
    [|right; intros [[? [[= <-] ?]] _]; done].
  destruct (decide (Forall (λ c, cl_user_id c = u → cl_agency_id c ≠ i) cs))
    as [Hf|Hf]; [|right; intros [_ [? [[= <-] ?]]]; done].
  left. split; eauto.
Defined.

(** [ORDER BY name]: the rows in the order of [value_le] on their names,
    rows of equal name staying in table order, which is how SQLite's sorter
    hands them out.  [insert_by_name s l] puts [s] in front of the first row
    of [l] whose name is not below its own. *)
Fixpoint insert_by_name (s : school) (l : list school) : list school :=
  match l with
  | [] => [s]
  | x :: l' =>
      if decide (value_le (s_name s) (s_name x)) then s :: l
      else x :: insert_by_name s l'
  end.

Definition order_by_name (l : list school) : list school :=
  foldr insert_by_name [] l.

Definition available_agencies (d : Db.t) (user_id : string) : list school :=
  take 10 (order_by_name
             (filter (claimable user_id (user_agency_claims d)) (schools d))).

(** The POST requests of [do_POST] that are modelled, with everything the
    handler reads: the current user, the client address, the decoded body,
    the clock readings and the fresh uuids. *)
Inductive request : Type :=
| SubmitActivity (current : option user) (client_ip : string)
    (data : body) (now_sweep now : Z) (activity_id : string)
| ModerateSubmission (current : option user) (data : gmap string string)
    (school_id activity_id : string)
| ClaimAgency (current : option user) (data : gmap string string)
    (claim_id : string).

Definition do_POST (w : world) (req : request) : response * world :=
  match req with
  | SubmitActivity current client_ip data now_sweep now activity_id =>
      handle_activity_submission w current client_ip data now_sweep now activity_id
  | ModerateSubmission current data school_id activity_id =>
      let '(r, d) := handle_moderate_submission (db w) current data school_id activity_id in
      (r, World (limiter w) d)
  | ClaimAgency current data claim_id =>
      let '(r, d) := handle_agency_claim (db w) current data claim_id in
      (r, World (limiter w) d)
  end.

(** The server handling a sequence of requests, one after the other. *)
Fixpoint serve (w : world) (reqs : list request) : list response * world :=
  match reqs with
  | [] => ([], w)
  | req :: reqs' =>
      let '(r, w') := do_POST w req in
      let '(rs, w'') := serve w' reqs' in
      (r :: rs, w'')
  end.

End SkillioHandler.


(* ===================================================================== *)
(** * Part II: properties                                                 *)
(* ===================================================================== *)

Module RateLimiterFacts.
Import RateLimiter.

(** Number of timestamps of [l] strictly above [c]. *)
Definition above (c : Z) (l : list Z) : nat :=
  length (filter (λ ts, ts > c) l).

Lemma above_app c l1 l2 : above c (l1 ++ l2) = (above c l1 + above c l2)%nat.
Proof. unfold above. by rewrite filter_app, length_app. Qed.

Lemma filter_gt_gt (c d : Z) (l : list Z) :
  d <= c → filter (λ ts, ts > c) (filter (λ ts, ts > d) l) = filter (λ ts, ts > c) l.
Proof.
  intros Hdc. induction l as [|x l IH]; [done|].
  rewrite (filter_cons (λ ts, ts > d)), !(filter_cons (λ ts, ts > c)).
  destruct (decide (x > d)) as [Hd|Hd].
  - rewrite filter_cons. destruct (decide (x > c)); by rewrite IH.
  - destruct (decide (x > c)); [lia|done].
Qed.

Lemma above_filter c d l : d <= c → above c (filter (λ ts, ts > d) l) = above c l.
Proof. intros H. unfold above. by rewrite filter_gt_gt. Qed.

Lemma in_window_le_above a w l : (in_window a w l <= above a l)%nat.
Proof.
  unfold in_window, above. induction l as [|x l IH]; [done|].
  rewrite !filter_cons.
  destruct (decide (a < x ∧ x <= a + w)) as [[H1 H2]|Hn];
    destruct (decide (x > a)); simpl; lia.
Qed.

Lemma in_window_app a w l1 l2 :
  in_window a w (l1 ++ l2) = (in_window a w l1 + in_window a w l2)%nat.
Proof. unfold in_window. by rewrite filter_app, length_app. Qed.

(** What the sweep leaves in a bucket. *)
Lemma bucket_cleanup self now ip :
  bucket (cleanup_old_requests self now) ip =
    if decide (now - last_cleanup self > cleanup_interval self)
    then filter (λ ts, ts > now - 3600) (bucket self ip)
    else bucket self ip.
Proof.
  unfold cleanup_old_requests, bucket.
  destruct (decide _) as [H|H]; [|done]. simpl.
  rewrite lookup_omap. destruct (requests self !! ip) as [l|]; simpl; [|done].
  unfold sweep_bucket. by destruct (filter _ l).
Qed.

(** The sweep only removes timestamps. *)
Lemma bucket_cleanup_sublist self now ip :
  sublist (bucket (cleanup_old_requests self now) ip) (bucket self ip).
Proof.
  rewrite bucket_cleanup. destruct (decide _); [apply sublist_filter | done].
Qed.

Lemma above_cleanup self now ip c :
  now - 3600 <= c →
  above c (bucket (cleanup_old_requests self now) ip) = above c (bucket self ip).
Proof.
  intros H. rewrite bucket_cleanup. destruct (decide _); [|done].
  by apply above_filter.
Qed.

(** The buckets after one call, in terms of the buckets after the sweep. *)
Lemma bucket_is_rate_limited self ip m w ts now k :
  let swept := cleanup_old_requests self ts in
  let recent := filter (λ x, x > now - w) (bucket swept ip) in
  let '(limited, _, self') := is_rate_limited self ip m w ts now in
  bucket self' k =
    if decide (k = ip ∧ limited = false) then recent ++ [now] else bucket swept k.
Proof.
  intros swept recent. unfold is_rate_limited.
  fold swept. subst recent. unfold bucket.
  destruct (requests swept !! ip) as [l|] eqn:Hl; simpl.
  - rewrite Hl. simpl. destruct (decide (_ >= m)); simpl.
    + destruct (decide _) as [[_ ?]|]; done.
    + destruct (decide _) as [[-> _]|Hn].
      * by rewrite lookup_insert_eq.
      * rewrite lookup_insert_ne; [done|]. intros ->. by apply Hn.
  - rewrite lookup_insert_eq. simpl. destruct (decide (_ >= m)); simpl.
    + destruct (decide _) as [[_ ?]|]; [done|].
      destruct (decide (k = ip)) as [->|Hne].
      * by rewrite lookup_insert_eq, Hl.
      * by rewrite lookup_insert_ne.
    + destruct (decide _) as [[-> _]|Hn].
      * by rewrite lookup_insert_eq.
      * rewrite !lookup_insert_ne; [done| |]; intros ->; by apply Hn.
Qed.

(** The pair returned by one call, in terms of the bucket after the sweep. *)
Lemma is_rate_limited_result self ip m w ts now :
  let swept := cleanup_old_requests self ts in
  let n := Z.of_nat (length (filter (λ x, x > now - w) (bucket swept ip))) in
  (is_rate_limited self ip m w ts now).1 =
    if decide (n >= m) then (true, m - n) else (false, m - n - 1).
Proof.
  intros swept n. subst n. unfold is_rate_limited. fold swept. unfold bucket.
  destruct (requests swept !! ip) as [l|] eqn:Hl; simpl.
  - rewrite Hl. simpl. by destruct (decide _).
  - rewrite lookup_insert_eq. simpl. by destruct (decide _).
Qed.

Section SlidingWindow.
(** One key [k] whose calls all carry the budget [m] per [w] seconds,
    with [w] at most the sweep's retention horizon of one hour. *)
Variables (k : string) (m w : Z).
Hypothesis w_le_hour : w <= 3600.

Definition params_ok (c : call) : Prop :=
  c_ip c = k → c_max c = m ∧ c_window c = w.

(** [L] lists the instants let through for [k] so far, [T] is the last
    clock reading: the bucket of [k] still holds every instant of [L]
    that a later call can see, and no window of [L] is over budget. *)
Definition inv (T : Z) (self : t) (L : list Z) : Prop :=
  (∀ c, T - w <= c → (above c L <= above c (bucket self k))%nat) ∧
  (∀ a, Z.of_nat (in_window a w L) <= Z.max 0 m).

Lemma inv_step T self L c :
  inv T self L → params_ok c → T <= c_sweep c → c_sweep c <= c_now c →
  let '(limited, _, self') := step self c in
  inv (c_now c) self'
    (L ++ if decide (c_ip c = k ∧ limited = false) then [c_now c] else []).
Proof.
  intros [Hab Hwin] Hp HT Hts. unfold step.
  pose proof (bucket_is_rate_limited self (c_ip c) (c_max c) (c_window c)
                (c_sweep c) (c_now c) k) as Hb.
  pose proof (is_rate_limited_result self (c_ip c) (c_max c) (c_window c)
                (c_sweep c) (c_now c)) as Hr.
  destruct (is_rate_limited _ _ _ _ _ _) as [[limited rem] self'].
  simpl in Hb, Hr.
  destruct (decide (c_ip c = k ∧ limited = false)) as [[Hk Hl]|Hn].
  - destruct (Hp Hk) as [Hm Hw]. rewrite Hk, Hm, Hw in *. clear Hk Hm Hw Hp.
    rewrite decide_True in Hb by done.
    set (swept := cleanup_old_requests self (c_sweep c)) in *.
    set (recent := filter (λ x, x > c_now c - w) (bucket swept k)) in *.
    destruct (decide (Z.of_nat (length recent) >= m)) as [?|Hlt];
      [congruence|]. clear Hr.
    split.
    + intros c0 Hc0. rewrite Hb, !above_app.
      assert (above c0 recent = above c0 (bucket swept k)) as ->
        by (apply above_filter; lia).
      unfold swept. rewrite above_cleanup by lia.
      specialize (Hab c0). lia.
    + intros a. rewrite in_window_app.
      destruct (decide (a < c_now c ∧ c_now c <= a + w)) as [Hin|Hout].
      * assert (in_window a w [c_now c] = 1%nat) as ->.
        { unfold in_window. rewrite filter_cons, decide_True by done. done. }
        pose proof (in_window_le_above a w L).
        specialize (Hab a ltac:(lia)).
        assert (above a (bucket self k) = above a recent) as Heq.
        { unfold recent. rewrite above_filter by lia.
          unfold swept. rewrite above_cleanup by lia. done. }
        assert (above a recent <= length recent)%nat
          by (unfold above; apply length_filter).
        lia.
      * assert (in_window a w [c_now c] = 0%nat) as ->.
        { unfold in_window. rewrite filter_cons, decide_False by done. done. }
        specialize (Hwin a). lia.
  - rewrite decide_False in Hb by (intros [-> ?]; by apply Hn). rewrite app_nil_r. split; [|exact Hwin].
    intros c0 Hc0. rewrite Hb, above_cleanup by lia. apply Hab. lia.
Qed.

Lemma inv_run cs : ∀ T self L,
  inv T self L → Forall params_ok cs → monotone T cs →
  ∀ a, Z.of_nat (in_window a w (L ++ granted k (run self cs).1)) <= Z.max 0 m.
Proof.
  induction cs as [|c cs IH]; intros T self L HI Hp Hmono a.
  - simpl. rewrite app_nil_r. apply HI.
  - apply Forall_cons in Hp as [Hc Hp]. destruct Hmono as (HT & Hts & Hmono).
    pose proof (inv_step T self L c HI Hc HT Hts) as Hstep.
    simpl. destruct (step self c) as [[limited rem] self'].
    specialize (IH _ _ _ Hstep Hp Hmono a).
    destruct (run self' cs) as [log self'']. simpl in *.
    destruct (decide (c_ip c = k ∧ limited = false)).
    + by rewrite <- app_assoc in IH.
    + by rewrite app_nil_r in IH.
Qed.

Lemma inv_init t0 : inv t0 (init t0) [].
Proof.
  split; [intros c _; unfold above; simpl; lia|].
  intros a. unfold in_window. simpl. lia.
Qed.
End SlidingWindow.

(** C1 (as amended).  On a limiter created at [t0] and driven by any
    sequence of calls whose clock readings never decrease, if every call
    for key [k] carries the same budget of [m] requests per [w] seconds and
    [w] is at most 3600 (the retention horizon of the periodic sweep), then
    no half-open interval [(a, a + w]] contains the instants of more than
    [m] calls let through for [k] (none at all when [m <= 0]).  Calls for
    other keys may carry any parameters, and the sweep may run at any of
    the calls. *)
Theorem sliding_window_within_hour (k : string) (m w t0 : Z) (cs : list call) (a : Z) :
  w <= 3600 → Forall (params_ok k m w) cs → monotone t0 cs →
  Z.of_nat (in_window a w (granted k (run (init t0) cs).1)) <= Z.max 0 m.
Proof.
  intros Hw Hp Hmono.
  apply (inv_run k m w Hw cs t0 (init t0) [] (inv_init k m w t0) Hp Hmono a).
Qed.

Lemma sliding_window_within_hour_witness :
  let cs := [Call "10.0.0.1:login" 1 900 10 10; Call "10.0.0.1:login" 1 900 20 21;
             Call "10.0.0.2:register" 5 900 30 30; Call "10.0.0.1:login" 1 900 910 911] in
  900 <= 3600 ∧ Forall (params_ok "10.0.0.1:login" 1 900) cs ∧ monotone 0 cs ∧
  Z.of_nat (in_window 10 900 (granted "10.0.0.1:login" (run (init 0) cs).1)) <= Z.max 0 1.
Proof.
  intros cs.
  assert (H1 : 900 <= 3600) by lia.
  assert (H2 : Forall (params_ok "10.0.0.1:login" 1 900) cs).
  { subst cs.
    repeat (apply Forall_cons; split;
            [unfold params_ok; simpl; intros ?; by simplify_eq|]).
    by apply Forall_nil. }
  assert (H3 : monotone 0 cs) by (subst cs; simpl; lia).
  exact (conj H1 (conj H2 (conj H3
           (sliding_window_within_hour "10.0.0.1:login" 1 900 0 cs 10 H1 H2 H3)))).
Defined.

(** Number of instants of [l] in the closed interval [[a, a + w]]. *)
Definition in_closed_window (a w : Z) (l : list Z) : nat :=
  length (filter (λ ts, a <= ts ∧ ts <= a + w) l).

(** C1 as stated fails for a window longer than the sweep's horizon: with a
    budget of 1 request per 7200 seconds, the call at instant 0 and the call
    at instant 4000 are both let through, because the sweep run by the
    second call has deleted the first timestamp.  It also fails when the
    rolling interval is taken with both of its ends: with a budget of 1
    request per 10 seconds the calls at instants 0 and 10 are both let
    through, since a timestamp that is exactly [window_seconds] old no longer
    counts. *)
Lemma sliding_window_over_hour_fails :
  (let cs := [Call "k" 1 7200 0 0; Call "k" 1 7200 4000 4000] in
   Forall (params_ok "k" 1 7200) cs ∧ monotone 0 cs ∧
   granted "k" (run (init 0) cs).1 = [0; 4000] ∧
   ¬ (Z.of_nat (in_window (-1) 7200 (granted "k" (run (init 0) cs).1)) <= 1)) ∧
  (let cs := [Call "k" 1 10 0 0; Call "k" 1 10 10 10] in
   Forall (params_ok "k" 1 10) cs ∧ monotone 0 cs ∧
   granted "k" (run (init 0) cs).1 = [0; 10] ∧
   ¬ (Z.of_nat (in_closed_window 0 10 (granted "k" (run (init 0) cs).1)) <= 1)).
Proof.
  split; intros cs; (split; [|split; [|split]]).
  1, 5: subst cs;
    repeat (apply Forall_cons; split;
            [unfold params_ok; simpl; intros ?; by simplify_eq|]);
    by apply Forall_nil.
  1, 4: subst cs; simpl; lia.
  1, 3: by vm_compute.
  all: vm_compute; intros H; by apply H.
Qed.

(** C4 (as amended).  One call [is_rate_limited(ip, m, w)] first runs the
    time-triggered sweep; of the bucket of [ip] left by the sweep, exactly
    the timestamps strictly above [now - w] survive (so every timestamp
    older than [now - w] is dropped).  If the surviving count [n] is at
    least [m], the call denies, reports [m - n] (which is never positive,
    and is [max(0, m - n)] exactly when [n = m]) and leaves the bucket as
    the sweep left it; otherwise it lets the request through, reports
    [m - n - 1], and the bucket becomes the survivors followed by [now]. *)
Theorem is_rate_limited_contract (self : t) (ip : string) (m w ts now : Z) :
  let swept := cleanup_old_requests self ts in
  let surviving := filter (λ x, x > now - w) (bucket swept ip) in
  let n := Z.of_nat (length surviving) in
  let '(limited, remaining, self') := is_rate_limited self ip m w ts now in
  (∀ x, x ∈ surviving ↔ x ∈ bucket swept ip ∧ x > now - w) ∧
  (n >= m →
     limited = true ∧ remaining = m - n ∧ remaining <= 0 ∧
     (remaining = Z.max 0 (m - n) ↔ n = m) ∧
     bucket self' ip = bucket swept ip) ∧
  (n < m →
     limited = false ∧ remaining = m - n - 1 ∧
     bucket self' ip = surviving ++ [now]).
Proof.
  intros swept surviving n.
  pose proof (bucket_is_rate_limited self ip m w ts now ip) as Hb.
  pose proof (is_rate_limited_result self ip m w ts now) as Hr.
  destruct (is_rate_limited self ip m w ts now) as [[limited remaining] self'].
  simpl in Hb, Hr. fold swept in Hb, Hr. fold surviving in Hb, Hr. fold n in Hr.
  split; [|split].
  - intros x. unfold surviving. rewrite list_elem_of_filter. tauto.
  - intros Hge. rewrite decide_True in Hr by done.
    injection Hr as -> ->. rewrite decide_False in Hb by (intros [_ ?]; done).
    repeat split; try done; lia.
  - intros Hlt. rewrite decide_False in Hr by lia.
    injection Hr as -> ->. rewrite decide_True in Hb by done. done.
Qed.

(** C4 as stated fails when a bucket holds more surviving timestamps than
    the budget of the call: two requests let through under a budget of 2,
    then a call with a budget of 1 on the same key is denied with
    remaining = -1, where the claim says max(0, 1 - 2) = 0. *)
Lemma remaining_not_clamped :
  let self := (run (init 0) [Call "k" 2 100 1 1; Call "k" 2 100 2 2]).2 in
  bucket self "k" = [1; 2] ∧
  (is_rate_limited self "k" 1 100 3 3).1 = (true, -1) ∧
  (is_rate_limited self "k" 1 100 3 3).1 ≠ (true, Z.max 0 (1 - 2)).
Proof. by vm_compute. Qed.

(** The dictionary after a denied call: the one the sweep left, except that
    the key of the call, if it had no bucket, now has an empty one. *)
Lemma denied_call_requests (self : t) (ip : string) (m w ts now : Z) :
  (is_rate_limited self ip m w ts now).1.1 = true →
  let swept := cleanup_old_requests self ts in
  let self' := (is_rate_limited self ip m w ts now).2 in
  last_cleanup self' = last_cleanup swept ∧
  cleanup_interval self' = cleanup_interval swept ∧
  (requests swept !! ip ≠ None → requests self' = requests swept) ∧
  (requests swept !! ip = None →
   m <= 0 ∧ requests self' = <[ip := []]> (requests swept)).
Proof.
  intros Hden swept self'. subst self'. unfold is_rate_limited in *.
  fold swept in Hden |- *.
  destruct (requests swept !! ip) as [l|] eqn:Hl.
  - rewrite Hl in *. simpl in *.
    destruct (decide _); simpl in *; [|done]. by split_and!.
  - rewrite lookup_insert_eq in *. simpl in *.
    destruct (decide _); simpl in *; [|done].
    split; [done|]. split; [done|]. split; [done|]. intros _. split; [lia | done].
Qed.

(** C10 (as amended).  A call of [is_rate_limited] that denies the request
    appends no timestamp to any bucket: every bucket holds exactly what the
    time-triggered sweep left of it, hence a subsequence of what it held
    before the call, and the instant of the denied call is not recorded.
    Besides the sweep, the call changes the dictionary in one case only: a
    key that has no bucket gets an empty one, which takes a budget
    [m <= 0]; with a budget of at least 1 the dictionary is exactly the one
    the sweep left.  Either way every later call is answered as if, of the
    denied call, only the sweep had happened: denied calls do not extend
    the denial. *)
Theorem denied_call_records_nothing (self : t) (ip : string) (m w ts now : Z) :
  (is_rate_limited self ip m w ts now).1.1 = true →
  let swept := cleanup_old_requests self ts in
  let self' := (is_rate_limited self ip m w ts now).2 in
  (∀ k, bucket self' k = bucket swept k ∧ sublist (bucket self' k) (bucket self k)) ∧
  last_cleanup self' = last_cleanup swept ∧
  cleanup_interval self' = cleanup_interval swept ∧
  (1 <= m ∨ requests swept !! ip ≠ None → requests self' = requests swept) ∧
  (requests swept !! ip = None →
   m <= 0 ∧ requests self' = <[ip := []]> (requests swept)) ∧
  (∀ ip' m' w' ts' now',
     (is_rate_limited self' ip' m' w' ts' now').1
       = (is_rate_limited swept ip' m' w' ts' now').1).
Proof.
  intros Hden swept self'.
  destruct (denied_call_requests self ip m w ts now Hden) as (Hlast & Hint & Hsome & Hnone).
  fold swept in Hlast, Hint, Hsome, Hnone. fold self' in Hlast, Hint, Hsome, Hnone.
  assert (Hbuckets : ∀ k, bucket self' k = bucket swept k).
  { intros k. subst swept self'.
    pose proof (bucket_is_rate_limited self ip m w ts now k) as Hb.
    destruct (is_rate_limited self ip m w ts now) as [[limited remaining] self'].
    simpl in *. subst limited.
    by rewrite decide_False in Hb by (intros [_ ?]; done). }
  split_and!; try done.
  - intros k. split; [done|]. rewrite Hbuckets. apply bucket_cleanup_sublist.
  - intros [Hm|Hin]; [|by apply Hsome].
    destruct (requests swept !! ip) eqn:Hl; [by apply Hsome|].
    destruct (Hnone eq_refl). lia.
  - intros ip' m' w' ts' now'. rewrite !is_rate_limited_result, !bucket_cleanup.
    by rewrite Hlast, Hint, Hbuckets.
Qed.

Lemma denied_call_records_nothing_witness :
  let self := (is_rate_limited (init 0) "k" 1 10 1 1).2 in
  (is_rate_limited self "k" 1 10 2 2).1.1 = true ∧
  let swept := cleanup_old_requests self 2 in
  let self' := (is_rate_limited self "k" 1 10 2 2).2 in
  bucket self "k" = [1] ∧ bucket self' "k" = [1] ∧
  requests self' = requests swept.
Proof.
  intros self.
  assert (H : (is_rate_limited self "k" 1 10 2 2).1.1 = true) by (by vm_compute).
  split; [exact H|]. intros swept self'.
  split; [by vm_compute|]. split; [by vm_compute|].
  destruct (denied_call_records_nothing self "k" 1 10 2 2 H) as (_ & _ & _ & Heq & _).
  apply Heq. left. lia.
Defined.

(** C10 as stated fails: on a new limiter, a call with a budget of 0 for a
    key never seen is denied; the sweep is not due and removes nothing, and
    yet the dictionary has changed: the key now has an empty bucket. *)
Lemma denied_call_creates_bucket :
  let self := init 0 in
  let self' := (is_rate_limited self "k" 0 300 1 1).2 in
  (is_rate_limited self "k" 0 300 1 1).1 = (true, 0) ∧
  cleanup_old_requests self 1 = self ∧
  requests self !! "k"%string = None ∧
  requests self' !! "k"%string = Some [] ∧
  requests self' ≠ requests (cleanup_old_requests self 1).
Proof.
  intros self self'. split_and!; by vm_compute.
Qed.

End RateLimiterFacts.

Module CSRFProtectionFacts.
Import CSRFProtection.

(** C3 (as amended).  For every principal with a non-empty id and every
    state of the token store: the token returned by [generate_token] (a
    64-character SHA-256 hex digest) is accepted by a first
    [validate_token] made no more than 3600 seconds after it was issued,
    which removes it from the store, and a second [validate_token] with
    the same value is refused, whenever it is made. *)
Theorem token_single_use (tokens : store) (p digest : string) (t0 t1 t2 : Z) :
  p ≠ ""%string → String.length digest = 64%nat → t1 - t0 <= 3600 →
  let '(tok, s1) := generate_token tokens p digest t0 in
  let '(r1, s2) := validate_token s1 p tok t1 in
  let '(r2, s3) := validate_token s2 p tok t2 in
  r1 = true ∧ holds s2 p tok = false ∧ r2 = false ∧ s3 = s2.
Proof.
  intros Hp Hlen Hage.
  assert (Hd : digest ≠ ""%string) by (intros ->; discriminate Hlen).
  unfold generate_token.
  set (s0 := match tokens !! p with
             | Some d => <[p := filter (λ kv, t0 - kv.2 < 3600) d]> tokens
             | None => <[p := ∅]> tokens
             end).
  set (d := default ∅ (s0 !! p)).
  cbv beta iota zeta.
  assert (Hv1 : validate_token (<[p := <[digest := t0]> d]> s0) p digest t1
                = (true, <[p := delete digest (<[digest := t0]> d)]>
                           (<[p := <[digest := t0]> d]> s0))).
  { unfold validate_token.
    rewrite decide_False by (intros [?|?]; done).
    rewrite !lookup_insert_eq. by rewrite decide_False by lia. }
  rewrite Hv1. cbv beta iota zeta.
  set (s2 := <[p := delete digest (<[digest := t0]> d)]> _).
  assert (Hv2 : validate_token s2 p digest t2 = (false, s2)).
  { unfold validate_token.
    rewrite decide_False by (intros [?|?]; done).
    unfold s2. by rewrite lookup_insert_eq, lookup_delete_eq. }
  rewrite Hv2. cbv beta iota zeta.
  repeat split; try done.
  unfold holds, s2. rewrite lookup_insert_eq, lookup_delete_eq.
  apply bool_decide_eq_false. by intros [? ?].
Qed.

Lemma token_single_use_witness :
  let digest :=
    "9f86d081884c7d659a2feaa0c55ad015a3bf4f1b2b0b822cd15d6c15b0f00a08"%string in
  "user-1"%string ≠ ""%string ∧ String.length digest = 64%nat ∧ 100 - 0 <= 3600 ∧
  let '(tok, s1) := generate_token ∅ "user-1" digest 0 in
  let '(r1, s2) := validate_token s1 "user-1" tok 100 in
  let '(r2, s3) := validate_token s2 "user-1" tok 200 in
  r1 = true ∧ holds s2 "user-1" tok = false ∧ r2 = false ∧ s3 = s2.
Proof.
  intros digest.
  assert (H1 : "user-1"%string ≠ ""%string) by done.
  assert (H2 : String.length digest = 64%nat) by reflexivity.
  assert (H3 : 100 - 0 <= 3600) by lia.
  exact (conj H1 (conj H2 (conj H3
           (token_single_use ∅ "user-1" digest 0 100 200 H1 H2 H3)))).
Defined.

(** C3 as stated fails for a principal whose id is the empty string:
    [generate_token] issues a token for it, and the guard at the top of
    [validate_token] refuses that token at once. *)
Lemma empty_principal_refused :
  let digest :=
    "9f86d081884c7d659a2feaa0c55ad015a3bf4f1b2b0b822cd15d6c15b0f00a08"%string in
  let '(tok, s1) := generate_token ∅ "" digest 0 in
  holds s1 "" tok = true ∧ (validate_token s1 "" tok 1).1 = false.
Proof. by vm_compute. Qed.

End CSRFProtectionFacts.

Module SecurityValidatorFacts.
Import Re SecurityValidator.

(** *** Tag stripping *)

Lemma same_true d c : same d c = true ↔ c = d.
Proof. unfold same. apply Ascii.eqb_eq. Qed.

Lemma sub_tags_pending p s :
  sub_tags (Some p) s =
    match after_gt s with
    | Some rest => sub_tags None rest
    | None => rev p ++ s
    end.
Proof.
  revert p. induction s as [|c s IH]; intros p; simpl.
  - by rewrite app_nil_r.
  - destruct (same ">" c); [done|].
    rewrite IH. destruct (after_gt s); [done|].
    simpl. by rewrite <- app_assoc.
Qed.

Lemma strip_tags_cons c s :
  strip_tags (c :: s) =
    if same "<" c then
      match after_gt s with
      | Some rest => strip_tags rest
      | None => c :: s
      end
    else c :: strip_tags s.
Proof.
  unfold strip_tags. simpl. destruct (same "<" c); [|done].
  by rewrite sub_tags_pending.
Qed.

Lemma after_gt_suffix s rest :
  after_gt s = Some rest → sublist rest s ∧ (length rest < length s)%nat.
Proof.
  revert rest. induction s as [|c s IH]; intros rest H; simpl in *; [done|].
  destruct (same ">" c).
  - injection H as ->. split; [by apply sublist_cons | lia].
  - destruct (IH _ H). split; [by apply sublist_cons | lia].
Qed.

Lemma after_gt_sublist l1 l2 :
  sublist l1 l2 → after_gt l2 = None → after_gt l1 = None.
Proof.
  induction 1 as [|x l1 l2 _ IH|x l1 l2 _ IH]; simpl; [done| |];
    destruct (same ">" x); try done; auto.
Qed.

(** No [<] of [l] is followed, anywhere later, by a [>]. *)
Fixpoint notag (l : list ascii) : Prop :=
  match l with
  | [] => True
  | c :: l' => (same "<" c = true → after_gt l' = None) ∧ notag l'
  end.

Lemma notag_sublist l1 l2 : sublist l1 l2 → notag l2 → notag l1.
Proof.
  induction 1 as [|x l1 l2 Hs IH|x l1 l2 Hs IH]; simpl; [done| |].
  - intros [H1 H2]. split; [|auto].
    intros Hx. eapply after_gt_sublist; eauto.
  - intros [_ H2]. auto.
Qed.

Lemma notag_no_gt l : after_gt l = None → notag l.
Proof.
  induction l as [|c l IH]; simpl; [done|].
  destruct (same ">" c); [done|]. auto.
Qed.

Lemma strip_tags_spec n : ∀ s, (length s <= n)%nat →
  notag (strip_tags s) ∧ sublist (strip_tags s) s.
Proof.
  induction n as [|n IH]; intros [|c s] Hlen; simpl in Hlen; try done; try lia.
  rewrite strip_tags_cons. destruct (same "<" c) eqn:Hc.
  - destruct (after_gt s) as [rest|] eqn:Hgt.
    + apply after_gt_suffix in Hgt as [Hsub Hlt].
      destruct (IH rest ltac:(lia)) as [H1 H2]. split; [done|].
      apply sublist_cons. by etrans.
    + split; [|done]. simpl. split; [done|]. by apply notag_no_gt.
  - destruct (IH s ltac:(lia)) as [H1 H2]. split.
    + simpl. split; [by rewrite Hc|done].
    + by apply sublist_skip.
Qed.

Lemma notag_strip_tags s : notag (strip_tags s).
Proof. by apply (strip_tags_spec (length s)). Qed.

Lemma strip_tags_sublist s : sublist (strip_tags s) s.
Proof. by apply (strip_tags_spec (length s)). Qed.

Lemma strip_tags_notag s : notag s → strip_tags s = s.
Proof.
  induction s as [|c s IH]; [done|]. simpl. intros [H1 H2].
  rewrite strip_tags_cons. destruct (same "<" c).
  - by rewrite H1.
  - by rewrite IH.
Qed.

(** One more round of [p*] on a character class. *)
Lemma matches_star_cls p prev s k :
  matches (Star (Cls p)) prev s k =
    k prev s ||
    match s with
    | c :: s' => p c && matches (Star (Cls p)) (Some c) s' k
    | [] => false
    end.
Proof.
  destruct s as [|c s]; simpl; [done|].
  by rewrite (proj2 (Nat.ltb_lt (length s) (S (length s))) ltac:(lia)).
Qed.

Lemma matches_upto_gt prev s k :
  matches (Star (Cls (λ c, negb (same ">" c)))) prev s
    (λ prev' s', matches (chr ">") prev' s' k) =
    match after_gt s with
    | Some rest => k (Some ">"%char) rest
    | None => false
    end.
Proof.
  revert prev. induction s as [|c s IH]; intros prev;
    rewrite matches_star_cls; [done|].
  rewrite (IH (Some c)). cbn [matches chr after_gt].
  destruct (same ">" c) eqn:Hc; simpl.
  - apply same_true in Hc as ->. by rewrite orb_false_r.
  - done.
Qed.

(** Where [<[^>]*>] matches: at a [<] that has a [>] somewhere after it,
    and the match then ends at the first such [>].  This is the match that
    [strip_tags] removes (see [strip_tags_cons]). *)
Lemma matches_tag_pattern prev s k :
  matches tag_pattern prev s k =
    match s with
    | c :: s' =>
        same "<" c &&
        match after_gt s' with
        | Some rest => k (Some ">"%char) rest
        | None => false
        end
    | [] => false
    end.
Proof.
  destruct s as [|c s]; [done|].
  unfold tag_pattern, cats. cbn [fold_right].
  change (matches (Cat (chr "<") ?r) prev (c :: s) k)
    with (same "<" c && matches r (Some c) s k).
  f_equal. exact (matches_upto_gt (Some c) s k).
Qed.

Lemma search_from_cons r prev c s :
  search_from r prev (c :: s) =
    matches r prev (c :: s) (λ _ _, true) || search_from r (Some c) s.
Proof. done. Qed.

(** What [strip_tags] returns has no match of the pattern left. *)
Lemma search_from_notag s : ∀ prev, notag s → search_from tag_pattern prev s = false.
Proof.
  induction s as [|c s IH]; intros prev Hn; [done|].
  destruct Hn as [H1 H2].
  rewrite search_from_cons, matches_tag_pattern, IH by done.
  destruct (same "<" c); [by rewrite H1|done].
Qed.

Lemma search_strip_tags s : search tag_pattern (strip_tags s) = false.
Proof. apply search_from_notag, notag_strip_tags. Qed.

(** *** Stripping white space *)

Lemma lstrip_sublist s : sublist (lstrip s) s.
Proof.
  induction s as [|c s IH]; simpl; [done|].
  destruct (isspace c); [by apply sublist_cons | done].
Qed.

Lemma rstrip_sublist s : sublist (rstrip s) s.
Proof.
  induction s as [|c s IH]; simpl; [done|].
  destruct (rstrip s) as [|d r].
  - destruct (isspace c); [apply sublist_nil_l|].
    apply sublist_skip, sublist_nil_l.
  - by apply sublist_skip.
Qed.

Lemma rstrip_rstrip s : rstrip (rstrip s) = rstrip s.
Proof.
  induction s as [|c s IH]; simpl; [done|].
  destruct (rstrip s) as [|d r] eqn:Hr.
  - destruct (isspace c) eqn:Hc; simpl; [done|]. by rewrite Hc.
  - change (rstrip (c :: d :: r)) with
      (match rstrip (d :: r) with
       | [] => if isspace c then [] else [c]
       | r' => c :: r'
       end).
    by rewrite IH.
Qed.

(** A text that does not start with white space. *)
Definition lstripped (s : list ascii) : Prop :=
  match s with
  | c :: _ => isspace c = false
  | [] => True
  end.

Lemma lstrip_lstripped s : lstripped (lstrip s).
Proof.
  induction s as [|c s IH]; simpl; [done|].
  destruct (isspace c) eqn:Hc; [done|]. simpl. done.
Qed.

Lemma lstripped_lstrip s : lstripped s → lstrip s = s.
Proof. destruct s as [|c s]; simpl; [done|]. by intros ->. Qed.

Lemma rstrip_lstripped s : lstripped s → lstripped (rstrip s).
Proof.
  destruct s as [|c s]; simpl; [done|]. intros Hc.
  destruct (rstrip s); [by rewrite Hc|done].
Qed.

Lemma strip_strip s : strip (strip s) = strip s.
Proof.
  unfold strip.
  rewrite (lstripped_lstrip (rstrip (lstrip s)))
    by apply rstrip_lstripped, lstrip_lstripped.
  apply rstrip_rstrip.
Qed.

Lemma strip_sublist s : sublist (strip s) s.
Proof. unfold strip. etrans; [apply rstrip_sublist | apply lstrip_sublist]. Qed.

(** *** Slicing and the character filter *)

Lemma slice_to_sublist n s : sublist (slice_to n s) s.
Proof. unfold slice_to. destruct (decide _); apply sublist_take. Qed.

Lemma slice_to_length n s : 0 <= n → (length (slice_to n s) <= Z.to_nat n)%nat.
Proof.
  intros Hn. unfold slice_to. rewrite decide_True by done.
  rewrite length_take. lia.
Qed.

Lemma slice_to_short n s : 0 <= n → (length s <= Z.to_nat n)%nat → slice_to n s = s.
Proof.
  intros Hn Hs. unfold slice_to. rewrite decide_True by done. by apply take_ge.
Qed.

Lemma filter_printable_id s :
  Forall (λ c, printable c = true) s → List.filter printable s = s.
Proof.
  induction 1 as [|c s Hc _ IH]; simpl; [done|]. by rewrite Hc, IH.
Qed.

Lemma filter_printable_Forall s :
  Forall (λ c, printable c = true) (List.filter printable s).
Proof.
  induction s as [|c s IH]; simpl; [done|].
  destruct (printable c) eqn:Hc; [by constructor | done].
Qed.

Lemma Forall_of_sublist {A} (P : A → Prop) (l1 l2 : list A) :
  sublist l1 l2 → Forall P l2 → Forall P l1.
Proof.
  induction 1 as [|x l1 l2 _ IH|x l1 l2 _ IH]; [done| |];
    intros [? ?]%Forall_cons; [constructor|]; auto.
Qed.

(** *** Cleaning is idempotent on text it has cleaned *)

(** The text left by the cleaning steps of [sanitize_input]: only
    printable characters, no tag, at most [n] characters, no white space
    at either end. *)
Record clean (n : Z) (y : list ascii) : Prop := {
  clean_printable : Forall (λ c, printable c = true) y;
  clean_notag : notag y;
  clean_length : (length y <= Z.to_nat n)%nat;
  clean_strip : strip y = y
}.

Lemma clean_steps n s :
  0 <= n → clean n (strip (slice_to n (strip_tags (List.filter printable s)))).
Proof.
  intros Hn.
  set (z0 := List.filter printable s). set (z1 := strip_tags z0).
  set (z2 := slice_to n z1).
  assert (sublist (strip z2) z2) as H32 by apply strip_sublist.
  assert (sublist z2 z1) as H21 by apply slice_to_sublist.
  assert (sublist z1 z0) as H10 by apply strip_tags_sublist.
  split.
  - eapply Forall_of_sublist; [|apply (filter_printable_Forall s)].
    fold z0. etrans; [exact H32|]. by etrans.
  - eapply notag_sublist; [|apply (notag_strip_tags z0)].
    fold z1. by etrans.
  - apply sublist_length in H32. pose proof (slice_to_length n z1 Hn).
    fold z2 in H. lia.
  - apply strip_strip.
Qed.

Lemma sanitize_chars_clean n y :
  0 <= n → clean n y → check_sql_injection_chars y = false →
  sanitize_chars y n = y.
Proof.
  intros Hn [H1 H2 H3 H4] Hc. unfold sanitize_chars.
  destruct y as [|c y]; [done|]. rewrite Hc.
  rewrite filter_printable_id by done.
  rewrite strip_tags_notag by done.
  rewrite slice_to_short by done. done.
Qed.

Lemma sanitize_chars_idempotent s n :
  0 <= n → check_sql_injection_chars (sanitize_chars s n) = false →
  sanitize_chars (sanitize_chars s n) n = sanitize_chars s n.
Proof.
  intros Hn Hc. unfold sanitize_chars at 2 3.
  unfold sanitize_chars at 1 in Hc.
  destruct s as [|c s]; [done|].
  destruct (check_sql_injection_chars (c :: s)); [done|].
  apply sanitize_chars_clean; [done| |done]. by apply clean_steps.
Qed.

(** C5.  The code does not do what the claim says: none of the six
    patterns of [check_sql_injection] matches the lower-cased text
    [' or '1'='1], so the function returns [False] for the classic
    tautology; for the harmless sentence it returns [False], as claimed. *)
Theorem check_sql_injection_examples :
  check_sql_injection "' OR '1'='1" = false ∧
  check_sql_injection "My kid loves robotics" = false.
Proof. split; vm_compute; reflexivity. Qed.

(** Inputs of the same family that the patterns do catch. *)
Example check_sql_injection_caught :
  check_sql_injection "x' OR 1=1'" = true ∧
  check_sql_injection "' or '=''" = true ∧
  check_sql_injection "SELECT name FROM users" = true ∧
  check_sql_injection "1; DROP TABLE users" = true.
Proof. repeat split; vm_compute; reflexivity. Qed.

(** C6 (as amended).  For every text [x] on which the injection heuristic
    does not fire and every [max_length >= 0]: if the heuristic does not
    fire on [sanitize_input(x, max_length)] either, then sanitizing that
    result again returns it unchanged. *)
Theorem sanitize_input_idempotent (x : string) (max_length : Z) :
  0 <= max_length →
  check_sql_injection x = false →
  check_sql_injection (sanitize_input x max_length) = false →
  sanitize_input (sanitize_input x max_length) max_length
    = sanitize_input x max_length.
Proof.
  unfold sanitize_input, check_sql_injection. intros Hn _.
  rewrite list_ascii_of_string_of_list_ascii. intros Hc.
  f_equal. by apply sanitize_chars_idempotent.
Qed.

Lemma sanitize_input_idempotent_witness :
  0 <= 200 ∧
  check_sql_injection "  <b>Kids</b> Yoga " = false ∧
  check_sql_injection (sanitize_input "  <b>Kids</b> Yoga " 200) = false ∧
  sanitize_input (sanitize_input "  <b>Kids</b> Yoga " 200) 200
    = sanitize_input "  <b>Kids</b> Yoga " 200.
Proof.
  assert (H1 : 0 <= 200) by lia.
  assert (H2 : check_sql_injection "  <b>Kids</b> Yoga " = false)
    by (vm_compute; reflexivity).
  assert (H3 : check_sql_injection (sanitize_input "  <b>Kids</b> Yoga " 200) = false)
    by (vm_compute; reflexivity).
  exact (conj H1 (conj H2 (conj H3
           (sanitize_input_idempotent "  <b>Kids</b> Yoga " 200 H1 H2 H3)))).
Defined.

(** C6 as stated fails.  The heuristic does not fire on [ex<b>ec], but
    removing the tag leaves [exec], on which it does fire, so the second
    pass returns the empty string.  And with a negative [max_length] the
    slice drops a character at every pass. *)
Lemma sanitize_input_not_idempotent :
  (check_sql_injection "ex<b>ec" = false ∧
   sanitize_input "ex<b>ec" 1000 = "exec"%string ∧
   sanitize_input (sanitize_input "ex<b>ec" 1000) 1000 = ""%string ∧
   sanitize_input (sanitize_input "ex<b>ec" 1000) 1000
     ≠ sanitize_input "ex<b>ec" 1000) ∧
  (check_sql_injection "abc" = false ∧
   sanitize_input "abc" (-1) = "ab"%string ∧
   sanitize_input (sanitize_input "abc" (-1)) (-1) = "a"%string ∧
   sanitize_input (sanitize_input "abc" (-1)) (-1) ≠ sanitize_input "abc" (-1)).
Proof. repeat split; vm_compute; (reflexivity || discriminate). Qed.

End SecurityValidatorFacts.

Module SkillioHandlerFacts.
Import Db SecurityValidator SkillioHandler.

(** *** Scenario data *)

Definition parent1 : user := User "p1" "parent@example.org" "parent".
Definition admin1 : user := User "a1" "admin@example.org" "admin".
Definition manager1 : user := User "m1" "manager@example.org" "school".

Definition empty_db : Db.t := Db.Build None [] [] [].
Definition fresh_world : world := World (RateLimiter.init 0) empty_db.

Definition kids_yoga_fields : gmap string json :=
  list_to_map [("activity_name", JString "Kids Yoga");
               ("school_name", JString "Harmony Center");
               ("category", JString "Sports"); ("city", JString "Sofia")]%string.

Definition kids_yoga : body := Object kids_yoga_fields.

Definition approve_sub1 : gmap string string :=
  list_to_map [("submission_id", "sub-1"); ("action", "approve")]%string.

(** *** Moderation *)

Lemma approve_short_row d tb submission sid reviewer school_id activity_id :
  (length submission <= 9)%nat →
  approve d tb submission sid reviewer school_id activity_id = inl IndexError.
Proof.
  intros Hlen. unfold approve.
  rewrite (lookup_ge_None_2 submission 9) by lia.
  by destruct (submission !! 3%nat).
Qed.

Lemma approve_wide_row d tb submission sid reviewer school_id activity_id :
  (10 <= length submission)%nat →
  ∃ new_school new_activity,
    approve d tb submission sid reviewer school_id activity_id =
      inr (Db.Build (Some (update_status tb sid "approved"))
             (schools d ++ [new_school]) (activities d ++ [new_activity])
             (user_agency_claims d)) ∧
    s_id new_school = Text school_id ∧ a_school_id new_activity = Text school_id ∧
    s_verified new_school = Int 1 ∧ s_created_by new_school = Text (u_id reviewer) ∧
    a_age_min new_activity = Int 3 ∧ a_age_max new_activity = Int 18.
Proof.
  intros Hlen. unfold approve.
  destruct (lookup_lt_is_Some_2 submission 3 ltac:(lia)) as [v3 ->].
  destruct (lookup_lt_is_Some_2 submission 9 ltac:(lia)) as [v9 ->].
  destruct (lookup_lt_is_Some_2 submission 5 ltac:(lia)) as [v5 ->].
  destruct (lookup_lt_is_Some_2 submission 2 ltac:(lia)) as [v2 ->].
  destruct (lookup_lt_is_Some_2 submission 4 ltac:(lia)) as [v4 ->].
  eexists _, _. split; [reflexivity|]. done.
Qed.

Lemma select_pending_after_update tb submission_id new_status :
  new_status ≠ "pending"%string →
  select_pending (update_status tb submission_id new_status) submission_id = None.
Proof.
  intros Hst. unfold select_pending.
  assert (list_find
            (λ r, field (columns (update_status tb submission_id new_status)) "id" r
                    = Some (Text submission_id) ∧
                  field (columns (update_status tb submission_id new_status)) "status" r
                    = Some (Text "pending"))
            (rows (update_status tb submission_id new_status)) = None) as ->; [|done].
  apply list_find_None. simpl. apply Forall_map, Forall_forall.
  intros r _ [Hid Hstatus].
  destruct (decide (field (columns tb) "id" r = Some (Text submission_id)))
    as [Heq|Hne]; [|done].
  unfold field in Hstatus.
  destruct (col_index "status" (columns tb)) as [i|] eqn:Hi; simpl in Hstatus;
    [|done].
  destruct (decide (i < length r)%nat).
  - rewrite list_lookup_insert_eq in Hstatus by done. congruence.
  - rewrite lookup_ge_None_2 in Hstatus; [done|]. rewrite length_insert. lia.
Qed.

(** On a row of at least ten columns (the layout in which column 9 is the
    description) approval does what the claim says: one school, one
    activity, and the submission cannot be resolved a second time. *)
Lemma approve_once_on_wide_rows d tb reviewer data sid submission school_id activity_id :
  u_role reviewer = "admin"%string →
  data !! "submission_id"%string = Some sid → sid ≠ ""%string →
  data !! "action"%string = Some "approve"%string →
  submitted_activities d = Some tb →
  select_pending tb sid = Some submission →
  (10 <= length submission)%nat →
  ∃ new_school new_activity d',
    handle_moderate_submission d (Some reviewer) data school_id activity_id
      = (Json 200 true SubmissionApproved, d') ∧
    schools d' = schools d ++ [new_school] ∧
    activities d' = activities d ++ [new_activity] ∧
    ∀ school_id' activity_id',
      handle_moderate_submission d' (Some reviewer) data school_id' activity_id'
        = (Json 404 false SubmissionNotFound, d').
Proof.
  intros Hrole Hsid Hne Hact Htb Hsel Hlen.
  destruct (approve_wide_row d tb submission sid reviewer school_id activity_id Hlen)
    as (ns & na & Happ & _).
  eexists ns, na, _. unfold handle_moderate_submission, require_role.
  rewrite Hrole, Hsid, Hact. rewrite decide_True by constructor. simpl default.
  rewrite decide_False by (intros [?|?]; done).
  rewrite decide_False by (intros Hn; apply Hn; constructor).
  rewrite Htb, Hsel. rewrite decide_True by done. rewrite Happ.
  split; [reflexivity|]. split; [done|]. split; [done|].
  intros s' a'.
  rewrite decide_False by (intros [?|?]; done).
  rewrite decide_False by (intros Hn; apply Hn; constructor).
  cbn [submitted_activities].
  by rewrite select_pending_after_update.
Qed.

(** C2.  The code does not do what the claim says on the table it declares
    itself.  A parent submits "Kids Yoga" into a fresh database:
    [handle_activity_submission] creates [submitted_activities] with its nine
    columns and stores the pending row.  When an administrator then approves
    that submission, [submission[9]] is out of range for the nine-column row:
    the handler answers 500, no venue and no offering is created and the
    submission stays pending, so that a second approval fails in the same
    way instead of answering NotFound. *)
Theorem approve_fails_on_declared_table :
  let '(r1, w1) :=
    handle_activity_submission fresh_world (Some parent1) "10.0.0.1" kids_yoga
      10 10 "sub-1" in
  let pending_row :=
    [Text "sub-1"; Text "p1"; Text "Kids Yoga"; Text "Harmony Center";
     Text "Sports"; Text "Sofia"; Text ""; Text "pending"; Int 10] in
  let '(r2, d2) :=
    handle_moderate_submission (db w1) (Some admin1) approve_sub1 "school-1" "act-1" in
  let '(r3, d3) :=
    handle_moderate_submission d2 (Some admin1) approve_sub1 "school-2" "act-2" in
  r1 = Json 200 true SubmissionReceived ∧
  submitted_activities (db w1) = Some (Table submitted_columns [pending_row]) ∧
  r2 = Json 500 false (SystemError IndexError) ∧
  d2 = db w1 ∧ schools d2 = [] ∧ activities d2 = [] ∧
  r3 = Json 500 false (SystemError IndexError) ∧ d3 = db w1.
Proof. vm_compute. repeat split; reflexivity. Qed.

(** *** Ownership claims *)

(** Every claim names a school that exists, and no pair of a claimant and a
    school has two pending claims. *)
Definition claims_ok (d : Db.t) : Prop :=
  Forall (λ c, cl_agency_id c ≠ ""%string ∧
               Exists (λ s, s_id s = Text (cl_agency_id c)) (schools d))
         (user_agency_claims d) ∧
  ∀ u a, (length (filter (is_pending u a) (user_agency_claims d)) <= 1)%nat.

(** What a handler may do to the schools and the claims: add schools and
    leave the claims alone, or add one pending claim for an existing school
    that the claimant has no pending claim on. *)
Inductive effect (d d' : Db.t) : Prop :=
| Keeps :
    (∃ extra, schools d' = schools d ++ extra) →
    user_agency_claims d' = user_agency_claims d →
    effect d d'
| Adds (claim_id u a : string) :
    schools d' = schools d →
    a ≠ ""%string →
    Exists (λ s, s_id s = Text a) (schools d) →
    ¬ Exists (is_pending u a) (user_agency_claims d) →
    user_agency_claims d' = user_agency_claims d ++ [Claim claim_id u a "pending"] →
    effect d d'.

Lemma effect_refl d : effect d d.
Proof. apply Keeps; [exists []; by rewrite app_nil_r | done]. Qed.

Lemma filter_pending_none u a (cs : list claim) :
  ¬ Exists (is_pending u a) cs → filter (is_pending u a) cs = [].
Proof.
  induction cs as [|c cs IH]; [done|]. intros H. rewrite filter_cons.
  destruct (decide (is_pending u a c)) as [Hc|Hc].
  - exfalso. apply H. by left.
  - apply IH. intros ?. apply H. by right.
Qed.

Lemma effect_claims_ok d d' : claims_ok d → effect d d' → claims_ok d'.
Proof.
  intros [Hex Hone] [[extra Hs] Hc | cid u a Hs Ha Hsch Hno Hc].
  - split; rewrite Hc; [|done].
    eapply Forall_impl; [exact Hex|]. intros c [? ?]. split; [done|].
    rewrite Hs. apply Exists_app. by left.
  - split; rewrite Hc.
    + apply Forall_app. split.
      * eapply Forall_impl; [exact Hex|]. intros c [? ?]. by rewrite Hs.
      * apply Forall_singleton. simpl. by rewrite Hs.
    + intros u' a'. rewrite filter_app, length_app.
      rewrite filter_cons, filter_nil.
      destruct (decide (is_pending u' a' _)) as [(Hu & Haa & _)|_]; simpl in *.
      * subst u' a'. rewrite filter_pending_none by done. simpl. lia.
      * specialize (Hone u' a'). lia.
Qed.

Lemma handle_agency_claim_effect d current data claim_id :
  effect d (handle_agency_claim d current data claim_id).2.
Proof.
  unfold handle_agency_claim.
  destruct (require_role current _) as [?|u]; simpl; [apply effect_refl|].
  destruct (decide (default ""%string (data !! "agency_id"%string) = ""%string))
    as [?|Ha]; simpl; [apply effect_refl|].
  destruct (list_find _ (schools d)) as [[i agency]|] eqn:Hfind; simpl;
    [|apply effect_refl].
  destruct (decide (Exists _ _)) as [?|Hno]; simpl; [apply effect_refl|].
  destruct (decide (Exists _ _)) as [?|_]; simpl; [apply effect_refl|].
  eapply Adds; simpl; eauto.
  apply list_find_Some in Hfind as (Hl & Hid & _).
  apply Exists_exists. exists agency. split; [|done].
  by eapply list_elem_of_lookup_2.
Qed.

Lemma handle_moderate_submission_effect d current data school_id activity_id :
  effect d (handle_moderate_submission d current data school_id activity_id).2.
Proof.
  unfold handle_moderate_submission.
  destruct (require_role current _) as [?|u]; simpl; [apply effect_refl|].
  repeat (destruct (decide _); simpl; try apply effect_refl).
  - destruct (submitted_activities d) as [tb|]; simpl; [|apply effect_refl].
    destruct (select_pending tb _) as [submission|]; simpl; [|apply effect_refl].
    destruct (approve _ _ _ _ _ _ _) as [ex|d2] eqn:Happ; simpl; [apply effect_refl|].
    unfold approve in Happ.
    destruct (submission !! 3%nat), (submission !! 9%nat), (submission !! 5%nat),
      (submission !! 2%nat), (submission !! 4%nat); try discriminate.
    injection Happ as <-. apply Keeps; simpl; [by eexists | done].
  - destruct (submitted_activities d) as [tb|]; simpl; [|apply effect_refl].
    destruct (select_pending tb _) as [submission|]; simpl; [|apply effect_refl].
    apply Keeps; simpl; [exists []; by rewrite app_nil_r | done].
Qed.

Lemma handle_activity_submission_effect w current ip data ts now activity_id :
  effect (db w)
    (db (handle_activity_submission w current ip data ts now activity_id).2).
Proof.
  unfold handle_activity_submission.
  repeat (case_match; simpl; try apply effect_refl);
    (apply Keeps; simpl; [exists []; by rewrite app_nil_r | done]).
Qed.

Lemma do_POST_effect w req : effect (db w) (db (do_POST w req).2).
Proof.
  destruct req as [current ip data ts now aid | current data sid aid | current data cid];
    simpl.
  - apply handle_activity_submission_effect.
  - pose proof (handle_moderate_submission_effect (db w) current data sid aid) as H.
    by destruct (handle_moderate_submission _ _ _ _ _).
  - pose proof (handle_agency_claim_effect (db w) current data cid) as H.
    by destruct (handle_agency_claim _ _ _ _).
Qed.

Lemma serve_claims_ok reqs : ∀ w, claims_ok (db w) → claims_ok (db (serve w reqs).2).
Proof.
  induction reqs as [|req reqs IH]; intros w Hok; simpl; [done|].
  pose proof (do_POST_effect w req) as Heff.
  destruct (do_POST w req) as [r w']. simpl in Heff.
  specialize (IH w' (effect_claims_ok _ _ Hok Heff)).
  by destruct (serve w' reqs).
Qed.

Lemma claims_ok_no_claims d : user_agency_claims d = [] → claims_ok d.
Proof. intros H. split; rewrite H; [done|]. intros ??. simpl. lia. Qed.

(** C7.  Starting from any database in which every claim names an existing
    school and no pair of a claimant and a school has two pending claims (a
    database without claims, for one), after any sequence of requests
    (activity submissions, moderations, ownership claims) no pair of a
    claimant and a school has more than one pending claim, and a further
    claim by a school-role principal on a school it already has a pending
    claim on is answered with HTTP 400 "already claimed" and changes nothing
    in the database. *)
Theorem pending_claim_conflict (w0 : world) (reqs : list request)
    (u : user) (a claim_id : string) (data : gmap string string) :
  claims_ok (db w0) →
  let d := db (serve w0 reqs).2 in
  (∀ u' a', (length (filter (is_pending u' a') (user_agency_claims d)) <= 1)%nat) ∧
  (u_role u = "school"%string →
   data !! "agency_id"%string = Some a →
   Exists (is_pending (u_id u) a) (user_agency_claims d) →
   handle_agency_claim d (Some u) data claim_id = (Json 400 false AlreadyClaimed, d)).
Proof.
  intros Hok0 d.
  assert (Hok : claims_ok d) by by apply serve_claims_ok.
  destruct Hok as [Hex Hone]. split; [done|].
  intros Hrole Hdata Hpend. unfold handle_agency_claim, require_role.
  rewrite Hrole, Hdata. simpl.
  apply Exists_exists in Hpend as (c & Hc & Hu & Ha & Hst).
  rewrite Forall_forall in Hex. destruct (Hex c Hc) as [Hne Hsch].
  rewrite Ha in Hne, Hsch.
  rewrite decide_False by done.
  destruct (list_find _ (schools d)) as [[i agency]|] eqn:Hfind.
  - rewrite decide_True; [done|].
    apply Exists_exists. by exists c.
  - apply list_find_None in Hfind.
    apply Exists_exists in Hsch as (s & Hs & Hid).
    rewrite Forall_forall in Hfind. by destruct (Hfind s Hs).
Qed.

Definition harmony : school :=
  School (Text "s1") (Text "Harmony Center") (Text "") (Text "Sofia")
         Null Null Null (Int 1) (Text "a1").

Definition claim_s1 : gmap string string :=
  list_to_map [("agency_id", "s1")]%string.

Lemma pending_claim_conflict_witness :
  let w0 := World (RateLimiter.init 0) (Db.Build None [harmony] [] []) in
  let reqs := [ClaimAgency (Some manager1) claim_s1 "c1"] in
  claims_ok (db w0) ∧
  user_agency_claims (db (serve w0 reqs).2) = [Claim "c1" "m1" "s1" "pending"] ∧
  handle_agency_claim (db (serve w0 reqs).2) (Some manager1) claim_s1 "c2"
    = (Json 400 false AlreadyClaimed, db (serve w0 reqs).2).
Proof.
  intros w0 reqs.
  assert (H0 : claims_ok (db w0)) by (apply claims_ok_no_claims; reflexivity).
  split; [exact H0|]. split; [vm_compute; reflexivity|].
  refine (proj2 (pending_claim_conflict w0 reqs manager1 "s1" "c2" claim_s1 H0) _ _ _).
  - reflexivity.
  - reflexivity.
  - vm_compute. apply Exists_cons_hd. repeat split.
Defined.

(** *** Claimable schools *)

(** [value_le] is a total preorder, and two names are below each other
    only when they are equal. *)
Lemma string_compare_trans (s1 : string) : ∀ s2 s3,
  String.compare s1 s2 ≠ Gt → String.compare s2 s3 ≠ Gt → String.compare s1 s3 ≠ Gt.
Proof.
  induction s1 as [|a s1 IH]; intros [|b s2] [|c s3]; cbn [String.compare]; try done.
  unfold Ascii.compare.
  destruct (N.compare_spec (N_of_ascii a) (N_of_ascii b)) as [Hab|Hab|Hab];
    destruct (N.compare_spec (N_of_ascii b) (N_of_ascii c)) as [Hbc|Hbc|Hbc];
    destruct (N.compare_spec (N_of_ascii a) (N_of_ascii c)) as [Hac|Hac|Hac];
    try done; try lia.
  apply IH.
Qed.

Lemma string_leb_trans s1 s2 s3 :
  String.leb s1 s2 = true → String.leb s2 s3 = true → String.leb s1 s3 = true.
Proof.
  unfold String.leb. intros H12 H23.
  pose proof (string_compare_trans s1 s2 s3) as H.
  destruct (String.compare s1 s2), (String.compare s2 s3), (String.compare s1 s3);
    try done; exfalso; by apply H.
Qed.

Lemma string_leb_refl s : String.leb s s = true.
Proof. by destruct (String.leb_total s s). Qed.

Lemma value_le_refl x : value_le x x.
Proof. destruct x; simpl; [done | apply string_leb_refl | lia]. Qed.

Lemma value_le_total x y : value_le x y ∨ value_le y x.
Proof.
  destruct x as [|a|a], y as [|b|b]; simpl; try tauto; [apply String.leb_total | lia].
Qed.

Lemma value_le_trans x y z : value_le x y → value_le y z → value_le x z.
Proof.
  destruct x as [|a|a], y as [|b|b], z as [|c|c]; simpl; try done;
    [apply string_leb_trans | lia].
Qed.

Lemma value_le_antisym x y : value_le x y → value_le y x → x = y.
Proof.
  destruct x as [|a|a], y as [|b|b]; simpl; try done.
  - intros. f_equal. by apply String.leb_antisym.
  - intros. f_equal. lia.
Qed.

(** [ORDER BY name]: a permutation, in order, that keeps rows of equal name
    in the order of the table. *)
Definition by_name (s1 s2 : school) : Prop := value_le (s_name s1) (s_name s2).

Lemma insert_by_name_perm s l : insert_by_name s l ≡ₚ s :: l.
Proof.
  induction l as [|x l IH]; [done|]. cbn [insert_by_name].
  destruct (decide _); [done|]. rewrite IH. apply Permutation_swap.
Qed.

Lemma order_by_name_perm l : order_by_name l ≡ₚ l.
Proof.
  induction l as [|s l IH]; [done|].
  cbn [order_by_name foldr]. fold (order_by_name l).
  by rewrite insert_by_name_perm, IH.
Qed.

Lemma insert_by_name_sorted s l :
  StronglySorted by_name l → StronglySorted by_name (insert_by_name s l).
Proof.
  induction 1 as [|x l Hl IH Hx]; cbn [insert_by_name].
  { repeat constructor. }
  destruct (decide (value_le (s_name s) (s_name x))) as [Hle|Hnle].
  - constructor; [by constructor|]. constructor; [done|].
    eapply Forall_impl; [exact Hx|]. intros y Hy. by eapply value_le_trans.
  - constructor; [done|]. rewrite insert_by_name_perm. constructor; [|done].
    by destruct (value_le_total (s_name s) (s_name x)).
Qed.

Lemma order_by_name_sorted l : StronglySorted by_name (order_by_name l).
Proof.
  induction l as [|s l IH]; [constructor|].
  cbn [order_by_name foldr]. by apply insert_by_name_sorted.
Qed.

Lemma insert_by_name_same_name name s l :
  filter (λ x, s_name x = name) (insert_by_name s l) =
  filter (λ x, s_name x = name) (s :: l).
Proof.
  induction l as [|x l IH]; [done|]. cbn [insert_by_name].
  destruct (decide (value_le (s_name s) (s_name x))) as [Hle|Hnle]; [done|].
  rewrite filter_cons, IH, !filter_cons.
  destruct (decide (s_name x = name)) as [Hx|Hx],
           (decide (s_name s = name)) as [Hs|Hs]; try done.
  destruct Hnle. rewrite Hx, Hs. apply value_le_refl.
Qed.

Lemma order_by_name_stable name l :
  filter (λ x, s_name x = name) (order_by_name l) = filter (λ x, s_name x = name) l.
Proof.
  induction l as [|s l IH]; [done|].
  cbn [order_by_name foldr]. fold (order_by_name l).
  by rewrite insert_by_name_same_name, !filter_cons, IH.
Qed.

(** The principal has a pending claim on school [s]. *)
Definition pending_on (user_id : string) (s : school) (c : claim) : Prop :=
  cl_user_id c = user_id ∧ Text (cl_agency_id c) = s_id s ∧
  cl_status c = "pending"%string.

#[global] Instance pending_on_dec u s c : Decision (pending_on u s c).
Proof. unfold pending_on. apply _. Defined.

(** What the claim asks of a listed school: it is not owned by the
    principal and carries no pending claim of the principal. *)
Definition not_owned_no_pending (user_id : string) (claims : list claim)
    (s : school) : Prop :=
  s_created_by s ≠ Text user_id ∧ ¬ Exists (pending_on user_id s) claims.

#[global] Instance not_owned_no_pending_dec u cs s :
  Decision (not_owned_no_pending u cs s).
Proof. unfold not_owned_no_pending. apply _. Defined.

(** A school that is offered whatever becomes of resolved claims: its owner
    is set and is somebody else, and the principal has no claim at all on
    it. *)
Definition owned_by_other_unclaimed (user_id : string) (claims : list claim)
    (s : school) : Prop :=
  (∃ o, s_created_by s = Text o ∧ o ≠ user_id) ∧
  (∃ i, s_id s = Text i) ∧
  ¬ Exists (λ c, cl_user_id c = user_id ∧ Text (cl_agency_id c) = s_id s) claims.

#[global] Instance owned_by_other_unclaimed_dec u cs s :
  Decision (owned_by_other_unclaimed u cs s).
Proof.
  unfold owned_by_other_unclaimed.
  destruct (s_created_by s) as [|o|z];
    try (right; intros [[? [? ?]] _]; discriminate).
  destruct (s_id s) as [|i|z'];
    try (right; intros (_ & [? ?] & _); discriminate).
  destruct (decide (o ≠ u)) as [Ho|Ho];
    [|right; intros [[? [[= <-] ?]] _]; done].
  destruct (decide (Exists (λ c, cl_user_id c = u ∧ Text (cl_agency_id c) = Text i) cs))
    as [He|He]; [right; intros (_ & _ & ?); done|].
  left. split_and!; eauto.
Defined.

Lemma sublist_filter_impl {A} (P Q : A → Prop)
    `{∀ x, Decision (P x)} `{∀ x, Decision (Q x)} (l : list A) :
  (∀ x, P x → Q x) → sublist (filter P l) (filter Q l).
Proof.
  intros HPQ. induction l as [|x l IH]; [done|]. rewrite !filter_cons.
  destruct (decide (P x)) as [HP|HP], (decide (Q x)) as [HQ|HQ].
  - by apply sublist_skip.
  - destruct HQ. by apply HPQ.
  - by apply sublist_cons.
  - done.
Qed.

Lemma claimable_unclaimed user_id claims s :
  owned_by_other_unclaimed user_id claims s → claimable user_id claims s.
Proof.
  intros (Ho & [i Hi] & Hno). split; [done|]. exists i. split; [done|].
  apply Forall_forall. intros c Hc Hu Ha. apply Hno.
  apply Exists_exists. exists c. split; [done|]. split; [done|]. by rewrite Ha, Hi.
Qed.

Lemma claimable_allowed user_id claims s :
  claimable user_id claims s → not_owned_no_pending user_id claims s.
Proof.
  intros [(o & Ho & Hne) (i & Hi & Hall)]. split.
  - rewrite Ho. by intros [= ->].
  - intros (c & Hc & Hu & Ha & _)%Exists_exists.
    rewrite Forall_forall in Hall. apply (Hall c Hc Hu).
    rewrite Hi in Ha. by injection Ha.
Qed.

(** C8 (as amended).  The list shown to a principal is the first ten, in
    order of name, of a selection of the schools: [ordered] is the
    selection put in order of name, schools of equal name staying in table
    order.  The selection is drawn from the table in table order; it holds
    every school whose owner is set and is somebody else and on which the
    principal has no claim at all, and it holds only schools that are not
    owned by the principal and carry no pending claim of the principal. *)
Theorem available_agencies_spec (d : Db.t) (user_id : string) :
  ∃ selected ordered,
    available_agencies d user_id = take 10 ordered ∧
    ordered ≡ₚ selected ∧
    StronglySorted by_name ordered ∧
    (∀ name, filter (λ s, s_name s = name) ordered
             = filter (λ s, s_name s = name) selected) ∧
    sublist (filter (owned_by_other_unclaimed user_id (user_agency_claims d))
               (schools d)) selected ∧
    sublist selected
      (filter (not_owned_no_pending user_id (user_agency_claims d)) (schools d)).
Proof.
  exists (filter (claimable user_id (user_agency_claims d)) (schools d)),
         (order_by_name (filter (claimable user_id (user_agency_claims d)) (schools d))).
  split_and!.
  - reflexivity.
  - apply order_by_name_perm.
  - apply order_by_name_sorted.
  - intros name. apply order_by_name_stable.
  - apply sublist_filter_impl, claimable_unclaimed.
  - apply sublist_filter_impl, claimable_allowed.
Qed.

Definition numbered (n : nat) : school :=
  School (Text (String (ascii_of_nat (65 + n)) "")) (Text "Studio") (Text "")
         (Text "Sofia") Null Null Null (Int 1) (Text "a1").

Definition unowned : school :=
  School (Text "s2") (Text "Open Studio") (Text "") (Text "Sofia")
         Null Null Null (Int 0) Null.

(** C8 as stated fails: of eleven schools that are owned by somebody else
    and carry no claim at all, only the first ten are listed; the eleventh
    is not owned by the principal and carries no pending claim of the
    principal, and is left out. *)
Lemma listing_stops_at_ten :
  let d := Db.Build None (map numbered (seq 0 11)) [] [] in
  let last := numbered 10 in
  last ∈ schools d ∧
  not_owned_no_pending (u_id manager1) (user_agency_claims d) last ∧
  available_agencies d (u_id manager1) = map numbered (seq 0 10) ∧
  last ∉ available_agencies d (u_id manager1).
Proof.
  intros d last. split_and!.
  - subst d last. cbn [schools]. apply list_elem_of_fmap. exists 10%nat.
    split; [done|]. apply elem_of_seq. lia.
  - split; [done|]. by intros ?%Exists_nil.
  - by vm_compute.
  - replace (available_agencies d (u_id manager1)) with (map numbered (seq 0 10))
      by (by vm_compute).
    intros (n & Hn & Hin)%list_elem_of_fmap. apply elem_of_seq in Hin.
    assert (n = 10%nat) as ->; [|lia].
    unfold last, numbered in Hn. injection Hn as Hn.
    apply (f_equal nat_of_ascii) in Hn.
    rewrite !nat_ascii_embedding in Hn by lia. lia.
Qed.

(** Two behaviours of the query that the amended claim neither promises nor
    denies: a school owned by somebody else, on which the principal only
    has a claim that was already rejected, is not listed, although
    [handle_agency_claim] would accept a new claim on it; nor is a school
    whose owner is not set. *)
Lemma resolved_claim_hides_school :
  (let d := Db.Build None [harmony] [] [Claim "c1" "m1" "s1" "rejected"] in
   s_created_by harmony = Text "a1" ∧ "a1"%string ≠ u_id manager1 ∧
   ¬ Exists (is_pending (u_id manager1) "s1") (user_agency_claims d) ∧
   available_agencies d (u_id manager1) = [] ∧
   (∃ name, (handle_agency_claim d (Some manager1) claim_s1 "c2").1
            = Json 200 true (ClaimSent name))) ∧
  available_agencies (Db.Build None [unowned] [] []) (u_id manager1) = [].
Proof.
  split.
  - intros d. split; [done|]. split; [done|]. split; [|split].
    + intros (c & Hc & _ & _ & Hst)%Exists_exists.
      apply list_elem_of_singleton in Hc. subst c. discriminate Hst.
    + vm_compute. reflexivity.
    + eexists. vm_compute. reflexivity.
  - vm_compute. reflexivity.
Qed.

(** The same school is listed as long as the principal has no claim on it. *)
Example unclaimed_school_listed :
  available_agencies (Db.Build None [harmony] [] []) (u_id manager1) = [harmony].
Proof. vm_compute. reflexivity. Qed.

(** *** Spam in an activity submission *)

(** The text submitted for [field]: empty when the field is missing, and
    when its value is not a string. *)
Definition text_of (data : gmap string json) (field : string) : string :=
  match data !! field with
  | Some (JString s) => s
  | _ => ""%string
  end.

(** The value of [field] that the spam check looks at: the submitted text
    after [strip()] and [sanitize_input(_, 200)]. *)
Definition cleaned (data : gmap string json) (field : string) : string :=
  sanitize_input (str_strip (text_of data field)) 200.

(** The description that the spam check looks at and that is stored. *)
Definition cleaned_description (data : gmap string json) : string :=
  sanitize_json (default (JString "") (data !! "description"%string)) 2000.


(** The answers of the checks made before anything is stored. *)
Inductive refusal : response → Prop :=
| RefusedRequired field : refusal (Json 200 false (FieldRequired field))
| RefusedField field : refusal (Json 400 false (InappropriateField field))
| RefusedDescription : refusal (Json 400 false InappropriateDescription).

(** The answer of the [except] branch to a value that is not a string. *)
Definition not_a_string : response := Json 200 false (SaveError AttributeError).

Lemma sanitize_required_cons data f fields acc :
  sanitize_required data (f :: fields) acc =
  match default (JString "") (data !! f) with
  | JOther _ _ => inl not_a_string
  | JString _ =>
      if decide (cleaned data f = ""%string) then inl (Json 200 false (FieldRequired f))
      else if detect_spam_patterns (cleaned data f)
           then inl (Json 400 false (InappropriateField f))
           else sanitize_required data fields (<[f := cleaned data f]> acc)
  end.
Proof.
  cbn [sanitize_required]. unfold cleaned, text_of.
  by destruct (data !! f) as [[?|? ?]|].
Qed.

Lemma cleaned_other data f truthy rendered :
  data !! f = Some (JOther truthy rendered) → cleaned data f = ""%string.
Proof. intros H. unfold cleaned, text_of. rewrite H. by vm_compute. Qed.

Lemma sanitize_required_inl data fields acc r :
  sanitize_required data fields acc = inl r → refusal r ∨ r = not_a_string.
Proof.
  revert acc. induction fields as [|f fields IH]; intros acc; [done|].
  rewrite sanitize_required_cons.
  destruct (default (JString "") (data !! f)); [|intros [= <-]; by right].
  destruct (decide _); [intros [= <-]; left; constructor|].
  destruct (detect_spam_patterns _); [intros [= <-]; left; constructor|].
  apply IH.
Qed.


Lemma check_rate_limit_refuses l ip endpoint m w ts now r l' :
  check_rate_limit l ip endpoint m w ts now = (Some r, l') → r = TooManyRequests w.
Proof.
  unfold check_rate_limit.
  destruct (RateLimiter.is_rate_limited _ _ _ _ _ _) as [[[] ?] ?]; by intros [= <- <-].
Qed.


Definition cheap_pills_fields : gmap string json :=
  list_to_map [("activity_name", JString "Buy cheap viagra");
               ("school_name", JString "Harmony Center");
               ("category", JString "Sports"); ("city", JString "Sofia")]%string.

Definition cheap_pills : body := Object cheap_pills_fields.



(** The heuristic sees the text only after sanitization: a name that trips
    it as submitted, but only inside a tag that [sanitize_input] removes,
    is stored without the tag and answered with the success response. *)
Example spam_inside_a_tag_is_stored :
  let data := Object (<["activity_name"%string := JString "Yoga <buy cheap>"]>
                        kids_yoga_fields) in
  let '(r, w') :=
    handle_activity_submission fresh_world (Some parent1) "10.0.0.1" data
      10 10 "sub-1" in
  detect_spam_patterns "Yoga <buy cheap>" = true ∧
  r = Json 200 true SubmissionReceived ∧
  submitted_activities (db w') =
    Some (Table submitted_columns
            [[Text "sub-1"; Text "p1"; Text "Yoga"; Text "Harmony Center";
              Text "Sports"; Text "Sofia"; Text ""; Text "pending"; Int 10]]).
Proof. by vm_compute. Qed.

(** A required field that is not a string (here the number 5) makes
    [strip()] raise; a body that is not a JSON object, or not JSON at all,
    fails earlier.  The [except] branch answers each with status 200 and
    the save error, and nothing is stored. *)
Example non_string_values_are_save_errors :
  let number := Object (<["city"%string := JOther true "5"]> kids_yoga_fields) in
  handle_activity_submission fresh_world (Some parent1) "10.0.0.1" number
    10 10 "sub-1"
    = (not_a_string, World (limiter (handle_activity_submission fresh_world
                                       (Some parent1) "10.0.0.1" kids_yoga
                                       10 10 "sub-1").2) empty_db) ∧
  (handle_activity_submission fresh_world (Some parent1) "10.0.0.1" NotObject
     10 10 "sub-1").1 = Json 200 false (SaveError AttributeError) ∧
  (handle_activity_submission fresh_world (Some parent1) "10.0.0.1" Malformed
     10 10 "sub-1").1 = Json 200 false (SaveError ValueError).
Proof. by vm_compute. Qed.

End SkillioHandlerFacts.

(* ===================================================================== *)
(** * Part III: further properties of the rate limiter                    *)
(* ===================================================================== *)

Module RateLimiterMore.
Import RateLimiter RateLimiterFacts.

(** The last clock reading of a sequence of calls that starts at [t0]. *)
Fixpoint last_reading (t0 : Z) (cs : list call) : Z :=
  match cs with
  | [] => t0
  | c :: cs' => last_reading (c_now c) cs'
  end.

(** Every bucket is in non-decreasing order and holds only readings between
    [lo] and [hi]. *)
Definition tidy (lo hi : Z) (self : t) : Prop :=
  lo <= hi ∧
  ∀ ip, StronglySorted Z.le (bucket self ip) ∧
        Forall (λ ts, lo <= ts ∧ ts <= hi) (bucket self ip).

Lemma StronglySorted_sublist {A} (R : relation A) (l1 l2 : list A) :
  sublist l1 l2 → StronglySorted R l2 → StronglySorted R l1.
Proof.
  induction 1 as [|x l1 l2 Hs IH|x l1 l2 Hs IH]; [done| |];
    intros [H1 H2]%StronglySorted_inv; [|by auto].
  constructor; [by auto|].
  eapply SecurityValidatorFacts.Forall_of_sublist; eauto.
Qed.

Lemma filter_above_nil (c : Z) (l : list Z) :
  Forall (λ x, x <= c) l → filter (λ x, x > c) l = [].
Proof.
  induction 1 as [|x l Hx _ IH]; [done|].
  by rewrite filter_cons, decide_False by lia.
Qed.

Lemma tidy_cleanup lo hi self now :
  tidy lo hi self → tidy lo hi (cleanup_old_requests self now).
Proof.
  intros [Hle H]. split; [done|]. intros ip. destruct (H ip) as [Hs Hb].
  pose proof (bucket_cleanup_sublist self now ip) as Hsub. split.
  - by eapply StronglySorted_sublist.
  - by eapply SecurityValidatorFacts.Forall_of_sublist.
Qed.

Lemma tidy_step lo T self c :
  tidy lo T self → T <= c_sweep c → c_sweep c <= c_now c →
  tidy lo (c_now c) (step self c).2.
Proof.
  intros Ht HT Hts. unfold step.
  pose proof (tidy_cleanup lo T self (c_sweep c) Ht) as [Hle Hsw].
  split; [lia|]. intros ip.
  pose proof (bucket_is_rate_limited self (c_ip c) (c_max c) (c_window c)
                (c_sweep c) (c_now c) ip) as Hb.
  destruct (is_rate_limited _ _ _ _ _ _) as [[limited rem] self'].
  simpl in *. rewrite Hb. clear Hb.
  destruct (decide _) as [[-> _]|_].
  - destruct (Hsw (c_ip c)) as [Hs Hb].
    assert (Hsub : sublist (filter (λ x, x > c_now c - c_window c)
                              (bucket (cleanup_old_requests self (c_sweep c)) (c_ip c)))
                           (bucket (cleanup_old_requests self (c_sweep c)) (c_ip c)))
      by apply sublist_filter.
    pose proof (SecurityValidatorFacts.Forall_of_sublist _ _ _ Hsub Hb) as Hb'.
    split.
    + apply StronglySorted_app_2.
      * intros x1 x2 Hx1 Hx2. apply list_elem_of_singleton in Hx2 as ->.
        rewrite Forall_forall in Hb'. specialize (Hb' x1 Hx1). lia.
      * by eapply StronglySorted_sublist.
      * repeat constructor.
    + apply Forall_app. split.
      * eapply Forall_impl; [exact Hb'|]. simpl. intros; lia.
      * apply Forall_singleton. lia.
  - destruct (Hsw ip) as [Hs Hb]. split; [done|].
    eapply Forall_impl; [exact Hb|]. simpl. intros; lia.
Qed.

Lemma tidy_run cs : ∀ lo T self,
  tidy lo T self → monotone T cs → tidy lo (last_reading T cs) (run self cs).2.
Proof.
  induction cs as [|c cs IH]; intros lo T self Ht Hmono; simpl; [done|].
  destruct Hmono as (HT & Hts & Hmono).
  pose proof (tidy_step lo T self c Ht HT Hts) as Hstep.
  destruct (step self c) as [r self']. simpl in Hstep.
  specialize (IH lo (c_now c) self' Hstep Hmono).
  destruct (run self' cs). simpl in *. done.
Qed.

Lemma tidy_init t0 : tidy t0 t0 (init t0).
Proof.
  split; [lia|]. intros k. unfold bucket. simpl. rewrite lookup_empty. simpl.
  split; constructor.
Qed.

(** X1.  Under a clock that never runs backwards, every bucket stays in
    non-decreasing order and holds only readings between the creation of the
    limiter and the last reading. *)
Theorem buckets_sorted_and_bounded (t0 : Z) (cs : list call) (ip : string) :
  monotone t0 cs →
  let self := (run (init t0) cs).2 in
  StronglySorted Z.le (bucket self ip) ∧
  Forall (λ ts, t0 <= ts ∧ ts <= last_reading t0 cs) (bucket self ip).
Proof.
  intros Hmono self.
  by destruct (tidy_run cs t0 t0 (init t0) (tidy_init t0) Hmono) as [_ H].
Qed.

Definition three_logins : list call :=
  [Call "10.0.0.1:login" 2 900 10 10; Call "10.0.0.1:login" 2 900 20 21;
   Call "10.0.0.1:login" 2 900 30 30].

Lemma buckets_sorted_and_bounded_witness :
  monotone 0 three_logins ∧
  StronglySorted Z.le (bucket (run (init 0) three_logins).2 "10.0.0.1:login") ∧
  Forall (λ ts, 0 <= ts ∧ ts <= last_reading 0 three_logins)
    (bucket (run (init 0) three_logins).2 "10.0.0.1:login").
Proof.
  assert (H : monotone 0 three_logins) by (simpl; lia).
  exact (conj H (buckets_sorted_and_bounded 0 three_logins "10.0.0.1:login" H)).
Defined.

(** X2.  Once the window has passed since the last reading, a key is let
    through again: after any sequence of calls under a clock that never
    runs backwards, a call made [w] seconds or more after the last one, with
    a budget of at least one request, is not limited and reports
    [m - 1] remaining requests. *)
Theorem let_through_after_window (t0 : Z) (cs : list call) (ip : string)
    (m w ts now : Z) :
  monotone t0 cs → last_reading t0 cs <= ts → ts <= now →
  last_reading t0 cs + w <= now → 1 <= m →
  (is_rate_limited (run (init t0) cs).2 ip m w ts now).1 = (false, m - 1).
Proof.
  intros Hmono HT Hts Hw Hm.
  destruct (tidy_run cs t0 t0 (init t0) (tidy_init t0) Hmono) as [_ Htidy].
  destruct (Htidy ip) as [_ Hb].
  rewrite is_rate_limited_result.
  pose proof (bucket_cleanup_sublist (run (init t0) cs).2 ts ip) as Hsub.
  pose proof (SecurityValidatorFacts.Forall_of_sublist _ _ _ Hsub Hb) as Hb'.
  rewrite filter_above_nil
    by (eapply Forall_impl; [exact Hb'|]; simpl; intros; lia).
  simpl. rewrite decide_False by lia. f_equal. lia.
Qed.

Lemma let_through_after_window_witness :
  monotone 0 three_logins ∧ last_reading 0 three_logins <= 930 ∧ 930 <= 930 ∧
  last_reading 0 three_logins + 900 <= 930 ∧ 1 <= 2 ∧
  (is_rate_limited (run (init 0) three_logins).2 "10.0.0.1:login" 2 900 930 930).1
    = (false, 2 - 1).
Proof.
  assert (H1 : monotone 0 three_logins) by (simpl; lia).
  assert (H2 : last_reading 0 three_logins <= 930) by (simpl; lia).
  assert (H3 : 930 <= 930) by lia.
  assert (H4 : last_reading 0 three_logins + 900 <= 930) by (simpl; lia).
  assert (H5 : 1 <= 2) by lia.
  exact (conj H1 (conj H2 (conj H3 (conj H4 (conj H5
    (let_through_after_window 0 three_logins "10.0.0.1:login" 2 900 930 930
       H1 H2 H3 H4 H5)))))).
Defined.

(** X3.  The periodic sweep: when more than [cleanup_interval] seconds have
    passed since the last sweep, every bucket loses exactly its timestamps
    that are an hour old or older, no empty bucket is kept in the
    dictionary, and the time of the sweep is recorded; otherwise the limiter
    is left as it is. *)
Theorem sweep_purges (self : t) (now : Z) :
  (now - last_cleanup self > cleanup_interval self →
   let self' := cleanup_old_requests self now in
   last_cleanup self' = now ∧
   (∀ ip, bucket self' ip = filter (λ ts, ts > now - 3600) (bucket self ip)) ∧
   (∀ ip l, requests self' !! ip = Some l →
            l ≠ [] ∧ Forall (λ ts, ts > now - 3600) l)) ∧
  (now - last_cleanup self <= cleanup_interval self →
   cleanup_old_requests self now = self).
Proof.
  split.
  - intros Hfire self'. split; [|split].
    + unfold self', cleanup_old_requests. by rewrite decide_True.
    + intros ip. unfold self'. rewrite bucket_cleanup. by rewrite decide_True.
    + intros ip l. unfold self', cleanup_old_requests. rewrite decide_True by done.
      simpl. rewrite lookup_omap. destruct (requests self !! ip) as [l0|]; [|done].
      simpl. unfold sweep_bucket.
      destruct (filter (λ ts, ts > now - 3600) l0) as [|x l'] eqn:Hf; [done|].
      intros [= <-]. split; [done|]. rewrite <- Hf.
      apply Forall_forall. by intros y [Hy _]%list_elem_of_filter.
  - intros Hidle. unfold cleanup_old_requests. by rewrite decide_False by lia.
Qed.

(** The bucket of [k] never holds more timestamps than the budget [m]. *)
Definition within_budget (k : string) (m : Z) (self : t) : Prop :=
  Z.of_nat (length (bucket self k)) <= Z.max 0 m.

Lemma within_budget_step k m self c :
  within_budget k m self → (c_ip c = k → c_max c = m) →
  within_budget k m (step self c).2.
Proof.
  unfold within_budget, step. intros Hlen Hp.
  pose proof (bucket_is_rate_limited self (c_ip c) (c_max c) (c_window c)
                (c_sweep c) (c_now c) k) as Hb.
  pose proof (is_rate_limited_result self (c_ip c) (c_max c) (c_window c)
                (c_sweep c) (c_now c)) as Hr.
  pose proof (sublist_length _ _ (bucket_cleanup_sublist self (c_sweep c) k)) as Hsw.
  destruct (is_rate_limited _ _ _ _ _ _) as [[limited rem] self'].
  cbn [fst snd] in *. rewrite Hb. clear Hb.
  destruct (decide (k = c_ip c ∧ limited = false)) as [[Hk ->]|_]; [|lia].
  rewrite (Hp (eq_sym Hk)) in Hr.
  destruct (decide (_ >= m)) as [?|Hlt]; [done|].
  rewrite length_app. simpl length. lia.
Qed.

Lemma within_budget_run k m cs : ∀ self,
  within_budget k m self → Forall (λ c, c_ip c = k → c_max c = m) cs →
  within_budget k m (run self cs).2.
Proof.
  induction cs as [|c cs IH]; intros self Hb Hp; simpl; [done|].
  apply Forall_cons in Hp as [Hc Hp].
  pose proof (within_budget_step k m self c Hb Hc) as Hstep.
  destruct (step self c) as [r self']. simpl in Hstep.
  specialize (IH self' Hstep Hp).
  destruct (run self' cs). simpl in *. done.
Qed.

(** X4.  Memory per key is bounded by the budget: whatever the windows and
    the clock readings, if all calls for key [k] carry the budget [m], the
    bucket of [k] never holds more than [m] timestamps. *)
Theorem bucket_length_bounded (t0 : Z) (cs : list call) (k : string) (m : Z) :
  Forall (λ c, c_ip c = k → c_max c = m) cs →
  Z.of_nat (length (bucket (run (init t0) cs).2 k)) <= Z.max 0 m.
Proof.
  intros Hp. apply (within_budget_run k m cs (init t0)); [|done].
  unfold within_budget, bucket. simpl. rewrite lookup_empty. simpl. lia.
Qed.

Lemma bucket_length_bounded_witness :
  Forall (λ c, c_ip c = "10.0.0.1:login"%string → c_max c = 2) three_logins ∧
  Z.of_nat (length (bucket (run (init 0) three_logins).2 "10.0.0.1:login")) <= Z.max 0 2.
Proof.
  assert (H : Forall (λ c, c_ip c = "10.0.0.1:login"%string → c_max c = 2) three_logins)
    by (repeat constructor).
  exact (conj H (bucket_length_bounded 0 three_logins "10.0.0.1:login" 2 H)).
Defined.

Lemma filter_above_all (c : Z) (l : list Z) :
  Forall (λ x, x > c) l → filter (λ x, x > c) l = l.
Proof.
  induction 1 as [|x l Hx _ IH]; [done|].
  by rewrite filter_cons, decide_True, IH by done.
Qed.

(** The calls of a burst: all for key [k] with budget [m] per [w] seconds,
    and all inside the window that ends at [tend]. *)
Definition in_burst (k : string) (m w tend : Z) (c : call) : Prop :=
  c_ip c = k ∧ c_max c = m ∧ c_window c = w ∧
  c_sweep c <= tend ∧ tend - w < c_now c ∧ c_now c <= tend.

Lemma burst_run k m w tend cs : ∀ self j,
  w <= 3600 → 0 <= m → 0 <= j →
  Z.of_nat (length (bucket self k)) = Z.min j m →
  Forall (λ x, x > tend - w) (bucket self k) →
  Forall (in_burst k m w tend) cs →
  ∀ (i : nat) c r, (run self cs).1 !! i = Some (c, r) →
    r = if decide (j + Z.of_nat i < m)
        then (false, m - (j + Z.of_nat i) - 1) else (true, 0).
Proof.
  induction cs as [|c cs IH]; intros self j Hw Hm Hj Hlen Hall Hcs i c' r; simpl;
    [done|].
  apply Forall_cons in Hcs as [(Hk & Hmx & Hwin & Hsw & Hlo & Hhi) Hcs].
  pose proof (bucket_is_rate_limited self (c_ip c) (c_max c) (c_window c)
                (c_sweep c) (c_now c) k) as Hb.
  pose proof (is_rate_limited_result self (c_ip c) (c_max c) (c_window c)
                (c_sweep c) (c_now c)) as Hr.
  unfold step. cbv zeta in Hb, Hr. rewrite Hk, Hmx, Hwin in *.
  assert (Hswept : bucket (cleanup_old_requests self (c_sweep c)) k = bucket self k).
  { rewrite bucket_cleanup.
    destruct (decide (c_sweep c - last_cleanup self > cleanup_interval self));
      [|done].
    apply filter_above_all. eapply Forall_impl; [exact Hall|]. simpl. intros; lia. }
  rewrite Hswept in Hb, Hr.
  assert (Hrecent : filter (λ x, x > c_now c - w) (bucket self k) = bucket self k).
  { apply filter_above_all. eapply Forall_impl; [exact Hall|]. simpl. intros; lia. }
  rewrite Hrecent in Hb, Hr.
  destruct (is_rate_limited self k m w (c_sweep c) (c_now c)) as [[limited rem] self'].
  simpl in Hb, Hr.
  specialize (IH self' (j + 1)).
  destruct (run self' cs) as [log self''] eqn:Hrun. simpl in *.
  destruct i as [|i]; simpl.
  - intros [= <- <-]. rewrite Hr.
    destruct (decide (Z.of_nat (length (bucket self k)) >= m));
      destruct (decide (_ < m)); try lia; f_equal; lia.
  - intros Hi.
    assert (Hgoal : (c', r).2 = if decide (j + 1 + Z.of_nat i < m)
                               then (false, m - (j + 1 + Z.of_nat i) - 1)
                               else (true, 0)).
    { eapply (IH Hw Hm ltac:(lia)); [| |exact Hcs|exact Hi].
      - rewrite Hb.
        destruct (decide (Z.of_nat (length (bucket self k)) >= m)) as [?|Hlt].
        + injection Hr as -> _. rewrite decide_False by (intros [_ ?]; done). lia.
        + injection Hr as -> _. rewrite decide_True by done.
          rewrite length_app. simpl. lia.
      - rewrite Hb. destruct (decide _).
        + apply Forall_app. split; [done|]. apply Forall_singleton. lia.
        + done. }
    simpl in Hgoal. rewrite Hgoal.
    destruct (decide (j + 1 + Z.of_nat i < m)), (decide (j + Z.of_nat (S i) < m));
      try lia; f_equal; f_equal; lia.
Qed.

(** X5.  A burst on a fresh key: of any number of calls made inside one
    window of at most an hour, with a budget [m >= 0], exactly the first [m]
    are let through, the [i]-th of them (counting from 0) reporting
    [m - i - 1] remaining requests, and all later ones are denied with 0
    remaining. *)
Theorem burst_admits_exactly_budget (t0 : Z) (k : string) (m w tend : Z)
    (cs : list call) (i : nat) (c : call) (r : bool * Z) :
  w <= 3600 → 0 <= m → Forall (in_burst k m w tend) cs →
  (run (init t0) cs).1 !! i = Some (c, r) →
  r = if decide (Z.of_nat i < m) then (false, m - Z.of_nat i - 1) else (true, 0).
Proof.
  intros Hw Hm Hcs Hi.
  pose proof (burst_run k m w tend cs (init t0) 0 Hw Hm ltac:(lia)) as H.
  rewrite (H ltac:(unfold bucket; simpl; rewrite lookup_empty; simpl; lia)
             ltac:(unfold bucket; simpl; rewrite lookup_empty; constructor)
             Hcs i c r Hi).
  destruct (decide (0 + Z.of_nat i < m)), (decide (Z.of_nat i < m));
    try lia; f_equal; lia.
Qed.

Lemma burst_admits_exactly_budget_witness :
  900 <= 3600 ∧ 0 <= 2 ∧
  Forall (in_burst "10.0.0.1:login" 2 900 30) three_logins ∧
  (run (init 0) three_logins).1 !! 2%nat
    = Some (Call "10.0.0.1:login" 2 900 30 30, (true, 0)) ∧
  (true, 0) = if decide (Z.of_nat 2 < 2) then (false, 2 - Z.of_nat 2 - 1) else (true, 0).
Proof.
  assert (H1 : 900 <= 3600) by lia.
  assert (H2 : 0 <= 2) by lia.
  assert (H3 : Forall (in_burst "10.0.0.1:login" 2 900 30) three_logins).
  { unfold three_logins.
    repeat (apply Forall_cons; split; [unfold in_burst; simpl; split_and!; (done || lia)|]).
    by apply Forall_nil. }
  assert (H4 : (run (init 0) three_logins).1 !! 2%nat
               = Some (Call "10.0.0.1:login" 2 900 30 30, (true, 0)))
    by (vm_compute; reflexivity).
  exact (conj H1 (conj H2 (conj H3 (conj H4
    (burst_admits_exactly_budget 0 "10.0.0.1:login" 2 900 30 three_logins 2 _ _
       H1 H2 H3 H4))))).
Defined.

(** Two limiters agree on key [k] as far as a call after [T] can see: on
    the timestamps of its bucket that are less than an hour older than [T]. *)
Definition agree (k : string) (T : Z) (s1 s2 : t) : Prop :=
  ∀ c, T - 3600 <= c →
    filter (λ x, x > c) (bucket s1 k) = filter (λ x, x > c) (bucket s2 k).

Lemma filter_swept self ts ip (c : Z) :
  ts - 3600 <= c →
  filter (λ x, x > c) (bucket (cleanup_old_requests self ts) ip)
    = filter (λ x, x > c) (bucket self ip).
Proof.
  intros Hc. rewrite bucket_cleanup.
  destruct (decide (ts - last_cleanup self > cleanup_interval self)); [|done].
  by apply filter_gt_gt.
Qed.

Lemma agree_other k T s1 s2 c :
  agree k T s1 s2 → c_ip c ≠ k → T <= c_sweep c → c_sweep c <= c_now c →
  agree k (c_now c) (step s1 c).2 s2.
Proof.
  intros Hag Hne HT Hts c0 Hc0. unfold step.
  pose proof (bucket_is_rate_limited s1 (c_ip c) (c_max c) (c_window c)
                (c_sweep c) (c_now c) k) as Hb.
  destruct (is_rate_limited _ _ _ _ _ _) as [[limited rem] s1'].
  cbn [fst snd] in *. rewrite Hb.
  rewrite decide_False by (intros [-> _]; done).
  rewrite filter_swept by lia. apply Hag. lia.
Qed.

Lemma agree_same k T s1 s2 c :
  agree k T s1 s2 → c_ip c = k → c_window c <= 3600 →
  T <= c_sweep c → c_sweep c <= c_now c →
  (step s1 c).1 = (step s2 c).1 ∧ agree k (c_now c) (step s1 c).2 (step s2 c).2.
Proof.
  intros Hag Hk Hw HT Hts. unfold step.
  pose proof (bucket_is_rate_limited s1 (c_ip c) (c_max c) (c_window c)
                (c_sweep c) (c_now c) k) as Hb1.
  pose proof (bucket_is_rate_limited s2 (c_ip c) (c_max c) (c_window c)
                (c_sweep c) (c_now c) k) as Hb2.
  pose proof (is_rate_limited_result s1 (c_ip c) (c_max c) (c_window c)
                (c_sweep c) (c_now c)) as Hr1.
  pose proof (is_rate_limited_result s2 (c_ip c) (c_max c) (c_window c)
                (c_sweep c) (c_now c)) as Hr2.
  cbv zeta in Hb1, Hb2, Hr1, Hr2. rewrite Hk in *.
  rewrite filter_swept in Hb1, Hb2, Hr1, Hr2 by lia.
  rewrite <- (Hag (c_now c - c_window c) ltac:(lia)) in Hb2, Hr2.
  destruct (is_rate_limited s1 _ _ _ _ _) as [[lim1 rem1] s1'].
  destruct (is_rate_limited s2 _ _ _ _ _) as [[lim2 rem2] s2'].
  cbn [fst snd] in *. split; [congruence|].
  assert (lim1 = lim2) as <- by congruence.
  intros c0 Hc0. rewrite Hb1, Hb2.
  destruct (decide (k = k ∧ lim1 = false)); [done|].
  rewrite !filter_swept by lia. apply Hag. lia.
Qed.

Lemma agree_run k cs : ∀ T s1 s2,
  agree k T s1 s2 → monotone T cs →
  Forall (λ c, c_ip c = k → c_window c <= 3600) cs →
  filter (λ cr, c_ip cr.1 = k) (run s1 cs).1
    = (run s2 (filter (λ c, c_ip c = k) cs)).1.
Proof.
  induction cs as [|c cs IH]; intros T s1 s2 Hag Hmono Hp; [done|].
  destruct Hmono as (HT & Hts & Hmono). apply Forall_cons in Hp as [Hc Hp].
  rewrite filter_cons. simpl run.
  destruct (decide (c_ip c = k)) as [Hk|Hne].
  - destruct (agree_same k T s1 s2 c Hag Hk (Hc Hk) HT Hts) as [Hres Hag'].
    simpl run.
    destruct (step s1 c) as [r1 s1'], (step s2 c) as [r2 s2']. simpl in Hres, Hag'.
    subst r2. specialize (IH _ _ _ Hag' Hmono Hp).
    destruct (run s1' cs) as [log1 ?], (run s2' _) as [log2 ?]. simpl in *.
    rewrite filter_cons, decide_True by done. by rewrite IH.
  - pose proof (agree_other k T s1 s2 c Hag Hne HT Hts) as Hag'.
    destruct (step s1 c) as [r1 s1']. simpl in Hag'.
    specialize (IH _ _ _ Hag' Hmono Hp).
    destruct (run s1' cs) as [log1 ?]. simpl in *.
    rewrite filter_cons, decide_False by done. done.
Qed.

(** X6.  Keys do not interfere.  Under a clock that never runs backwards,
    the answers to the calls for a key whose windows are at most an hour are
    the same, call by call, as if the calls for all other keys had never
    been made (although those calls decide when the sweep runs). *)
Theorem other_keys_do_not_interfere (t0 : Z) (cs : list call) (k : string) :
  monotone t0 cs →
  Forall (λ c, c_ip c = k → c_window c <= 3600) cs →
  filter (λ cr, c_ip cr.1 = k) (run (init t0) cs).1
    = (run (init t0) (filter (λ c, c_ip c = k) cs)).1.
Proof.
  intros Hmono Hp. by apply (agree_run k cs t0 (init t0) (init t0)).
Qed.

Definition mixed_calls : list call :=
  [Call "10.0.0.1:login" 1 900 10 10; Call "10.0.0.2:register" 5 900 400 400;
   Call "10.0.0.1:login" 1 900 500 500; Call "10.0.0.1:login" 1 900 920 920].

Lemma other_keys_do_not_interfere_witness :
  monotone 0 mixed_calls ∧
  Forall (λ c, c_ip c = "10.0.0.1:login"%string → c_window c <= 3600) mixed_calls ∧
  filter (λ cr, c_ip cr.1 = "10.0.0.1:login"%string) (run (init 0) mixed_calls).1
    = (run (init 0) (filter (λ c, c_ip c = "10.0.0.1:login"%string) mixed_calls)).1.
Proof.
  assert (H1 : monotone 0 mixed_calls) by (simpl; lia).
  assert (H2 : Forall (λ c, c_ip c = "10.0.0.1:login"%string → c_window c <= 3600)
                 mixed_calls).
  { unfold mixed_calls.
    repeat (apply Forall_cons; split; [simpl; intros _; lia|]). by apply Forall_nil. }
  exact (conj H1 (conj H2
    (other_keys_do_not_interfere 0 mixed_calls "10.0.0.1:login" H1 H2))).
Defined.

End RateLimiterMore.

(* ===================================================================== *)
(** * Part IV: further properties of the CSRF token store                 *)
(* ===================================================================== *)

Module CSRFProtectionMore.
Import CSRFProtection.

(** The tokens of [user_id] after [generate_token]: the ones issued less
    than an hour before, and the new one. *)
Lemma generate_token_lookup (tokens : store) (user_id digest : string) (now : Z) :
  (generate_token tokens user_id digest now).2 !! user_id =
    Some (<[digest := now]>
            (filter (λ kv, now - kv.2 < 3600) (default ∅ (tokens !! user_id)))).
Proof.
  unfold generate_token. simpl. rewrite lookup_insert_eq.
  destruct (tokens !! user_id) as [d|]; simpl; rewrite lookup_insert_eq; simpl;
    [done|].
  by rewrite map_filter_empty.
Qed.

Lemma generate_token_other (tokens : store) (p q digest : string) (now : Z) :
  p ≠ q → (generate_token tokens q digest now).2 !! p = tokens !! p.
Proof.
  intros Hne. unfold generate_token. simpl.
  rewrite lookup_insert_ne by done.
  destruct (tokens !! q); by rewrite lookup_insert_ne.
Qed.

Lemma validate_token_other (tokens : store) (p q tok : string) (now : Z) :
  p ≠ q → (validate_token tokens q tok now).2 !! p = tokens !! p.
Proof.
  intros Hne. unfold validate_token.
  destruct (decide _); [done|].
  destruct (tokens !! q) as [d|]; [|done].
  destruct (d !! tok); [|done].
  destruct (decide _); simpl; by rewrite lookup_insert_ne.
Qed.

Lemma validate_token_depends (s s' : store) (p tok : string) (now : Z) :
  s !! p = s' !! p → (validate_token s p tok now).1 = (validate_token s' p tok now).1.
Proof.
  intros H. unfold validate_token. rewrite H.
  destruct (decide _); [done|].
  destruct (s' !! p) as [d|]; [|done].
  destruct (d !! tok); [|done]. by destruct (decide _).
Qed.

(** X7.  A token expires: validated more than 3600 seconds after it was
    issued, it is refused, that refusal removes it from the store, and it
    is refused at any later time too. *)
Theorem token_expires (tokens : store) (p digest : string) (t0 t1 t2 : Z) :
  p ≠ ""%string → digest ≠ ""%string → t1 - t0 > 3600 →
  let s1 := (generate_token tokens p digest t0).2 in
  let '(r1, s2) := validate_token s1 p digest t1 in
  r1 = false ∧ holds s1 p digest = true ∧ holds s2 p digest = false ∧
  (validate_token s2 p digest t2).1 = false.
Proof.
  intros Hp Hd Hage s1.
  pose proof (generate_token_lookup tokens p digest t0) as Hl. fold s1 in Hl.
  unfold validate_token at 1. rewrite decide_False by (intros [?|?]; done).
  rewrite Hl, lookup_insert_eq, decide_True by done.
  split; [done|]. split; [|split].
  - unfold holds. rewrite Hl, lookup_insert_eq. by apply bool_decide_eq_true.
  - unfold holds. rewrite lookup_insert_eq, lookup_delete_eq.
    apply bool_decide_eq_false. by intros [? ?].
  - unfold validate_token. rewrite decide_False by (intros [?|?]; done).
    by rewrite lookup_insert_eq, lookup_delete_eq.
Qed.

Lemma token_expires_witness :
  "user-1"%string ≠ ""%string ∧ "9f86d081"%string ≠ ""%string ∧ 3601 - 0 > 3600 ∧
  let s1 := (generate_token ∅ "user-1" "9f86d081" 0).2 in
  let '(r1, s2) := validate_token s1 "user-1" "9f86d081" 3601 in
  r1 = false ∧ holds s1 "user-1" "9f86d081" = true ∧
  holds s2 "user-1" "9f86d081" = false ∧
  (validate_token s2 "user-1" "9f86d081" 5000).1 = false.
Proof.
  assert (H1 : "user-1"%string ≠ ""%string) by done.
  assert (H2 : "9f86d081"%string ≠ ""%string) by done.
  assert (H3 : 3601 - 0 > 3600) by lia.
  exact (conj H1 (conj H2 (conj H3
    (token_expires ∅ "user-1" "9f86d081" 0 3601 5000 H1 H2 H3)))).
Defined.

(** X8.  Principals are isolated: issuing or validating a token for [q]
    leaves the tokens of every other principal [p] as they are, so that any
    later validation for [p] is answered as it would have been before. *)
Theorem principals_are_isolated (tokens : store) (p q digest tok tok' : string)
    (now now' : Z) :
  p ≠ q →
  let after_issue := (generate_token tokens q digest now).2 in
  let after_check := (validate_token tokens q tok now).2 in
  after_issue !! p = tokens !! p ∧ after_check !! p = tokens !! p ∧
  (validate_token after_issue p tok' now').1 = (validate_token tokens p tok' now').1 ∧
  (validate_token after_check p tok' now').1 = (validate_token tokens p tok' now').1.
Proof.
  intros Hne after_issue after_check.
  pose proof (generate_token_other tokens p q digest now Hne) as H1.
  pose proof (validate_token_other tokens p q tok now Hne) as H2.
  split; [done|]. split; [done|].
  split; by apply validate_token_depends.
Qed.

Lemma principals_are_isolated_witness :
  let tokens := (generate_token ∅ "user-1" "9f86d081" 0).2 in
  "user-1"%string ≠ "user-2"%string ∧
  let after_issue := (generate_token tokens "user-2" "aa11" 5).2 in
  let after_check := (validate_token tokens "user-2" "9f86d081" 5).2 in
  after_issue !! "user-1"%string = tokens !! "user-1"%string ∧
  after_check !! "user-1"%string = tokens !! "user-1"%string ∧
  (validate_token after_issue "user-1" "9f86d081" 10).1
    = (validate_token tokens "user-1" "9f86d081" 10).1 ∧
  (validate_token after_check "user-1" "9f86d081" 10).1
    = (validate_token tokens "user-1" "9f86d081" 10).1.
Proof.
  intros tokens.
  assert (H : "user-1"%string ≠ "user-2"%string) by done.
  exact (conj H (principals_are_isolated tokens "user-1" "user-2" "aa11"
                   "9f86d081" "9f86d081" 5 10 H)).
Defined.

(** X9.  Lazy eviction: right after [generate_token] at [now], the
    principal holds the new token, stamped [now], and otherwise exactly
    those of its earlier tokens that were issued less than 3600 seconds
    before [now], with their stamps unchanged. *)
Theorem generate_token_evicts (tokens : store) (p digest tok : string)
    (now issued : Z) :
  let d' := default ∅ ((generate_token tokens p digest now).2 !! p) in
  let d := default ∅ (tokens !! p) in
  d' !! digest = Some now ∧
  (tok ≠ digest →
   (d' !! tok = Some issued ↔ d !! tok = Some issued ∧ now - issued < 3600)).
Proof.
  intros d' d. unfold d'. rewrite generate_token_lookup. simpl.
  split; [by rewrite lookup_insert_eq|].
  intros Hne. rewrite lookup_insert_ne by done.
  rewrite map_lookup_filter_Some. done.
Qed.

(** The operations on the store, in the order in which they happen. *)
Inductive op : Type :=
| Issue (p digest : string) (now : Z)
| Validate (p tok : string) (now : Z).

Definition apply_op (s : store) (o : op) : store :=
  match o with
  | Issue p digest now => (generate_token s p digest now).2
  | Validate p tok now => (validate_token s p tok now).2
  end.

Definition play (s : store) (ops : list op) : store := fold_left apply_op ops s.

(** Every token in the store was handed out by an [Issue] of [ops]. *)
Definition all_issued (s : store) (ops : list op) : Prop :=
  ∀ p d tok t0, s !! p = Some d → d !! tok = Some t0 → Issue p tok t0 ∈ ops.

Lemma all_issued_step s ops o :
  all_issued s ops → all_issued (apply_op s o) (ops ++ [o]).
Proof.
  intros Hs p d tok t0 Hp Htok. apply elem_of_app.
  destruct o as [q digest now | q tok' now]; unfold apply_op in Hp.
  - destruct (decide (p = q)) as [->|Hne].
    + rewrite generate_token_lookup in Hp. injection Hp as <-.
      destruct (decide (tok = digest)) as [->|Hd].
      * rewrite lookup_insert_eq in Htok. injection Htok as <-.
        right. by apply list_elem_of_singleton.
      * rewrite lookup_insert_ne in Htok by done.
        apply map_lookup_filter_Some in Htok as [Htok _].
        destruct (s !! q) as [d0|] eqn:Hq; simpl in Htok; [|done].
        left. by eapply Hs.
    + rewrite generate_token_other in Hp by done. left. by eapply Hs.
  - destruct (decide (p = q)) as [->|Hne].
    + left. unfold validate_token in Hp.
      destruct (decide (q = ""%string ∨ tok' = ""%string)); [by eapply Hs|].
      destruct (s !! q) as [d0|] eqn:Hq; [|simpl in Hp; congruence].
      destruct (d0 !! tok') as [issued|] eqn:Ht.
      * assert (d = delete tok' d0) as ->.
        { destruct (decide (now - issued > 3600)); simpl in Hp;
            rewrite lookup_insert_eq in Hp; congruence. }
        apply lookup_delete_Some in Htok as [_ Htok]. by eapply Hs.
      * simpl in Hp. rewrite Hq in Hp. injection Hp as <-. by eapply Hs.
    + rewrite validate_token_other in Hp by done. left. by eapply Hs.
Qed.

Lemma all_issued_play ops : ∀ s prefix,
  all_issued s prefix → all_issued (play s ops) (prefix ++ ops).
Proof.
  induction ops as [|o ops IH]; intros s prefix Hs; simpl.
  - by rewrite app_nil_r.
  - change (o :: ops) with ([o] ++ ops). rewrite (assoc_L (++) prefix [o] ops).
    apply IH. by apply all_issued_step.
Qed.

(** X10.  No forgery: starting from the empty store, after any sequence of
    [generate_token] and [validate_token] calls, a token is accepted for a
    principal only if an earlier [generate_token] handed that very token to
    that very principal, no more than 3600 seconds before. *)
Theorem accepted_tokens_were_issued (ops : list op) (p tok : string) (now : Z) :
  (validate_token (play ∅ ops) p tok now).1 = true →
  ∃ t0, Issue p tok t0 ∈ ops ∧ now - t0 <= 3600.
Proof.
  intros Hv.
  assert (Hall : all_issued (play ∅ ops) ops).
  { apply (all_issued_play ops ∅ []). intros ???? H. by rewrite lookup_empty in H. }
  unfold validate_token in Hv.
  destruct (decide _); [done|].
  destruct (play ∅ ops !! p) as [d|] eqn:Hp; [|done].
  destruct (d !! tok) as [t0|] eqn:Ht; [|done].
  destruct (decide (now - t0 > 3600)); [done|].
  exists t0. split; [by eapply Hall | lia].
Qed.

Lemma accepted_tokens_were_issued_witness :
  let ops := [Issue "user-1" "9f86d081" 0; Validate "user-2" "9f86d081" 5] in
  (validate_token (play ∅ ops) "user-1" "9f86d081" 10).1 = true ∧
  ∃ t0, Issue "user-1" "9f86d081" t0 ∈ ops ∧ 10 - t0 <= 3600.
Proof.
  intros ops.
  assert (H : (validate_token (play ∅ ops) "user-1" "9f86d081" 10).1 = true)
    by (vm_compute; reflexivity).
  exact (conj H (accepted_tokens_were_issued ops "user-1" "9f86d081" 10 H)).
Defined.

End CSRFProtectionMore.

(* ===================================================================== *)
(** * Part V: further properties of the input validator                   *)
(* ===================================================================== *)

Module SecurityValidatorMore.
Import Re SecurityValidator SecurityValidatorFacts.

Lemma notag_of_search s : ∀ prev, search_from tag_pattern prev s = false → notag s.
Proof.
  induction s as [|c s IH]; intros prev H; [done|].
  rewrite search_from_cons, matches_tag_pattern in H.
  apply orb_false_iff in H as [H1 H2]. split; [|by eapply IH].
  intros Hc. rewrite Hc in H1. simpl in H1. by destruct (after_gt s).
Qed.

Lemma clean_nil n : clean n [].
Proof. split; simpl; try done; lia. Qed.

Lemma sanitize_chars_is_clean s n : 0 <= n → clean n (sanitize_chars s n).
Proof.
  intros Hn. unfold sanitize_chars. destruct s as [|c s]; [apply clean_nil|].
  destruct (check_sql_injection_chars (c :: s)); [apply clean_nil|].
  by apply clean_steps.
Qed.

Lemma length_string_of_list_ascii l :
  String.length (string_of_list_ascii l) = length l.
Proof. induction l as [|c l IH]; simpl; [done|]. by rewrite IH. Qed.

Lemma length_list_ascii_of_string s :
  length (list_ascii_of_string s) = String.length s.
Proof. induction s as [|c s IH]; simpl; [done|]. by rewrite IH. Qed.

(** X11.  What [sanitize_input] returns, for a [max_length >= 0]: at most
    [max_length] characters, no character with a code below 32 other than
    newline, carriage return and tab (DEL and the controls U+0080 to U+009F
    pass the filter [ord(char) >= 32] and may remain), no match of
    [<[^>]*>] (no complete tag), and no white space at either end. *)
Theorem sanitize_input_output (text : string) (max_length : Z) :
  0 <= max_length →
  let out := sanitize_input text max_length in
  Z.of_nat (String.length out) <= max_length ∧
  Forall (λ c, (32 <= ord c)%N ∨ c = "010"%char ∨ c = "013"%char ∨ c = "009"%char)
    (list_ascii_of_string out) ∧
  search tag_pattern (list_ascii_of_string out) = false ∧
  str_strip out = out.
Proof.
  intros Hn out. unfold out, sanitize_input, str_strip.
  destruct (sanitize_chars_is_clean (list_ascii_of_string text) max_length Hn)
    as [H1 H2 H3 H4].
  rewrite length_string_of_list_ascii, list_ascii_of_string_of_list_ascii.
  split; [lia|]. split; [|split; [by apply search_from_notag | by rewrite H4]].
  eapply Forall_impl; [exact H1|]. intros c. unfold printable, same.
  rewrite !orb_true_iff, N.leb_le, !Ascii.eqb_eq. tauto.
Qed.

Lemma sanitize_input_output_witness :
  0 <= 5 ∧
  let out := sanitize_input "  <b>Kids</b> Yoga " 5 in
  Z.of_nat (String.length out) <= 5 ∧
  Forall (λ c, (32 <= ord c)%N ∨ c = "010"%char ∨ c = "013"%char ∨ c = "009"%char)
    (list_ascii_of_string out) ∧
  search tag_pattern (list_ascii_of_string out) = false ∧
  str_strip out = out.
Proof.
  assert (H : 0 <= 5) by lia.
  exact (conj H (sanitize_input_output "  <b>Kids</b> Yoga " 5 H)).
Defined.

(** X12.  Text that needs no cleaning is returned as it is: if a text is
    not flagged by the injection heuristic, has no control character, no
    match of [<[^>]*>], no white space at either end and at most
    [max_length] characters, [sanitize_input] returns it unchanged. *)
Theorem sanitize_input_fixed_point (text : string) (max_length : Z) :
  check_sql_injection text = false →
  Forall (λ c, printable c = true) (list_ascii_of_string text) →
  search tag_pattern (list_ascii_of_string text) = false →
  str_strip text = text →
  Z.of_nat (String.length text) <= max_length →
  sanitize_input text max_length = text.
Proof.
  intros Hc Hp Ht Hs Hl. unfold sanitize_input.
  rewrite <- (string_of_list_ascii_of_string text) at 2. f_equal.
  apply sanitize_chars_clean; [lia| |done].
  split; [done| by eapply notag_of_search | |].
  - rewrite length_list_ascii_of_string. lia.
  - unfold str_strip in Hs.
    apply (f_equal list_ascii_of_string) in Hs.
    by rewrite list_ascii_of_string_of_list_ascii in Hs.
Qed.

Lemma sanitize_input_fixed_point_witness :
  check_sql_injection "Kids Yoga" = false ∧
  Forall (λ c, printable c = true) (list_ascii_of_string "Kids Yoga") ∧
  search tag_pattern (list_ascii_of_string "Kids Yoga") = false ∧
  str_strip "Kids Yoga" = "Kids Yoga"%string ∧
  Z.of_nat (String.length "Kids Yoga") <= 200 ∧
  sanitize_input "Kids Yoga" 200 = "Kids Yoga"%string.
Proof.
  assert (H1 : check_sql_injection "Kids Yoga" = false) by (vm_compute; reflexivity).
  assert (H2 : Forall (λ c, printable c = true) (list_ascii_of_string "Kids Yoga"))
    by (simpl; repeat constructor).
  assert (H3 : search tag_pattern (list_ascii_of_string "Kids Yoga") = false)
    by (vm_compute; reflexivity).
  assert (H4 : str_strip "Kids Yoga" = "Kids Yoga"%string) by (vm_compute; reflexivity).
  assert (H5 : Z.of_nat (String.length "Kids Yoga") <= 200) by (simpl; lia).
  exact (conj H1 (conj H2 (conj H3 (conj H4 (conj H5
    (sanitize_input_fixed_point "Kids Yoga" 200 H1 H2 H3 H4 H5)))))).
Defined.

(** *** Substrings that trip the heuristics *)

Lemma search_from_inside r pre mid :
  (∀ prev, matches r prev mid (λ _ _, true) = true) →
  ∀ prev, search_from r prev (pre ++ mid) = true.
Proof.
  intros Hm. induction pre as [|c pre IH]; intros prev; simpl app.
  - destruct mid as [|c mid]; simpl; by rewrite Hm.
  - rewrite search_from_cons, IH. apply orb_true_r.
Qed.

Lemma matches_lit w : ∀ prev rest,
  matches (lit w) prev (list_ascii_of_string w ++ rest) (λ _ _, true) = true.
Proof.
  induction w as [|c w IH]; intros prev rest; [done|].
  change (matches (lit (String c w)) prev (list_ascii_of_string (String c w) ++ rest)
            (λ _ _, true))
    with (same c c && matches (lit w) (Some c) (list_ascii_of_string w ++ rest)
                        (λ _ _, true)).
  rewrite IH. unfold same. by rewrite Ascii.eqb_refl.
Qed.

Lemma lower_nil_inv l : lower l = [] → l = [].
Proof. by destruct l. Qed.

(** X13.  Any text that contains [exec], [sp_] or [xp_], in any letter
    case and anywhere (inside a word as well), is flagged by
    [check_sql_injection], and [sanitize_input] therefore returns the empty
    string for it. *)
Theorem exec_substring_is_flagged (text w : string) (pre post : list ascii)
    (max_length : Z) :
  w ∈ ["exec"; "sp_"; "xp_"]%string →
  lower (list_ascii_of_string text) = pre ++ list_ascii_of_string w ++ post →
  check_sql_injection text = true ∧ sanitize_input text max_length = ""%string.
Proof.
  intros Hw Hlow.
  assert (Hc : check_sql_injection text = true).
  { unfold check_sql_injection, check_sql_injection_chars.
    destruct (list_ascii_of_string text) as [|c l] eqn:Ht.
    { simpl in Hlow. destruct pre, w; try done.
      repeat (apply elem_of_cons in Hw as [Hw|Hw]; [done|]).
      by apply elem_of_nil in Hw. }
    rewrite Hlow. apply existsb_exists.
    exists (words ["exec"; "execute"; "sp_"; "xp_"]%string). split.
    { unfold sql_patterns. simpl. tauto. }
    apply search_from_inside. intros prev.
    change (matches (words ["exec"; "execute"; "sp_"; "xp_"]%string) prev
              (list_ascii_of_string w ++ post) (λ _ _, true))
      with (matches (lit "exec") prev (list_ascii_of_string w ++ post) (λ _ _, true)
            || (matches (lit "execute") prev (list_ascii_of_string w ++ post) (λ _ _, true)
            || (matches (lit "sp_") prev (list_ascii_of_string w ++ post) (λ _ _, true)
            || matches (lit "xp_") prev (list_ascii_of_string w ++ post) (λ _ _, true)))).
    repeat (apply elem_of_cons in Hw as [->|Hw]);
      [| | |by apply elem_of_nil in Hw];
      rewrite matches_lit; by rewrite ?orb_true_r. }
  split; [done|]. unfold sanitize_input, sanitize_chars.
  unfold check_sql_injection in Hc. rewrite Hc.
  by destruct (list_ascii_of_string text).
Qed.

Lemma exec_substring_is_flagged_witness :
  "exec"%string ∈ ["exec"; "sp_"; "xp_"]%string ∧
  lower (list_ascii_of_string "Executive chess")
    = [] ++ list_ascii_of_string "exec" ++ list_ascii_of_string "utive chess" ∧
  check_sql_injection "Executive chess" = true ∧
  sanitize_input "Executive chess" 200 = ""%string.
Proof.
  assert (H1 : "exec"%string ∈ ["exec"; "sp_"; "xp_"]%string) by constructor.
  assert (H2 : lower (list_ascii_of_string "Executive chess")
               = [] ++ list_ascii_of_string "exec" ++ list_ascii_of_string "utive chess")
    by (vm_compute; reflexivity).
  exact (conj H1 (conj H2
    (exec_substring_is_flagged "Executive chess" "exec" [] _ 200 H1 H2))).
Defined.

Lemma eat_replicate n c rest : eat n c (replicate n c ++ rest) = Some rest.
Proof.
  induction n as [|n IH]; simpl; [done|]. by rewrite Ascii.eqb_refl.
Qed.

(** X14.  Any text in which some character other than a newline occurs
    eleven times in a row (after lower-casing) is flagged by
    [detect_spam_patterns]. *)
Theorem long_run_is_spam (text : string) (c : ascii) (pre post : list ascii) :
  c ≠ "010"%char →
  lower (list_ascii_of_string text) = pre ++ replicate 11 c ++ post →
  detect_spam_patterns text = true.
Proof.
  intros Hc Hlow. unfold detect_spam_patterns.
  destruct (list_ascii_of_string text) as [|c0 l] eqn:Ht.
  { simpl in Hlow. by destruct pre. }
  rewrite Hlow. apply existsb_exists. exists (Again 10). split.
  { unfold spam_indicators. simpl. tauto. }
  apply search_from_inside. intros prev.
  change (replicate 11 c ++ post) with (c :: (replicate 10 c ++ post)).
  cbn [matches]. rewrite eat_replicate.
  assert (dot c = true) as ->.
  { unfold dot, same. apply negb_true_iff. by apply Ascii.eqb_neq. }
  by destruct post.
Qed.

Lemma long_run_is_spam_witness :
  "!"%char ≠ "010"%char ∧
  lower (list_ascii_of_string "Great!!!!!!!!!!! place")
    = list_ascii_of_string "great" ++ replicate 11 "!"%char
        ++ list_ascii_of_string " place" ∧
  detect_spam_patterns "Great!!!!!!!!!!! place" = true.
Proof.
  assert (H1 : "!"%char ≠ "010"%char) by done.
  assert (H2 : lower (list_ascii_of_string "Great!!!!!!!!!!! place")
               = list_ascii_of_string "great" ++ replicate 11 "!"%char
                   ++ list_ascii_of_string " place") by (vm_compute; reflexivity).
  exact (conj H1 (conj H2 (long_run_is_spam "Great!!!!!!!!!!! place" "!" _ _ H1 H2))).
Defined.

End SecurityValidatorMore.

(* ===================================================================== *)
(** * Part VI: the format checks of SecurityValidator                     *)
(* ===================================================================== *)

Module FormatChecks.
Import Re.

(** Where [$] matches: at the end of the text, or just before a newline
    that ends it. *)
Definition at_end (rest : list ascii) : bool :=
  match rest with
  | [] => true
  | [c] => same "010" c
  | _ => false
  end.

(** [re.match(r, s)] as a truth value, for a pattern [r$]. *)
Definition match_to_end (r : re) (s : list ascii) : bool :=
  matches r None s (λ _ rest, at_end rest).

(** [r{0,n}] and [r{lo,hi}]. *)
Fixpoint upto (n : nat) (r : re) : re :=
  match n with
  | O => Eps
  | S n' => opt (Cat r (upto n' r))
  end.

Fixpoint copies (n : nat) (r rest : re) : re :=
  match n with
  | O => rest
  | S n' => Cat r (copies n' r rest)
  end.

Definition range (lo hi : nat) (r : re) : re := copies lo r (upto (hi - lo) r).

(** The classes [[a-zA-Z0-9._%+-]], [[a-zA-Z0-9.-]], [[a-zA-Z]], [[0-9]]. *)
Definition ascii_letter (c : ascii) : bool := between 97 122 c || between 65 90 c.
Definition ascii_digit (c : ascii) : bool := between 48 57 c.
Definition email_local (c : ascii) : bool :=
  ascii_letter c || ascii_digit c || same "." c || same "_" c || same "%" c ||
  same "+" c || same "-" c.
Definition email_domain (c : ascii) : bool :=
  ascii_letter c || ascii_digit c || same "." c || same "-" c.

(** [^[a-zA-Z0-9._%+-]+@[a-zA-Z0-9.-]+\.[a-zA-Z]{2,}$], without the [$]. *)
Definition email_pattern : re :=
  cats [plus (Cls email_local); chr "@"; plus (Cls email_domain); chr ".";
        at_least 2 (Cls ascii_letter)].

(** [validate_email(email)]. *)
Definition validate_email (email : string) : bool :=
  if decide (email = ""%string ∨ (254 < String.length email)%nat) then false
  else match_to_end email_pattern (list_ascii_of_string email).

(** The messages of [validate_password]. *)
Inductive password_message : Type :=
| PasswordRequired
| PasswordTooShort
| PasswordTooLong
| NoMessage.

(** [validate_password(password)]. *)
Definition validate_password (password : string) : bool * password_message :=
  if decide (password = ""%string) then (false, PasswordRequired)
  else if decide (String.length password < 6)%nat then (false, PasswordTooShort)
  else if decide (128 < String.length password)%nat then (false, PasswordTooLong)
  else (true, NoMessage).

(** [^[0-9]{9,13}$], without the [$]. *)
Definition eik_pattern : re := range 9 13 (Cls ascii_digit).

(** [validate_eik(eik)]. *)
Definition validate_eik (eik : string) : bool :=
  if decide (eik = ""%string) then true
  else match_to_end eik_pattern (list_ascii_of_string eik).

End FormatChecks.

Module FormatChecksFacts.
Import Re FormatChecks SecurityValidatorFacts.

Lemma bool_eq_of_iff (a b : bool) (P : Prop) :
  (a = true ↔ P) → (b = true ↔ P) → a = b.
Proof.
  destruct a, b; intros [H1 H2] [H3 H4]; try done.
  - by rewrite H4 by auto.
  - by rewrite H2 by auto.
Qed.

Lemma at_end_iff rest : at_end rest = true ↔ rest = [] ∨ rest = ["010"%char].
Proof.
  destruct rest as [|c [|d rest]]; simpl.
  - split; [by left | done].
  - rewrite same_true. split; [intros ->; by right | by intros [?|[= ->]]].
  - split; [done | by intros [?|?]].
Qed.

(** Matching [p*], [p+], [p{n,}], [p{0,n}] and [n] copies of [p] for a
    character class [p], when what follows does not look at the character
    before it. *)
Section Classes.
Variable p : ascii → bool.
Variable K : option ascii → list ascii → bool.
Hypothesis K_indep : ∀ p1 p2 r, K p1 r = K p2 r.

Lemma star_cls_iff s : ∀ prev,
  matches (Star (Cls p)) prev s K = true ↔
  ∃ s1 s2, s = s1 ++ s2 ∧ Forall (λ c, p c = true) s1 ∧ K None s2 = true.
Proof.
  induction s as [|c s IH]; intros prev; rewrite matches_star_cls.
  - rewrite orb_false_r. split.
    + intros H. exists [], []. by rewrite (K_indep None prev).
    + intros (s1 & s2 & Hs & _ & HK). symmetry in Hs.
      apply app_eq_nil in Hs as [-> ->]. by rewrite (K_indep prev None).
  - rewrite orb_true_iff, andb_true_iff, IH. split.
    + intros [H|[Hc (s1 & s2 & -> & Hp & HK)]].
      * exists [], (c :: s). by rewrite (K_indep None prev).
      * exists (c :: s1), s2. split; [done|]. split; [by constructor | done].
    + intros (s1 & s2 & Hs & Hp & HK). destruct s1 as [|d s1].
      * left. simpl in Hs. subst s2. by rewrite (K_indep prev None).
      * injection Hs as <- ->. apply Forall_cons in Hp as [? ?]. right.
        split; [done|]. by exists s1, s2.
Qed.

Lemma at_least_cls_iff n : ∀ s prev,
  matches (at_least n (Cls p)) prev s K = true ↔
  ∃ s1 s2, s = s1 ++ s2 ∧ Forall (λ c, p c = true) s1 ∧ (n <= length s1)%nat ∧
           K None s2 = true.
Proof.
  induction n as [|n IH]; intros s prev.
  - change (at_least 0 (Cls p)) with (Star (Cls p)). rewrite star_cls_iff.
    split; intros (s1 & s2 & ? & ? & ?); exists s1, s2; [|tauto].
    split_and!; try done. lia.
  - change (matches (at_least (S n) (Cls p)) prev s K)
      with (match s with
            | c :: s' => p c && matches (at_least n (Cls p)) (Some c) s' K
            | [] => false
            end).
    destruct s as [|c s].
    + split; [done|]. intros (s1 & s2 & Hs & _ & Hl & _). symmetry in Hs.
      apply app_eq_nil in Hs as [-> ->]. simpl in Hl. lia.
    + rewrite andb_true_iff, IH. split.
      * intros [Hc (s1 & s2 & -> & Hp & Hl & HK)]. exists (c :: s1), s2.
        split_and!; try done; [by constructor | simpl; lia].
      * intros (s1 & s2 & Hs & Hp & Hl & HK). destruct s1 as [|d s1];
          [simpl in Hl; lia|].
        injection Hs as <- ->. apply Forall_cons in Hp as [? ?].
        split; [done|]. exists s1, s2. split_and!; try done. simpl in Hl. lia.
Qed.

Lemma plus_cls_iff s prev :
  matches (plus (Cls p)) prev s K = true ↔
  ∃ s1 s2, s = s1 ++ s2 ∧ Forall (λ c, p c = true) s1 ∧ s1 ≠ [] ∧ K None s2 = true.
Proof.
  change (plus (Cls p)) with (at_least 1 (Cls p)). rewrite at_least_cls_iff.
  split; intros (s1 & s2 & ? & ? & Hl & ?); exists s1, s2; split_and!; try done.
  - intros ->. simpl in Hl. lia.
  - destruct s1; [done | simpl; lia].
Qed.

Lemma upto_cls_iff n : ∀ s prev,
  matches (upto n (Cls p)) prev s K = true ↔
  ∃ s1 s2, s = s1 ++ s2 ∧ Forall (λ c, p c = true) s1 ∧ (length s1 <= n)%nat ∧
           K None s2 = true.
Proof.
  induction n as [|n IH]; intros s prev.
  - simpl. rewrite (K_indep prev None). split.
    + intros H. exists [], s. split_and!; try done. 
    + intros (s1 & s2 & -> & _ & Hl & HK). by destruct s1; [|simpl in Hl; lia].
  - change (matches (upto (S n) (Cls p)) prev s K)
      with (match s with
            | c :: s' => p c && matches (upto n (Cls p)) (Some c) s' K
            | [] => false
            end || K prev s).
    rewrite (K_indep prev None), orb_true_iff. split.
    + intros [H|H].
      * destruct s as [|c s]; [done|]. apply andb_true_iff in H as [Hc H].
        apply IH in H as (s1 & s2 & -> & Hp & Hl & HK). exists (c :: s1), s2.
        split_and!; try done; [by constructor | simpl; lia].
      * exists [], s. split_and!; try done. simpl. lia.
    + intros (s1 & s2 & -> & Hp & Hl & HK). destruct s1 as [|c s1]; [by right|].
      left. apply Forall_cons in Hp as [Hc Hp]. simpl. rewrite Hc. simpl.
      apply IH. exists s1, s2. split_and!; try done. simpl in Hl. lia.
Qed.

End Classes.

Definition to_end : option ascii → list ascii → bool := λ _ rest, at_end rest.

Lemma copies_cls_iff (p : ascii → bool) (R : re) K n :
  (∀ p1 p2 x, matches R p1 x K = matches R p2 x K) →
  ∀ s prev,
  matches (copies n (Cls p) R) prev s K = true ↔
  ∃ s1 s2, s = s1 ++ s2 ∧ length s1 = n ∧ Forall (λ c, p c = true) s1 ∧
           matches R None s2 K = true.
Proof.
  intros HR. induction n as [|n IH]; intros s prev.
  - simpl copies. rewrite (HR prev None). split.
    + intros H. by exists [], s.
    + intros (s1 & s2 & -> & Hl & _ & H). by destruct s1.
  - change (matches (copies (S n) (Cls p) R) prev s K)
      with (match s with
            | c :: s' => p c && matches (copies n (Cls p) R) (Some c) s' K
            | [] => false
            end).
    destruct s as [|c s].
    + split; [done|]. intros (s1 & s2 & Hs & Hl & _). by destruct s1.
    + rewrite andb_true_iff, IH. split.
      * intros [Hc (s1 & s2 & -> & Hl & Hp & H)]. exists (c :: s1), s2.
        split_and!; try done; [simpl; lia | by constructor].
      * intros (s1 & s2 & Hs & Hl & Hp & H). destruct s1 as [|d s1]; [done|].
        injection Hs as <- ->. apply Forall_cons in Hp as [? ?].
        split; [done|]. exists s1, s2. split_and!; try done. simpl in Hl. lia.
Qed.

(** X15.  [validate_eik] accepts exactly: the empty text (the field is
    optional), and 9 to 13 ASCII digits, possibly followed by one newline
    (which the [$] of the pattern lets through). *)
Theorem validate_eik_iff (eik : string) :
  validate_eik eik = true ↔
  eik = ""%string ∨
  ∃ digits nl, list_ascii_of_string eik = digits ++ nl ∧
    Forall (λ c, ascii_digit c = true) digits ∧
    (9 <= length digits <= 13)%nat ∧ (nl = [] ∨ nl = ["010"%char]).
Proof.
  unfold validate_eik. destruct (decide (eik = ""%string)) as [->|Hne].
  { split; [by left | done]. }
  assert (Hup : ∀ prev x,
    matches (upto 4 (Cls ascii_digit)) prev x to_end = true ↔
    ∃ s1 s2, x = s1 ++ s2 ∧ Forall (λ c, ascii_digit c = true) s1 ∧
             (length s1 <= 4)%nat ∧ to_end None s2 = true).
  { intros prev x. by apply upto_cls_iff. }
  unfold match_to_end, eik_pattern, range. fold to_end.
  rewrite copies_cls_iff
    by (intros p1 p2 x; eapply bool_eq_of_iff; apply Hup).
  split.
  - intros (s1 & s2 & Hs & Hl & Hp & (s3 & nl & -> & Hp3 & Hl3 & Hend)%Hup).
    right. exists (s1 ++ s3), nl. rewrite Hs, <- app_assoc. split_and!; try done.
    + by apply Forall_app.
    + rewrite length_app. lia.
    + rewrite length_app. lia.
    + by apply at_end_iff.
  - intros [?|(digits & nl & Hs & Hp & [Hlo Hhi] & Hnl)]; [done|].
    exists (take 9 digits), (drop 9 digits ++ nl). split_and!.
    + by rewrite app_assoc, take_drop.
    + rewrite length_take. lia.
    + by apply Forall_take.
    + apply Hup. exists (drop 9 digits), nl. split_and!; try done.
      * by apply Forall_drop.
      * rewrite length_drop. lia.
      * by apply at_end_iff.
Qed.

(** The patterns that follow the local part in [email_pattern]. *)
Definition r_tld : re := Cat (at_least 2 (Cls ascii_letter)) Eps.
Definition r_dot : re := Cat (chr ".") r_tld.
Definition r_domain : re := Cat (plus (Cls email_domain)) r_dot.
Definition r_at : re := Cat (chr "@") r_domain.

Lemma r_tld_iff prev s :
  matches r_tld prev s to_end = true ↔
  ∃ tld nl, s = tld ++ nl ∧ Forall (λ c, ascii_letter c = true) tld ∧
            (2 <= length tld)%nat ∧ at_end nl = true.
Proof.
  change (matches r_tld prev s to_end)
    with (matches (at_least 2 (Cls ascii_letter)) prev s (λ p' s', to_end p' s')).
  by apply at_least_cls_iff.
Qed.

Lemma r_dot_iff prev s :
  matches r_dot prev s to_end = true ↔
  ∃ rest, s = "."%char :: rest ∧ matches r_tld None rest to_end = true.
Proof.
  change (matches r_dot prev s to_end)
    with (match s with
          | c :: s' => same "." c && matches r_tld (Some c) s' to_end
          | [] => false
          end).
  destruct s as [|c s]; [split; [done | by intros (? & ? & ?)]|].
  rewrite andb_true_iff, same_true.
  rewrite (bool_eq_of_iff _ _ _ (r_tld_iff (Some c) s) (r_tld_iff None s)).
  split; [intros [-> H]; eauto | intros (rest & [= -> ->] & H); done].
Qed.

Lemma r_domain_iff prev s :
  matches r_domain prev s to_end = true ↔
  ∃ domain rest, s = domain ++ rest ∧ Forall (λ c, email_domain c = true) domain ∧
                 domain ≠ [] ∧ matches r_dot None rest to_end = true.
Proof.
  change (matches r_domain prev s to_end)
    with (matches (plus (Cls email_domain)) prev s
            (λ p' s', matches r_dot p' s' to_end)).
  apply plus_cls_iff. intros p1 p2 x.
  eapply bool_eq_of_iff; apply r_dot_iff.
Qed.

Lemma r_at_iff prev s :
  matches r_at prev s to_end = true ↔
  ∃ rest, s = "@"%char :: rest ∧ matches r_domain None rest to_end = true.
Proof.
  change (matches r_at prev s to_end)
    with (match s with
          | c :: s' => same "@" c && matches r_domain (Some c) s' to_end
          | [] => false
          end).
  destruct s as [|c s]; [split; [done | by intros (? & ? & ?)]|].
  rewrite andb_true_iff, same_true.
  rewrite (bool_eq_of_iff _ _ _ (r_domain_iff (Some c) s) (r_domain_iff None s)).
  split; [intros [-> H]; eauto | intros (rest & [= -> ->] & H); done].
Qed.

(** X16.  [validate_email] accepts exactly the texts of at most 254
    characters of the form local@domain.tld, where local is a non-empty run
    of [[a-zA-Z0-9._%+-]], domain a non-empty run of [[a-zA-Z0-9.-]] and tld
    two or more ASCII letters, possibly followed by one newline. *)
Theorem validate_email_iff (email : string) :
  validate_email email = true ↔
  (String.length email <= 254)%nat ∧
  ∃ local domain tld nl,
    list_ascii_of_string email
      = local ++ "@"%char :: domain ++ "."%char :: tld ++ nl ∧
    local ≠ [] ∧ Forall (λ c, email_local c = true) local ∧
    domain ≠ [] ∧ Forall (λ c, email_domain c = true) domain ∧
    (2 <= length tld)%nat ∧ Forall (λ c, ascii_letter c = true) tld ∧
    (nl = [] ∨ nl = ["010"%char]).
Proof.
  unfold validate_email.
  destruct (decide (email = ""%string ∨ (254 < String.length email)%nat))
    as [[->|Hlong]|Hok].
  - split; [done|]. intros (_ & l & d & t & nl & Hs & Hl & _). by destruct l.
  - split; [done|]. intros [? _]. lia.
  - assert (Hlen : (String.length email <= 254)%nat) by (apply Nat.nlt_ge; tauto).
    unfold match_to_end. fold to_end.
    change (matches email_pattern None (list_ascii_of_string email) to_end)
      with (matches (plus (Cls email_local)) None (list_ascii_of_string email)
              (λ p' s', matches r_at p' s' to_end)).
    rewrite plus_cls_iff
      by (intros p1 p2 x; eapply bool_eq_of_iff; apply r_at_iff).
    split.
    + intros (l & s1 & Hs & Hpl & Hl & (s2 & -> & H2)%r_at_iff).
      apply r_domain_iff in H2 as (d & s3 & -> & Hpd & Hd & H3).
      apply r_dot_iff in H3 as (s4 & -> & H4).
      apply r_tld_iff in H4 as (t & nl & -> & Hpt & Ht & Hnl).
      split; [done|]. exists l, d, t, nl. split_and!; try done.
      by apply at_end_iff.
    + intros (_ & l & d & t & nl & Hs & Hl & Hpl & Hd & Hpd & Ht & Hpt & Hnl).
      exists l, ("@"%char :: d ++ "."%char :: t ++ nl). split_and!; try done.
      apply r_at_iff. eexists. split; [done|].
      apply r_domain_iff. exists d, ("."%char :: t ++ nl). split_and!; try done.
      apply r_dot_iff. eexists. split; [done|].
      apply r_tld_iff. exists t, nl. split_and!; try done. by apply at_end_iff.
Qed.

(** [validate_password] accepts exactly the passwords of 6 to 128
    characters, and names the reason otherwise. *)
Lemma validate_password_iff (password : string) :
  ((validate_password password).1 = true ↔
   (6 <= String.length password <= 128)%nat) ∧
  ((validate_password password).2 = PasswordRequired ↔ password = ""%string) ∧
  ((validate_password password).2 = PasswordTooShort ↔
   (1 <= String.length password < 6)%nat) ∧
  ((validate_password password).2 = PasswordTooLong ↔
   (128 < String.length password)%nat).
Proof.
  unfold validate_password.
  destruct (decide (password = ""%string)) as [->|Hne]; simpl.
  { split_and!; split; try done; simpl; lia. }
  assert (1 <= String.length password)%nat by (destruct password; [done | simpl; lia]).
  destruct (decide (String.length password < 6)%nat); simpl.
  { split_and!; split; try done; lia. }
  destruct (decide (128 < String.length password)%nat); simpl;
    split_and!; split; try done; lia.
Qed.

End FormatChecksFacts.

(* ===================================================================== *)
(** * Part VII: further properties of the handlers                        *)
(* ===================================================================== *)

Module SkillioHandlerMore.
Import Db SecurityValidator SkillioHandler SkillioHandlerFacts.

(** The role a request needs, and the user it comes from. *)
Definition needed_role (req : request) : string :=
  match req with
  | SubmitActivity _ _ _ _ _ _ => "parent"
  | ModerateSubmission _ _ _ _ => "admin"
  | ClaimAgency _ _ _ => "school"
  end.

Definition sender (req : request) : option user :=
  match req with
  | SubmitActivity current _ _ _ _ _ => current
  | ModerateSubmission current _ _ _ => current
  | ClaimAgency current _ _ => current
  end.

Lemma require_role_refuses current role :
  (∀ u, current = Some u → u_role u ≠ role) →
  ∃ r, require_role current [role] = inl r ∧ (r = Redirect "/login" ∨ r = Forbidden).
Proof.
  intros H. unfold require_role. destruct current as [u|]; [|eauto].
  rewrite decide_False; [eauto|].
  intros Hin%list_elem_of_singleton. by apply (H u).
Qed.

(** X17.  Authorisation: a request that does not come from a logged-in user
    with the role its handler asks for (parent to submit, admin to moderate,
    school to claim) is answered with the redirect to the login page or
    with 403, and changes nothing: neither the database nor the rate
    limiter. *)
Theorem unauthorised_request_changes_nothing (w : world) (req : request) :
  (∀ u, sender req = Some u → u_role u ≠ needed_role req) →
  let '(r, w') := do_POST w req in
  w' = w ∧ (r = Redirect "/login" ∨ r = Forbidden).
Proof.
  intros H.
  destruct (require_role_refuses (sender req) (needed_role req) H) as (r & Hr & Hor).
  destruct req as [cur ip data ts now aid | cur data sid aid | cur data cid];
    simpl in Hr |- *.
  - unfold handle_activity_submission. rewrite Hr. done.
  - unfold handle_moderate_submission. rewrite Hr. by destruct w.
  - unfold handle_agency_claim. rewrite Hr. by destruct w.
Qed.

Lemma unauthorised_request_changes_nothing_witness :
  let req := ModerateSubmission (Some parent1) approve_sub1 "school-1" "act-1" in
  (∀ u, sender req = Some u → u_role u ≠ needed_role req) ∧
  let '(r, w') := do_POST fresh_world req in
  w' = fresh_world ∧ (r = Redirect "/login" ∨ r = Forbidden).
Proof.
  intros req.
  assert (H : ∀ u, sender req = Some u → u_role u ≠ needed_role req)
    by (by intros u [= <-]).
  exact (conj H (unauthorised_request_changes_nothing fresh_world req H)).
Defined.

(** X18.  Rejecting a pending submission, whatever the number of columns of
    its row: the answer is 200 "rejected", no school and no activity is
    created, and the submission can then neither be approved nor rejected
    again (the answer is 404 and nothing changes). *)
Theorem reject_is_final (d : Db.t) (tb : table) (reviewer : user)
    (data data' : gmap string string) (sid action' : string) (submission : row)
    (school_id activity_id school_id' activity_id' : string) :
  u_role reviewer = "admin"%string →
  data !! "submission_id"%string = Some sid → sid ≠ ""%string →
  data !! "action"%string = Some "reject"%string →
  submitted_activities d = Some tb →
  select_pending tb sid = Some submission →
  data' !! "submission_id"%string = Some sid →
  data' !! "action"%string = Some action' → action' ∈ ["approve"; "reject"]%string →
  let '(r, d') :=
    handle_moderate_submission d (Some reviewer) data school_id activity_id in
  r = Json 200 true SubmissionRejected ∧
  schools d' = schools d ∧ activities d' = activities d ∧
  user_agency_claims d' = user_agency_claims d ∧
  handle_moderate_submission d' (Some reviewer) data' school_id' activity_id'
    = (Json 404 false SubmissionNotFound, d').
Proof.
  intros Hrole Hsid Hne Hact Htb Hsel Hsid' Hact' Hin.
  unfold handle_moderate_submission, require_role.
  rewrite Hrole, Hsid, Hact, Hsid', Hact'. rewrite decide_True by constructor.
  simpl default.
  rewrite decide_False by (intros [?|?]; done).
  rewrite decide_False by (intros Hn; apply Hn; repeat constructor).
  rewrite Htb, Hsel. rewrite decide_False by done.
  split_and!; try done.
  rewrite decide_False.
  2:{ intros [?| ->]; [done|].
      repeat (apply elem_of_cons in Hin as [Hin|Hin]; [done|]).
      by apply elem_of_nil in Hin. }
  rewrite decide_False by (intros Hn; by apply Hn).
  cbn [submitted_activities].
  by rewrite select_pending_after_update.
Qed.

Definition legacy_columns : list string :=
  ["id"; "submitted_by"; "activity_name"; "school_name"; "category"; "city";
   "neighborhood"; "age_range"; "price_range"; "description"; "contact_info";
   "personal_experience"; "status"; "created_at"]%string.

Definition legacy_row : row :=
  [Text "sub-9"; Text "p1"; Text "Kids Yoga"; Text "Harmony Center"; Text "Sports";
   Text "Sofia"; Text "Centre"; Text "5-12"; Text "80-120"; Text "Yoga for children";
   Text "0888123456"; Text "Very happy"; Text "pending"; Int 5].

Definition legacy_db : Db.t :=
  Db.Build (Some (Table legacy_columns [legacy_row])) [] [] [].

Definition reject_sub9 : gmap string string :=
  list_to_map [("submission_id", "sub-9"); ("action", "reject")]%string.

Definition approve_sub9 : gmap string string :=
  list_to_map [("submission_id", "sub-9"); ("action", "approve")]%string.

Lemma reject_is_final_witness :
  u_role admin1 = "admin"%string ∧
  reject_sub9 !! "submission_id"%string = Some "sub-9"%string ∧
  "sub-9"%string ≠ ""%string ∧
  reject_sub9 !! "action"%string = Some "reject"%string ∧
  submitted_activities legacy_db = Some (Table legacy_columns [legacy_row]) ∧
  select_pending (Table legacy_columns [legacy_row]) "sub-9" = Some legacy_row ∧
  approve_sub9 !! "submission_id"%string = Some "sub-9"%string ∧
  approve_sub9 !! "action"%string = Some "approve"%string ∧
  "approve"%string ∈ ["approve"; "reject"]%string ∧
  let '(r, d') :=
    handle_moderate_submission legacy_db (Some admin1) reject_sub9 "s-1" "a-1" in
  r = Json 200 true SubmissionRejected ∧
  schools d' = schools legacy_db ∧ activities d' = activities legacy_db ∧
  user_agency_claims d' = user_agency_claims legacy_db ∧
  handle_moderate_submission d' (Some admin1) approve_sub9 "s-2" "a-2"
    = (Json 404 false SubmissionNotFound, d').
Proof.
  assert (H1 : u_role admin1 = "admin"%string) by reflexivity.
  assert (H2 : reject_sub9 !! "submission_id"%string = Some "sub-9"%string)
    by (vm_compute; reflexivity).
  assert (H3 : "sub-9"%string ≠ ""%string) by done.
  assert (H4 : reject_sub9 !! "action"%string = Some "reject"%string)
    by (vm_compute; reflexivity).
  assert (H5 : submitted_activities legacy_db
               = Some (Table legacy_columns [legacy_row])) by reflexivity.
  assert (H6 : select_pending (Table legacy_columns [legacy_row]) "sub-9"
               = Some legacy_row) by (vm_compute; reflexivity).
  assert (H7 : approve_sub9 !! "submission_id"%string = Some "sub-9"%string)
    by (vm_compute; reflexivity).
  assert (H8 : approve_sub9 !! "action"%string = Some "approve"%string)
    by (vm_compute; reflexivity).
  assert (H9 : "approve"%string ∈ ["approve"; "reject"]%string) by constructor.
  exact (conj H1 (conj H2 (conj H3 (conj H4 (conj H5 (conj H6 (conj H7 (conj H8
    (conj H9 (reject_is_final legacy_db _ admin1 reject_sub9 approve_sub9 "sub-9"
                "approve" legacy_row "s-1" "a-1" "s-2" "a-2"
                H1 H2 H3 H4 H5 H6 H7 H8 H9)))))))))).
Defined.

(** X19.  Approving a pending submission whose row has at least ten
    columns (the layout in which column 9 is the description): exactly one
    school and one activity are added, both owned by the reviewer and marked
    verified, the activity linked to the school and open to ages 3 to 18;
    the claims are untouched; and any further approval or rejection of the
    same submission is answered 404 and changes nothing. *)
Theorem approval_provisions_once (d : Db.t) (tb : table) (reviewer : user)
    (data : gmap string string) (sid : string) (submission : row)
    (school_id activity_id : string) :
  u_role reviewer = "admin"%string →
  data !! "submission_id"%string = Some sid → sid ≠ ""%string →
  data !! "action"%string = Some "approve"%string →
  submitted_activities d = Some tb →
  select_pending tb sid = Some submission →
  (10 <= length submission)%nat →
  ∃ new_school new_activity d',
    handle_moderate_submission d (Some reviewer) data school_id activity_id
      = (Json 200 true SubmissionApproved, d') ∧
    schools d' = schools d ++ [new_school] ∧
    activities d' = activities d ++ [new_activity] ∧
    user_agency_claims d' = user_agency_claims d ∧
    s_id new_school = Text school_id ∧
    Some (s_name new_school) = submission !! 3%nat ∧
    Some (s_city new_school) = submission !! 5%nat ∧
    s_verified new_school = Int 1 ∧
    s_created_by new_school = Text (u_id reviewer) ∧
    a_id new_activity = Text activity_id ∧
    a_school_id new_activity = Text school_id ∧
    Some (a_title new_activity) = submission !! 2%nat ∧
    Some (a_category new_activity) = submission !! 4%nat ∧
    a_age_min new_activity = Int 3 ∧ a_age_max new_activity = Int 18 ∧
    a_verified new_activity = Int 1 ∧
    a_created_by new_activity = Text (u_id reviewer) ∧
    ∀ action' data' school_id' activity_id',
      data' !! "submission_id"%string = Some sid →
      data' !! "action"%string = Some action' →
      (handle_moderate_submission d' (Some reviewer) data' school_id' activity_id'
         = (Json 404 false SubmissionNotFound, d')) ∨
      ((action' ∉ ["approve"; "reject"]%string) ∧
       (handle_moderate_submission d' (Some reviewer) data' school_id' activity_id').2
         = d').
Proof.
  intros Hrole Hsid Hne Hact Htb Hsel Hlen.
  destruct (lookup_lt_is_Some_2 submission 3 ltac:(lia)) as [v3 H3].
  destruct (lookup_lt_is_Some_2 submission 9 ltac:(lia)) as [v9 H9].
  destruct (lookup_lt_is_Some_2 submission 5 ltac:(lia)) as [v5 H5].
  destruct (lookup_lt_is_Some_2 submission 2 ltac:(lia)) as [v2 H2].
  destruct (lookup_lt_is_Some_2 submission 4 ltac:(lia)) as [v4 H4].
  eexists _, _, _. unfold handle_moderate_submission at 1. unfold require_role.
  rewrite Hrole, Hsid, Hact. rewrite decide_True by constructor. simpl default.
  rewrite decide_False by (intros [?|?]; done).
  rewrite decide_False by (intros Hn; apply Hn; constructor).
  rewrite Htb, Hsel. rewrite decide_True by done.
  unfold approve. rewrite H3, H9, H5, H2, H4.
  split; [reflexivity|]. cbn [schools activities user_agency_claims].
  split_and!; try done.
  intros action' data' s' a' Hsid' Hact'.
  unfold handle_moderate_submission, require_role.
  rewrite Hrole, Hsid', Hact'. rewrite decide_True by constructor. simpl default.
  destruct (decide (sid = ""%string ∨ action' = ""%string)) as [[?| ->]|_]; [done| |].
  { right. split; [|done]. intros Hin.
    repeat (apply elem_of_cons in Hin as [Hin|Hin]; [done|]).
    by apply elem_of_nil in Hin. }
  destruct (decide (action' ∉ ["approve"; "reject"]%string)); [by right|].
  left. cbn [submitted_activities].
  by rewrite select_pending_after_update.
Qed.

Lemma approval_provisions_once_witness :
  u_role admin1 = "admin"%string ∧
  approve_sub9 !! "submission_id"%string = Some "sub-9"%string ∧
  "sub-9"%string ≠ ""%string ∧
  approve_sub9 !! "action"%string = Some "approve"%string ∧
  submitted_activities legacy_db = Some (Table legacy_columns [legacy_row]) ∧
  select_pending (Table legacy_columns [legacy_row]) "sub-9" = Some legacy_row ∧
  (10 <= length legacy_row)%nat ∧
  ∃ new_school new_activity d',
    handle_moderate_submission legacy_db (Some admin1) approve_sub9 "s-1" "a-1"
      = (Json 200 true SubmissionApproved, d') ∧
    schools d' = schools legacy_db ++ [new_school] ∧
    activities d' = activities legacy_db ++ [new_activity] ∧
    s_created_by new_school = Text (u_id admin1) ∧
    a_age_min new_activity = Int 3 ∧ a_age_max new_activity = Int 18.
Proof.
  assert (H1 : u_role admin1 = "admin"%string) by reflexivity.
  assert (H2 : approve_sub9 !! "submission_id"%string = Some "sub-9"%string)
    by (vm_compute; reflexivity).
  assert (H3 : "sub-9"%string ≠ ""%string) by done.
  assert (H4 : approve_sub9 !! "action"%string = Some "approve"%string)
    by (vm_compute; reflexivity).
  assert (H5 : submitted_activities legacy_db
               = Some (Table legacy_columns [legacy_row])) by reflexivity.
  assert (H6 : select_pending (Table legacy_columns [legacy_row]) "sub-9"
               = Some legacy_row) by (vm_compute; reflexivity).
  assert (H7 : (10 <= length legacy_row)%nat) by (simpl; lia).
  split_and!; try done.
  destruct (approval_provisions_once legacy_db _ admin1 approve_sub9 "sub-9"
              legacy_row "s-1" "a-1" H1 H2 H3 H4 H5 H6 H7)
    as (ns & na & d' & Hr & Hs & Ha & _ & _ & _ & _ & _ & Hc & _ & _ & _ & _ & Hmin
        & Hmax & _).
  exists ns, na, d'. split_and!; done.
Defined.

(** X20.  Moderation never touches another submission: whatever the
    request and its outcome, the table keeps its columns and its number of
    rows, and every row whose id is not the submission id of the request is
    left exactly as it was. *)
Theorem moderation_leaves_other_submissions (d : Db.t) (tb : table)
    (current : option user) (data : gmap string string)
    (school_id activity_id : string) :
  submitted_activities d = Some tb →
  let sid := default ""%string (data !! "submission_id"%string) in
  let d' := (handle_moderate_submission d current data school_id activity_id).2 in
  ∃ tb', submitted_activities d' = Some tb' ∧
    columns tb' = columns tb ∧ length (rows tb') = length (rows tb) ∧
    ∀ (i : nat) r, rows tb !! i = Some r →
      field (columns tb) "id" r ≠ Some (Text sid) → rows tb' !! i = Some r.
Proof.
  intros Htb sid d'.
  assert (Hupd : ∀ st, ∃ tb', Some (update_status tb sid st) = Some tb' ∧
    columns tb' = columns tb ∧ length (rows tb') = length (rows tb) ∧
    ∀ (i : nat) r, rows tb !! i = Some r →
      field (columns tb) "id" r ≠ Some (Text sid) → rows tb' !! i = Some r).
  { intros st. eexists. split; [done|]. simpl. split; [done|].
    split; [by rewrite length_map|].
    intros i r Hi Hid. rewrite list_lookup_fmap, Hi. simpl.
    by rewrite decide_False. }
  assert (Hsame : ∃ tb', Some tb = Some tb' ∧
    columns tb' = columns tb ∧ length (rows tb') = length (rows tb) ∧
    ∀ (i : nat) r, rows tb !! i = Some r →
      field (columns tb) "id" r ≠ Some (Text sid) → rows tb' !! i = Some r)
    by (exists tb; done).
  unfold d', handle_moderate_submission. fold sid.
  destruct (require_role current _) as [?|u]; simpl; [by rewrite Htb|].
  destruct (decide _); simpl; [by rewrite Htb|].
  destruct (decide _); simpl; [by rewrite Htb|].
  rewrite Htb.
  destruct (select_pending tb sid) as [submission|]; simpl; [|by rewrite Htb].
  destruct (decide _); simpl; [|apply Hupd].
  destruct (approve _ _ _ _ _ _ _) as [ex|d2] eqn:Happ; simpl; [by rewrite Htb|].
  unfold approve in Happ.
  destruct (submission !! 3%nat), (submission !! 9%nat), (submission !! 5%nat),
    (submission !! 2%nat), (submission !! 4%nat); try discriminate.
  injection Happ as <-. simpl. apply Hupd.
Qed.

Lemma moderation_leaves_other_submissions_witness :
  submitted_activities legacy_db = Some (Table legacy_columns [legacy_row]) ∧
  ∃ tb', submitted_activities
           (handle_moderate_submission legacy_db (Some admin1) approve_sub1
              "s-1" "a-1").2 = Some tb' ∧
         rows tb' !! 0%nat = Some legacy_row.
Proof.
  assert (H : submitted_activities legacy_db
              = Some (Table legacy_columns [legacy_row])) by reflexivity.
  split; [exact H|].
  destruct (moderation_leaves_other_submissions legacy_db _ (Some admin1)
              approve_sub1 "s-1" "a-1" H) as (tb' & Htb' & _ & _ & Hrows).
  exists tb'. split; [exact Htb'|]. apply Hrows; [reflexivity|].
  vm_compute. discriminate.
Defined.

(** X21.  When a claim is accepted.  [handle_agency_claim] answers 200
    exactly when the sender has the role school, names a school that
    exists, has no pending claim of its own on that school, and the new id
    is not taken; it then adds exactly one pending claim for the sender, and
    in every other case it changes nothing.  Who owns the school, and the
    claims of other users on it, play no part. *)
Theorem claim_accepted_iff (d : Db.t) (u : user) (data : gmap string string)
    (claim_id : string) :
  let a := default ""%string (data !! "agency_id"%string) in
  let accepted :=
    u_role u = "school"%string ∧ a ≠ ""%string ∧
    Exists (λ s, s_id s = Text a) (schools d) ∧
    ¬ Exists (is_pending (u_id u) a) (user_agency_claims d) ∧
    ¬ Exists (λ c, cl_id c = claim_id) (user_agency_claims d) in
  let '(r, d') := handle_agency_claim d (Some u) data claim_id in
  ((∃ name, r = Json 200 true (ClaimSent name)) ↔ accepted) ∧
  (accepted →
   d' = Db.Build (submitted_activities d) (schools d) (activities d)
          (user_agency_claims d ++ [Claim claim_id (u_id u) a "pending"])) ∧
  (¬ accepted → d' = d).
Proof.
  intros a accepted. unfold handle_agency_claim, require_role. fold a.
  assert (Hrefused : ∀ r0 : response, (∀ name, r0 ≠ Json 200 true (ClaimSent name)) →
            ¬ accepted →
            ((∃ name, r0 = Json 200 true (ClaimSent name)) ↔ accepted) ∧
            (accepted → d = Db.Build (submitted_activities d) (schools d) (activities d)
               (user_agency_claims d ++ [Claim claim_id (u_id u) a "pending"])) ∧
            (¬ accepted → d = d)).
  { intros r0 Hr0 Hn. split_and!; [split| |done]; try done.
    intros [name ?]. by destruct (Hr0 name). }
  destruct (decide (u_role u ∈ ["school"%string])) as [Hr%list_elem_of_singleton|Hr].
  2:{ destruct (Hrefused Forbidden) as (? & ? & ?); [done| |done].
      intros (Hrole & _). apply Hr. rewrite Hrole. constructor. }
  destruct (decide (a = ""%string)) as [Ha|Ha].
  { apply Hrefused; [done | by intros (_ & ? & _)]. }
  destruct (list_find _ (schools d)) as [[i agency]|] eqn:Hfind.
  2:{ apply list_find_None in Hfind. apply Hrefused; [done|].
      intros (_ & _ & (s & Hs & Hid)%Exists_exists & _).
      rewrite Forall_forall in Hfind. by apply (Hfind s Hs). }
  assert (Hex : Exists (λ s, s_id s = Text a) (schools d)).
  { apply list_find_Some in Hfind as (Hl & Hid & _).
    apply Exists_exists. exists agency. split; [|done]. by eapply list_elem_of_lookup_2. }
  destruct (decide (Exists (is_pending (u_id u) a) (user_agency_claims d))).
  { apply Hrefused; [done | by intros (_ & _ & _ & ? & _)]. }
  destruct (decide (Exists (λ c, cl_id c = claim_id) (user_agency_claims d))).
  { apply Hrefused; [done | by intros (_ & _ & _ & _ & ?)]. }
  assert (accepted) as Hacc by done.
  split_and!; [split; [done | by eauto] | done | intros Hn; by destruct (Hn Hacc)].
Qed.

Lemma available_agencies_claimable d user_id s :
  s ∈ available_agencies d user_id →
  claimable user_id (user_agency_claims d) s ∧ s ∈ schools d.
Proof.
  intros Hs. unfold available_agencies in Hs.
  pose proof (elem_of_sublist _ _ _ Hs (sublist_take _ _)) as Hs'.
  rewrite order_by_name_perm in Hs'.
  by apply list_elem_of_filter in Hs'.
Qed.

(** X22.  A claimed school leaves the list: once [handle_agency_claim] has
    accepted a claim of a principal on a school, [available_agencies] no
    longer offers that school to that principal. *)
Theorem claimed_school_is_no_longer_offered (d : Db.t) (u : user)
    (data : gmap string string) (claim_id : string) (name : value) (d' : Db.t)
    (s : school) :
  handle_agency_claim d (Some u) data claim_id
    = (Json 200 true (ClaimSent name), d') →
  s ∈ available_agencies d' (u_id u) →
  s_id s ≠ Text (default ""%string (data !! "agency_id"%string)).
Proof.
  intros Hclaim Hs Hid.
  apply available_agencies_claimable in Hs as [[_ (i & Hi & Hall)] _].
  rewrite Hid in Hi. injection Hi as <-.
  assert (Hd' : user_agency_claims d' = user_agency_claims d ++
            [Claim claim_id (u_id u) (default ""%string (data !! "agency_id"%string))
               "pending"]).
  { unfold handle_agency_claim, require_role in Hclaim.
    destruct (decide (u_role u ∈ ["school"%string])); [|done].
    repeat (case_match; try done). by injection Hclaim as _ <-. }
  rewrite Hd', Forall_app, Forall_singleton in Hall.
  destruct Hall as [_ Hall]. by apply Hall.
Qed.

Lemma claimed_school_is_no_longer_offered_witness :
  let d := Db.Build None [harmony] [] [] in
  let d' := Db.Build None [harmony] [] [Claim "c1" "m1" "s1" "pending"] in
  handle_agency_claim d (Some manager1) claim_s1 "c1"
    = (Json 200 true (ClaimSent (Text "Harmony Center")), d') ∧
  available_agencies d (u_id manager1) = [harmony] ∧
  ∀ s, s ∈ available_agencies d' (u_id manager1) →
       s_id s ≠ Text (default ""%string (claim_s1 !! "agency_id"%string)).
Proof.
  intros d d'.
  assert (H : handle_agency_claim d (Some manager1) claim_s1 "c1"
              = (Json 200 true (ClaimSent (Text "Harmony Center")), d'))
    by (vm_compute; reflexivity).
  split; [exact H|]. split; [vm_compute; reflexivity|].
  intros s. exact (claimed_school_is_no_longer_offered d manager1 claim_s1 "c1" _ d' s H).
Defined.

(** *** What a submission stores *)

Lemma sanitize_required_inr data fields : ∀ acc sd,
  sanitize_required data fields acc = inr sd →
  (∀ f, f ∈ fields →
     sd !! f = Some (cleaned data f) ∧ cleaned data f ≠ ""%string ∧
     detect_spam_patterns (cleaned data f) = false) ∧
  (∀ f, f ∉ fields → sd !! f = acc !! f).
Proof.
  induction fields as [|g fields IH]; intros acc sd.
  - intros [= <-]. split; [by intros f Hf%elem_of_nil | done].
  - rewrite sanitize_required_cons.
    destruct (default (JString "") (data !! g)); [|done].
    destruct (decide (cleaned data g = ""%string)) as [|Hne]; [done|].
    destruct (detect_spam_patterns (cleaned data g)) eqn:Hspam; [done|].
    intros Hrec. destruct (IH _ _ Hrec) as [Hin Hout]. split.
    + intros f [->|Hf]%elem_of_cons; [|by apply Hin].
      destruct (decide (g ∈ fields)) as [Hg|Hg]; [by apply Hin|].
      by rewrite (Hout g Hg), lookup_insert_eq.
    + intros f [Hfg Hf]%not_elem_of_cons.
      by rewrite (Hout f Hf), lookup_insert_ne.
Qed.

(** The row that [handle_activity_submission] writes into the table it
    declares. *)
Definition stored_row (u : user) (data : gmap string json) (now : Z)
    (activity_id : string) : row :=
  [Text activity_id; Text (u_id u); Text (cleaned data "activity_name");
   Text (cleaned data "school_name"); Text (cleaned data "category");
   Text (cleaned data "city"); Text (cleaned_description data);
   Text "pending"; Int now].

(** X23.  What an accepted submission stores.  When
    [handle_activity_submission] answers with the success message and the
    table has the columns the handler declares, the database has gained
    exactly one row: pending, owned by the sender, holding the sanitized
    values of the fields; none of the four required values is empty, no
    stored text trips the spam heuristic, and schools, activities and
    claims are untouched. *)
Theorem accepted_submission_is_stored (w w' : world) (u : user)
    (client_ip : string) (data : body) (now_sweep now : Z)
    (activity_id : string) :
  columns (create_submitted_if_not_exists (submitted_activities (db w)))
    = submitted_columns →
  handle_activity_submission w (Some u) client_ip data now_sweep now activity_id
    = (Json 200 true SubmissionReceived, w') →
  ∃ fields, data = Object fields ∧
  let before := rows (create_submitted_if_not_exists (submitted_activities (db w))) in
  db w' = Db.Build
            (Some (Table submitted_columns
                     (before ++ [stored_row u fields now activity_id])))
            (schools (db w)) (activities (db w)) (user_agency_claims (db w)) ∧
  u_role u = "parent"%string ∧
  Forall (λ f, (∃ s, fields !! f = Some (JString s)) ∧
               cleaned fields f ≠ ""%string ∧
               detect_spam_patterns (cleaned fields f) = false) required_fields ∧
  (cleaned_description fields = ""%string ∨
   detect_spam_patterns (cleaned_description fields) = false) ∧
  Forall (λ r, r !! 0%nat ≠ Some (Text activity_id)) before.
Proof.
  intros Hcols Hres. unfold handle_activity_submission, require_role in Hres.
  destruct (decide (u_role u ∈ ["parent"%string])) as [Hrole%list_elem_of_singleton|];
    [|done].
  destruct (check_rate_limit _ _ _ _ _ _ _) as [[r|] l'] eqn:Hrl.
  { apply check_rate_limit_refuses in Hrl. by simplify_eq. }
  destruct data as [| |data]; [done | done |].
  exists data. split; [done|]. intros before.
  destruct (sanitize_required data required_fields ∅) as [r|sd] eqn:Hreq.
  { apply sanitize_required_inl in Hreq. injection Hres as -> _.
    by destruct Hreq as [Hreq|Hreq]; inversion Hreq. }
  destruct (sanitize_required_inr _ _ _ _ Hreq) as [Hin _].
  cbv zeta in Hres. fold (cleaned_description data) in Hres.
  destruct (bool_decide (cleaned_description data ≠ ""%string)
            && detect_spam_patterns (cleaned_description data)) eqn:Hdesc; [done|].
  destruct (Hin "activity_name"%string ltac:(repeat constructor)) as (Hn & _).
  destruct (Hin "school_name"%string ltac:(repeat constructor)) as (Hs & _).
  destruct (Hin "category"%string ltac:(repeat constructor)) as (Hc & _).
  destruct (Hin "city"%string ltac:(repeat constructor)) as (Hci & _).
  rewrite Hn, Hs, Hc, Hci in Hres. simpl default in Hres.
  destruct (create_submitted_if_not_exists (submitted_activities (db w)))
    as [cols rows0] eqn:Htb.
  simpl in Hcols. subst cols. subst before. cbn [rows].
  unfold insert_submitted in Hres. cbn [columns rows] in Hres.
  rewrite decide_True in Hres
    by (unfold submitted_columns; repeat constructor; simpl; set_solver).
  change (map _ submitted_columns) with (stored_row u data now activity_id) in Hres.
  change (field submitted_columns "id" (stored_row u data now activity_id))
    with (Some (Text activity_id)) in Hres.
  destruct (decide (Exists _ rows0)) as [|Hfresh]; [done|].
  injection Hres as <-. cbn [db]. split_and!; try done.
  - apply Forall_forall. intros f Hf. destruct (Hin f Hf) as (_ & Hne & Hok).
    split; [|done].
    unfold cleaned, text_of in Hne.
    destruct (data !! f) as [[t|? ?]|]; [by eauto | |]; by destruct Hne; vm_compute.
  - apply andb_false_iff in Hdesc as [Hd|Hd]; [left|by right].
    apply bool_decide_eq_false in Hd. by destruct (decide (cleaned_description data = ""%string)).
  - apply Forall_forall. intros r Hr Hid. apply Hfresh.
    apply Exists_exists. by exists r.
Qed.

Lemma accepted_submission_is_stored_witness :
  let res :=
    handle_activity_submission fresh_world (Some parent1) "10.0.0.1" kids_yoga
      10 10 "sub-1" in
  columns (create_submitted_if_not_exists (submitted_activities (db fresh_world)))
    = submitted_columns ∧
  res = (Json 200 true SubmissionReceived, res.2) ∧
  ∃ fields, kids_yoga = Object fields ∧
  db res.2 = Db.Build
               (Some (Table submitted_columns
                        ([] ++ [stored_row parent1 fields 10 "sub-1"])))
               [] [] [].
Proof.
  intros res.
  assert (H1 : columns (create_submitted_if_not_exists
                          (submitted_activities (db fresh_world)))
               = submitted_columns) by reflexivity.
  assert (H2 : res = (Json 200 true SubmissionReceived, res.2)).
  { unfold res. vm_compute. reflexivity. }
  split; [exact H1|]. split; [exact H2|].
  destruct (accepted_submission_is_stored fresh_world res.2 parent1 "10.0.0.1"
              kids_yoga 10 10 "sub-1" H1 H2) as (fields & Hf & Hdb & _).
  exists fields. split; [exact Hf | exact Hdb].
Defined.

(** *** The budget of three submissions an hour *)

(** One POST to [/api/submit-activity]: the decoded body, the two clock
    readings and the fresh uuid. *)
Record attempt := Attempt {
  at_data : body;
  at_sweep : Z;
  at_now : Z;
  at_id : string
}.

Definition submit_key (u : user) (client_ip : string) : string :=
  String.append client_ip (String.append ":" (String.append "submit_activity_" (u_id u))).

Definition submit_request (u : user) (client_ip : string) (x : attempt) : request :=
  SubmitActivity (Some u) client_ip (at_data x) (at_sweep x) (at_now x) (at_id x).

Definition submit_call (u : user) (client_ip : string) (x : attempt) : RateLimiter.call :=
  RateLimiter.Call (submit_key u client_ip) 3 3600 (at_sweep x) (at_now x).

Lemma submission_limiter w u client_ip x :
  u_role u = "parent"%string →
  let res := RateLimiter.step (limiter w) (submit_call u client_ip x) in
  limiter (do_POST w (submit_request u client_ip x)).2 = res.2 ∧
  ((do_POST w (submit_request u client_ip x)).1 = TooManyRequests 3600
   ↔ res.1.1 = true).
Proof.
  intros Hrole res. subst res.
  unfold submit_request, do_POST, handle_activity_submission, require_role.
  rewrite Hrole, decide_True by constructor.
  unfold check_rate_limit, RateLimiter.step, submit_call, submit_key.
  cbn [RateLimiter.c_ip RateLimiter.c_max RateLimiter.c_window
       RateLimiter.c_sweep RateLimiter.c_now].
  destruct (RateLimiter.is_rate_limited _ _ _ _ _ _) as [[limited rem] l'].
  destruct limited; cbn [fst snd limiter]; [done|].
  destruct (at_data x) as [| |data]; cbn [fst snd limiter]; [done | done |].
  destruct (sanitize_required data required_fields ∅) as [r|sd] eqn:Hreq.
  { apply sanitize_required_inl in Hreq. cbn [fst snd limiter].
    split; [done|]. split; [|done]. intros ->.
    by destruct Hreq as [Hreq|Hreq]; inversion Hreq. }
  cbv zeta.
  destruct (bool_decide _ && detect_spam_patterns _); cbn [fst snd limiter]; [done|].
  destruct (insert_submitted _ _ _); cbn [fst snd limiter]; done.
Qed.

Lemma serve_submissions u client_ip xs : ∀ w (i : nat) r,
  u_role u = "parent"%string →
  (serve w (map (submit_request u client_ip) xs)).1 !! i = Some r →
  ∃ c res,
    (RateLimiter.run (limiter w) (map (submit_call u client_ip) xs)).1 !! i
      = Some (c, res) ∧
    (r = TooManyRequests 3600 ↔ res.1 = true).
Proof.
  induction xs as [|x xs IH]; intros w i r Hrole; [done|].
  destruct (submission_limiter w u client_ip x Hrole) as [Hl Hr].
  cbn [map serve RateLimiter.run].
  destruct (do_POST w (submit_request u client_ip x)) as [r0 w1].
  destruct (RateLimiter.step (limiter w) (submit_call u client_ip x)) as [res0 l1].
  cbn [fst snd] in Hl, Hr. subst l1.
  specialize (IH w1).
  destruct (serve w1 _) as [rs w2].
  destruct (RateLimiter.run (limiter w1) _) as [log l2]. cbn [fst snd] in *.
  destruct i as [|i]; simpl.
  - intros [= <-]. by exists (submit_call u client_ip x), res0.
  - intros Hi. by apply IH.
Qed.

(** X24.  Three submissions an hour, valid or not.  For a parent whose
    rate-limit key has no bucket yet, of any number of POSTs to
    [/api/submit-activity] made from one address inside one hour, the first
    three are not answered 429 and every later one is, whatever the bodies
    of the requests: a submission refused for a missing field or for spam
    uses up the budget like an accepted one. *)
Theorem fourth_submission_is_limited (w : world) (u : user) (client_ip : string)
    (xs : list attempt) (tend : Z) (i : nat) (r : response) :
  u_role u = "parent"%string →
  RateLimiter.bucket (limiter w) (submit_key u client_ip) = [] →
  Forall (λ x, at_sweep x <= tend ∧ tend - 3600 < at_now x ∧ at_now x <= tend) xs →
  (serve w (map (submit_request u client_ip) xs)).1 !! i = Some r →
  (r = TooManyRequests 3600 ↔ (3 <= i)%nat).
Proof.
  intros Hrole Hfresh Hxs Hi.
  destruct (serve_submissions u client_ip xs w i r Hrole Hi) as (c & res & Hlog & Hiff).
  pose proof (RateLimiterMore.burst_run (submit_key u client_ip) 3 3600 tend
                (map (submit_call u client_ip) xs) (limiter w) 0
                ltac:(lia) ltac:(lia) ltac:(lia)) as Hb.
  rewrite Hfresh in Hb.
  specialize (Hb ltac:(simpl; lia) ltac:(constructor)).
  assert (Hcalls : Forall (RateLimiterMore.in_burst (submit_key u client_ip) 3 3600 tend)
                     (map (submit_call u client_ip) xs)).
  { apply Forall_map. eapply Forall_impl; [exact Hxs|].
    intros x (? & ? & ?). unfold RateLimiterMore.in_burst. simpl. split_and!; done. }
  specialize (Hb Hcalls i c res Hlog). rewrite Hiff, Hb.
  destruct (decide (0 + Z.of_nat i < 3)); simpl; split; intros; (done || lia).
Qed.

Definition four_attempts : list attempt :=
  [Attempt kids_yoga 10 10 "sub-1"; Attempt cheap_pills 20 20 "sub-2";
   Attempt Malformed 30 30 "sub-3"; Attempt kids_yoga 40 40 "sub-4"].

Lemma fourth_submission_is_limited_witness :
  let rs := (serve fresh_world (map (submit_request parent1 "10.0.0.1") four_attempts)).1 in
  u_role parent1 = "parent"%string ∧
  RateLimiter.bucket (limiter fresh_world) (submit_key parent1 "10.0.0.1") = [] ∧
  Forall (λ x, at_sweep x <= 40 ∧ 40 - 3600 < at_now x ∧ at_now x <= 40) four_attempts ∧
  rs !! 3%nat = Some (TooManyRequests 3600) ∧
  (TooManyRequests 3600 = TooManyRequests 3600 ↔ (3 <= 3)%nat).
Proof.
  intros rs.
  assert (H1 : u_role parent1 = "parent"%string) by reflexivity.
  assert (H2 : RateLimiter.bucket (limiter fresh_world) (submit_key parent1 "10.0.0.1") = [])
    by (vm_compute; reflexivity).
  assert (H3 : Forall (λ x, at_sweep x <= 40 ∧ 40 - 3600 < at_now x ∧ at_now x <= 40)
                 four_attempts).
  { unfold four_attempts.
    repeat (apply Forall_cons; split; [simpl; lia|]). by apply Forall_nil. }
  assert (H4 : rs !! 3%nat = Some (TooManyRequests 3600)) by (vm_compute; reflexivity).
  exact (conj H1 (conj H2 (conj H3 (conj H4
    (fourth_submission_is_limited fresh_world parent1 "10.0.0.1" four_attempts 40 3 _
       H1 H2 H3 H4))))).
Defined.

End SkillioHandlerMore.


(* ===================================================================== *)
(** * Part VIII: ratings and permission levels                            *)
(* ===================================================================== *)

(** ** [handle_rating] *)
Module Ratings.
Import Db SkillioHandler.

(** The rows of [ratings] ([id TEXT PRIMARY KEY], [school_id TEXT NOT NULL],
    [parent_id TEXT NOT NULL], [rating INTEGER NOT NULL CHECK (rating >= 1
    AND rating <= 5)], [comment TEXT], [created_at]) as [handle_rating], the
    only writer of the table, leaves them.  [main] creates the table with
    [setup_ratings_table] before the server starts. *)
Record rating := Rating {
  r_id : string;
  r_school_id : string;
  r_parent_id : string;
  r_rating : Z;
  r_comment : string;
  r_created_at : Z
}.

(** The decoded body: [None] is a key that is absent; [rating] is a JSON
    integer, the two texts are JSON strings. *)
Record body := Body {
  b_school_name : option string;
  b_rating : option Z;
  b_comment : option string
}.

Inductive reply : Type :=
| OnlyParents             (* 403 *)
| Required                (* 400: name and rating are required *)
| OutOfRange              (* 400: the rating has to be between 1 and 5 *)
| SchoolNotFound          (* 404 *)
| Saved                   (* 200, success *)
| SaveFailed (e : exn).   (* 500 *)

Definition status_code (r : reply) : Z :=
  match r with
  | OnlyParents => 403
  | Required | OutOfRange => 400
  | SchoolNotFound => 404
  | Saved => 200
  | SaveFailed _ => 500
  end.

(** What a [TEXT] column keeps of a bound value, and what a bound value is
    compared as against it: a number as its decimal text; [NULL] is neither
    kept by a [NOT NULL] column nor equal to anything. *)
Definition as_text (v : value) : option string :=
  match v with
  | Null => None
  | Text s => Some s
  | Int z => Some (pretty z)
  end.

(** [WHERE school_id = ? AND parent_id = ?]. *)
Definition rated (school_id parent_id : string) (r : rating) : Prop :=
  r_school_id r = school_id ∧ r_parent_id r = parent_id.

#[global] Instance rated_dec s p r : Decision (rated s p r).
Proof. unfold rated. apply _. Defined.

(** [UPDATE ratings SET rating = ?, comment = ?, created_at =
    CURRENT_TIMESTAMP WHERE id = ?]. *)
Definition update_rating (ratings : list rating) (id : string)
    (new_rating : Z) (comment : string) (now : Z) : list rating :=
  map (λ r, if decide (r_id r = id)
            then Rating (r_id r) (r_school_id r) (r_parent_id r) new_rating comment now
            else r) ratings.

(** [handle_rating]: [current] is what [get_current_user] returns,
    [rating_id] the fresh uuid and [now] the clock of the database. *)
Definition handle_rating (schools : list school) (ratings : list rating)
    (current : option user) (data : body) (rating_id : string) (now : Z)
    : reply * list rating :=
  match current with
  | None => (OnlyParents, ratings)
  | Some u =>
      if decide (u_role u ≠ "parent"%string) then (OnlyParents, ratings)
      else
        let school_name := default ""%string (b_school_name data) in
        let new_rating := default 0 (b_rating data) in
        let comment := default ""%string (b_comment data) in
        if decide (school_name = ""%string ∨ new_rating = 0) then (Required, ratings)
        else if decide (1 <= new_rating ∧ new_rating <= 5) then
          match list_find (λ s, s_name s = Text school_name) schools with
          | None => (SchoolNotFound, ratings)
          | Some (_, school) =>
              let existing :=
                sid ← as_text (s_id school);
                snd <$> list_find (rated sid (u_id u)) ratings in
              match existing with
              | Some old =>
                  (Saved, update_rating ratings (r_id old) new_rating comment now)
              | None =>
                  match as_text (s_id school) with
                  | None => (SaveFailed IntegrityError, ratings)
                  | Some sid =>
                      if decide (Exists (λ r, r_id r = rating_id) ratings)
                      then (SaveFailed IntegrityError, ratings)
                      else (Saved,
                            ratings ++ [Rating rating_id sid (u_id u) new_rating comment now])
                  end
              end
          end
        else (OutOfRange, ratings)
  end.

(** One POST to [/api/rate], with the [schools] table as it is then. *)
Record post := Post {
  p_schools : list school;
  p_user : option user;
  p_data : body;
  p_id : string;
  p_now : Z
}.

Fixpoint rate_all (ratings : list rating) (posts : list post)
    : list reply * list rating :=
  match posts with
  | [] => ([], ratings)
  | p :: posts' =>
      let '(r, ratings') :=
        handle_rating (p_schools p) ratings (p_user p) (p_data p) (p_id p) (p_now p) in
      let '(rs, ratings'') := rate_all ratings' posts' in
      (r :: rs, ratings'')
  end.

End Ratings.

(** ** [check_permission] *)
Module Permissions.
Import SkillioHandler.

Definition role_hierarchy : gmap string Z :=
  <["admin"%string := 3]> (<["school"%string := 2]> (<["parent"%string := 1]> ∅)).

(** [check_permission(required_role, user)] with the user already looked
    up; [None] is no session. *)
Definition check_permission (required_role : string) (current : option user) : bool :=
  match current with
  | None => false
  | Some u =>
      let user_level := default 0 (role_hierarchy !! u_role u) in
      let required_level := default 99 (role_hierarchy !! required_role) in
      bool_decide (user_level >= required_level)
  end.

End Permissions.

Module RatingsFacts.
Import Db SkillioHandler Ratings.

Definition key (r : rating) : string * string := (r_school_id r, r_parent_id r).

(** The table keeps its primary key, holds at most one rating of a school
    by a parent, and only ratings from 1 to 5. *)
Definition tidy (ratings : list rating) : Prop :=
  NoDup (map r_id ratings) ∧ NoDup (map key ratings) ∧
  Forall (λ r, 1 <= r_rating r ∧ r_rating r <= 5) ratings.

Lemma update_rating_ids ratings id n c now :
  map r_id (update_rating ratings id n c now) = map r_id ratings.
Proof.
  unfold update_rating. rewrite map_map. apply map_ext.
  intros r. by destruct (decide _).
Qed.

Lemma update_rating_keys ratings id n c now :
  map key (update_rating ratings id n c now) = map key ratings.
Proof.
  unfold update_rating. rewrite map_map. apply map_ext.
  intros r. by destruct (decide _).
Qed.

Lemma update_rating_range ratings id n c now :
  1 <= n ∧ n <= 5 →
  Forall (λ r, 1 <= r_rating r ∧ r_rating r <= 5) ratings →
  Forall (λ r, 1 <= r_rating r ∧ r_rating r <= 5) (update_rating ratings id n c now).
Proof.
  intros Hn Hall. unfold update_rating. apply Forall_map.
  eapply Forall_impl; [exact Hall|]. intros r Hr. simpl.
  by destruct (decide _).
Qed.

Lemma not_rated_key sid uid ratings :
  list_find (rated sid uid) ratings = None → (sid, uid) ∉ map key ratings.
Proof.
  intros Hnone Hin. apply list_find_None in Hnone.
  apply list_elem_of_fmap in Hin as (r & Hk & Hr).
  rewrite Forall_forall in Hnone. apply (Hnone r Hr).
  unfold key in Hk. by injection Hk as -> ->.
Qed.

Lemma handle_rating_tidy schools ratings current data id now :
  tidy ratings → tidy (handle_rating schools ratings current data id now).2.
Proof.
  intros (Hid & Hkey & Hrange). unfold handle_rating.
  destruct current as [u|]; [|done].
  destruct (decide (u_role u ≠ _)); [done|]. cbv zeta.
  destruct (decide (_ ∨ _)); [done|].
  destruct (decide (_ ∧ _)) as [Hn|]; [|done].
  destruct (list_find _ schools) as [[? school]|]; [|done].
  destruct (as_text (s_id school)) as [sid|]; simpl; [|done].
  destruct (list_find (rated sid (u_id u)) ratings) as [[? old]|] eqn:Hfind; simpl.
  - split_and!.
    + by rewrite update_rating_ids.
    + by rewrite update_rating_keys.
    + by apply update_rating_range.
  - destruct (decide (Exists _ ratings)) as [|Hfresh]; [done|]. simpl.
    split_and!.
    + rewrite map_app. simpl. apply NoDup_app. split_and!; [done| |apply NoDup_singleton].
      intros x Hx ->%list_elem_of_singleton. apply Hfresh.
      apply list_elem_of_fmap in Hx as (r & ? & ?).
      apply Exists_exists. by exists r.
    + rewrite map_app. simpl. apply NoDup_app. split_and!; [done| |apply NoDup_singleton].
      intros x Hx ->%list_elem_of_singleton.
      by apply (not_rated_key sid (u_id u) ratings).
    + apply Forall_app. split; [done|]. by apply Forall_singleton.
Qed.

(** X25.  One rating per parent and school.  Whatever requests
    [handle_rating] serves, and whatever the [schools] table holds when it
    serves them, a [ratings] table that kept its primary key, held at most
    one rating of a school by a parent and only ratings from 1 to 5 still
    does so afterwards. *)
Theorem ratings_stay_tidy (posts : list post) (ratings : list rating) :
  tidy ratings → tidy (rate_all ratings posts).2.
Proof.
  revert ratings. induction posts as [|p posts IH]; intros ratings Htidy; [done|].
  cbn [rate_all].
  pose proof (handle_rating_tidy (p_schools p) ratings (p_user p) (p_data p)
                (p_id p) (p_now p) Htidy) as Hstep.
  destruct (handle_rating _ _ _ _ _ _) as [r ratings'].
  specialize (IH ratings' Hstep).
  by destruct (rate_all ratings' posts).
Qed.

Definition harmony_school : school :=
  School (Text "s1") (Text "Harmony Center") Null (Text "Sofia") Null Null Null
    (Int 1) (Text "u-9").

Definition some_parent : user := User "u-1" "ana@example.com" "parent".

Definition two_posts : list post :=
  [Post [harmony_school] (Some some_parent)
     (Body (Some "Harmony Center") (Some 4) (Some "good")) "r-1" 10;
   Post [harmony_school] (Some some_parent)
     (Body (Some "Harmony Center") (Some 2) None) "r-2" 20]%string.

Lemma ratings_stay_tidy_witness :
  tidy [] ∧
  (rate_all [] two_posts).2 = [Rating "r-1" "s1" "u-1" 2 "" 20] ∧
  tidy (rate_all [] two_posts).2.
Proof.
  assert (H : tidy []).
  { split_and!; [apply NoDup_nil_2 | apply NoDup_nil_2 | apply Forall_nil_2]. }
  split; [exact H|]. split; [vm_compute; reflexivity|].
  exact (ratings_stay_tidy two_posts [] H).
Defined.

Lemma list_find_same_keys (f : rating → rating) sid uid ratings :
  (∀ r, key (f r) = key r) →
  list_find (rated sid uid) (map f ratings) =
  prod_map id f <$> list_find (rated sid uid) ratings.
Proof.
  intros Hf. induction ratings as [|r ratings IH]; [done|].
  cbn [map list_find].
  assert (Hiff : rated sid uid (f r) ↔ rated sid uid r).
  { specialize (Hf r). unfold key in Hf. injection Hf as H1 H2.
    unfold rated. by rewrite H1, H2. }
  destruct (decide (rated sid uid (f r))), (decide (rated sid uid r));
    [reflexivity | tauto | tauto |].
  rewrite IH. by destruct (list_find (rated sid uid) ratings) as [[? ?]|].
Qed.

Lemma list_find_snoc_none {A} (P : A → Prop) `{∀ x, Decision (P x)} l x :
  list_find P l = None → P x →
  list_find P (l ++ [x]) = Some (length l, x).
Proof.
  intros Hnone Hx. apply list_find_Some. split_and!.
  - by apply list_lookup_middle.
  - done.
  - intros j y Hj Hlt. apply list_find_None in Hnone.
    rewrite Forall_forall in Hnone. apply Hnone.
    rewrite lookup_app_l in Hj by done. by eapply list_elem_of_lookup_2.
Qed.

(** X26.  The latest rating wins.  When [handle_rating] answers success, the
    school named in the request exists, the rating lies between 1 and 5, and
    the row that the handler's own look-up ([WHERE school_id = ? AND
    parent_id = ?], first row) finds afterwards for this parent and school
    carries the rating and the comment just sent, a missing comment being
    stored as the empty text. *)
Theorem latest_rating_wins (schools : list school) (ratings ratings' : list rating)
    (u : user) (data : body) (rating_id : string) (now : Z) :
  handle_rating schools ratings (Some u) data rating_id now = (Saved, ratings') →
  ∃ name school sid i r,
    b_school_name data = Some name ∧
    snd <$> list_find (λ s, s_name s = Text name) schools = Some school ∧
    as_text (s_id school) = Some sid ∧
    list_find (rated sid (u_id u)) ratings' = Some (i, r) ∧
    Some (r_rating r) = b_rating data ∧ 1 <= r_rating r ∧ r_rating r <= 5 ∧
    r_comment r = default ""%string (b_comment data) ∧
    r_created_at r = now.
Proof.
  unfold handle_rating.
  destruct (decide (u_role u ≠ _)); [done|]. cbv zeta.
  destruct (decide (_ ∨ _)) as [|Hreq]; [done|].
  destruct (decide (_ ∧ _)) as [Hn|]; [|done].
  destruct (b_school_name data) as [name|] eqn:Hname; cbn [from_option id] in *;
    [|by destruct Hreq; left].
  destruct (b_rating data) as [stars|] eqn:Hrating; cbn [from_option id] in *;
    [|by destruct Hreq; right].
  destruct (list_find _ schools) as [[? school]|] eqn:Hschool; [|done].
  destruct (as_text (s_id school)) as [sid|] eqn:Hsid; cbn [mbind option_bind]; [|done].
  destruct (list_find (rated sid (u_id u)) ratings) as [[i old]|] eqn:Hfind;
    cbn [fmap option_fmap option_map snd].
  - intros [= <-].
    exists name, school, sid, i,
      (Rating (r_id old) (r_school_id old) (r_parent_id old) stars
         (default ""%string (b_comment data)) now).
    split; [done|]. split; [by rewrite Hschool|]. split; [done|].
    split; [|cbn [r_rating r_comment r_created_at]; split_and!; (done || lia)].
    unfold update_rating. rewrite list_find_same_keys.
    + rewrite Hfind. simpl. by rewrite decide_True by done.
    + intros r. by destruct (decide _).
  - destruct (decide (Exists _ ratings)); [done|]. intros [= <-].
    exists name, school, sid, (length ratings),
      (Rating rating_id sid (u_id u) stars (default ""%string (b_comment data)) now).
    split; [done|]. split; [by rewrite Hschool|]. split; [done|].
    split; [|cbn [r_rating r_comment r_created_at]; split_and!; (done || lia)].
    by apply list_find_snoc_none.
Qed.

Lemma latest_rating_wins_witness :
  ∃ ratings',
    handle_rating [harmony_school] [Rating "r-1" "s1" "u-1" 4 "good" 10]
      (Some some_parent) (Body (Some "Harmony Center") (Some 2) None) "r-2" 20
      = (Saved, ratings') ∧
    ∃ name school sid i r,
      Some "Harmony Center"%string = Some name ∧
      snd <$> list_find (λ s, s_name s = Text name) [harmony_school] = Some school ∧
      as_text (s_id school) = Some sid ∧
      list_find (rated sid "u-1") ratings' = Some (i, r) ∧
      Some (r_rating r) = Some 2 ∧ 1 <= r_rating r ∧ r_rating r <= 5 ∧
      r_comment r = ""%string ∧ r_created_at r = 20.
Proof.
  eexists. split; [vm_compute; reflexivity|].
  exact (latest_rating_wins [harmony_school] [Rating "r-1" "s1" "u-1" 4 "good" 10] _
           some_parent (Body (Some "Harmony Center") (Some 2) None) "r-2" 20 eq_refl).
Defined.

End RatingsFacts.

Module PermissionsFacts.
Import SkillioHandler Permissions.

Lemma role_level (role : string) (fallback : Z) :
  default fallback (role_hierarchy !! role) =
  if decide (role = "admin"%string) then 3
  else if decide (role = "school"%string) then 2
  else if decide (role = "parent"%string) then 1
  else fallback.
Proof.
  unfold role_hierarchy.
  destruct (decide (role = "admin"%string)) as [->|Ha]; [by rewrite lookup_insert_eq|].
  rewrite lookup_insert_ne by done.
  destruct (decide (role = "school"%string)) as [->|Hs]; [by rewrite lookup_insert_eq|].
  rewrite lookup_insert_ne by done.
  destruct (decide (role = "parent"%string)) as [->|Hp]; [by rewrite lookup_insert_eq|].
  by rewrite lookup_insert_ne by done.
Qed.

(** X27.  Who is granted what.  [check_permission] grants [parent] to
    parents, schools and admins, [school] to schools and admins, [admin] to
    admins only; a required role other than these three is granted to no
    one, and a user whose role is none of the three is granted nothing. *)
Theorem check_permission_iff (required_role : string) (u : user) :
  check_permission required_role (Some u) = true ↔
  (required_role = "parent"%string ∧ u_role u ∈ ["parent"; "school"; "admin"]%string) ∨
  (required_role = "school"%string ∧ u_role u ∈ ["school"; "admin"]%string) ∨
  (required_role = "admin"%string ∧ u_role u = "admin"%string).
Proof.
  unfold check_permission. cbv zeta.
  rewrite bool_decide_eq_true, !role_level.
  rewrite !elem_of_cons, !elem_of_nil.
  destruct (decide (required_role = "admin"%string)) as [->|?];
    [|destruct (decide (required_role = "school"%string)) as [->|?];
      [|destruct (decide (required_role = "parent"%string)) as [->|?]]];
  (destruct (decide (u_role u = "admin"%string)) as [Hu|?];
    [|destruct (decide (u_role u = "school"%string)) as [Hu|?];
      [|destruct (decide (u_role u = "parent"%string)) as [Hu|?]]]);
  try rewrite Hu; (split; [intros Hle; try lia | intros Hor]);
  intuition (subst; try lia; try congruence; auto).
Qed.

End PermissionsFacts.
